(** * The [Dataset] class of [dataset/dataset.py]

    A shallow embedding of the exploratory-data-analysis wrapper around a
    pandas table, and proofs of the properties its specification states.

    Layout of the development:
    - pandas values (cells, Series, DataFrame) and the few pandas
      operations the class calls, as pure functions;
    - the object store: [self.data] and [self.features] are references to
      mutable frames, so that in-place mutation and copying are distinct;
    - the methods of [Dataset], in a state-and-exception monad over [self];
    - the external collaborators (CSV loader, scalers, row reductions, the
      OLS fit) as section variables;
    - [table], whose outcome is the lines it prints;
    - the theorems: those of the specification, then further properties
      of the methods.

    The pandas modelled is pandas 1.x: [Series.argmax] returns a
    position, [get_dummies] produces [uint8] columns, [df[label]] under a
    repeated label is a new frame.  The quotient that
    [under_represented_features] computes is a binary64 float
    ([PrimFloat]); p-values, which the code only compares, are exact
    rationals ([Qc]), [NaN] being [None]. *)

From Stdlib Require Import QArith Qcanon.
From Stdlib Require Import Floats Uint63.
From stdpp Require Import base decidable option list strings gmap numbers sorting pretty.

Open Scope string_scope.
Open Scope list_scope.

(** ** pandas values *)

(** Column types.  Only the distinction [object] / not [object] is observed
    by the class. *)
Inductive dtype := dt_object | dt_int64 | dt_float64 | dt_bool | dt_uint8.

#[global] Instance dtype_eq_dec : EqDecision dtype.
Proof. solve_decision. Defined.

(** A cell: missing, a number, or a Python string.  Numeric payloads are
    never computed on by the code under study, only moved around. *)
Inductive cell := NA | Num (z : Z) | Str (s : string).

#[global] Instance cell_eq_dec : EqDecision cell.
Proof. solve_decision. Defined.

Record series := Series {
  s_name : string;
  s_dtype : dtype;
  s_values : list cell
}.

#[global] Instance series_eq_dec : EqDecision series.
Proof. solve_decision. Defined.

(** A frame: row labels and the columns in order.  Column labels may
    repeat, as in pandas. *)
Record frame := DataFrame {
  df_index : list Z;
  df_cols : list series
}.

#[global] Instance frame_eq_dec : EqDecision frame.
Proof. solve_decision. Defined.

(** What an indexing expression may return. *)
Inductive pdobj := PSeries (s : series) | PFrame (f : frame).

#[global] Instance pdobj_eq_dec : EqDecision pdobj.
Proof. solve_decision. Defined.

(** A two-dimensional array as returned by a scikit-learn transformer:
    one element type, a list of columns. *)
Record ndarray := NdArray {
  nd_dtype : dtype;
  nd_columns : list (list cell)
}.

(** Python values passed where the code accepts either a name or a list. *)
Inductive pyval :=
  | PyNone
  | PyStr (s : string)
  | PyInt (z : Z)
  | PyList (l : list string).

#[global] Instance pyval_eq_dec : EqDecision pyval.
Proof. solve_decision. Defined.

(** One row of the [descr] table built by [metainfo]. *)
Record descr_row := DescrRow {
  d_label : string;
  d_dtype : dtype;
  d_NAs : nat
}.

#[global] Instance descr_row_eq_dec : EqDecision descr_row.
Proof. solve_decision. Defined.

(** Values stored in the [meta] dictionary. *)
Inductive metaval :=
  | MList (l : list string)
  | MName (n : option string)
  | MDescr (rows : list descr_row).

#[global] Instance metaval_eq_dec : EqDecision metaval.
Proof. solve_decision. Defined.

(** ** Exceptions and results *)

Inductive exn :=
  | AssertionError
  | KeyError
  | IndexError
  | ValueError
  | AttributeError
  | TypeError
  | RuntimeError
  | LibraryError.   (* raised inside an external collaborator *)

#[global] Instance exn_eq_dec : EqDecision exn.
Proof. solve_decision. Defined.

Inductive result (A : Type) :=
  | Ok (a : A)
  | Raise (e : exn).

Arguments Ok {A} a.
Arguments Raise {A} e.

Definition rbind {A B} (r : result A) (k : A → result B) : result B :=
  match r with
  | Ok a => k a
  | Raise e => Raise e
  end.

Definition rmap {A B} (f : A → B) (r : result A) : result B :=
  rbind r (λ a, Ok (f a)).

Notation "'let?' x ':=' r 'in' k" := (rbind r (λ x, k))
  (at level 10, x pattern, r at level 200, k at level 200).

Fixpoint rmapM {A B} (f : A → result B) (l : list A) : result (list B) :=
  match l with
  | [] => Ok []
  | x :: l' =>
      let? y := f x in
      let? ys := rmapM f l' in
      Ok (y :: ys)
  end.

(** ** pandas operations on frames *)

(** [list(df)], [df.columns]. *)
Definition columns (f : frame) : list string := s_name <$> df_cols f.

(** [len(df)]. *)
Definition frame_len (f : frame) : nat := length (df_index f).

(** The columns carrying one label. *)
Definition labelled (f : frame) (label : string) : list series :=
  filter (λ c, s_name c = label) (df_cols f).

(** [df.loc[:, labels]] and [df[labels]] for a list of labels: the columns
    in the order asked for; a label that is absent raises [KeyError]. *)
Definition loc_list (f : frame) (labels : list string) : result frame :=
  let? cs := rmapM (λ l, match labelled f l with
                          | [] => Raise KeyError
                          | cs => Ok cs
                          end) labels in
  Ok (DataFrame (df_index f) (concat cs)).

(** [df.loc[:, label]] and [df[label]] for one label: a Series when the
    label is unique, a frame when it repeats. *)
Definition loc_label (f : frame) (label : option string) : result pdobj :=
  match label with
  | None => Raise KeyError
  | Some l =>
      match labelled f l with
      | [] => Raise KeyError
      | [c] => Ok (PSeries c)
      | cs => Ok (PFrame (DataFrame (df_index f) cs))
      end
  end.

(** [df.loc[:, key]] where the key comes out of the [meta] dictionary. *)
Definition loc (f : frame) (key : metaval) : result pdobj :=
  match key with
  | MList l => rmap PFrame (loc_list f l)
  | MName n => loc_label f n
  | MDescr _ => Raise TypeError
  end.

(** [df.drop(label, axis=1)]. *)
Definition drop_label (f : frame) (label : string) : result frame :=
  if decide (label ∈ columns f)
  then Ok (DataFrame (df_index f) (filter (λ c, s_name c ≠ label) (df_cols f)))
  else Raise KeyError.

(** [df[label] = values]: every column carrying the label is overwritten;
    a new label is appended. *)
Definition setitem_col (f : frame) (label : string) (dt : dtype)
    (vals : list cell) : result frame :=
  if decide (length vals = frame_len f) then
    if decide (label ∈ columns f)
    then Ok (DataFrame (df_index f)
               ((λ c, if decide (s_name c = label) then Series label dt vals else c)
                  <$> df_cols f))
    else Ok (DataFrame (df_index f) (df_cols f ++ [Series label dt vals]))
  else Raise ValueError.

(** [df[labels] = value] for a frame [value]: the columns named in
    [labels] take the values of the column of [value] with the same label
    (all missing where [value] has none). *)
Definition setitem_cols (f : frame) (labels : list string) (value : frame) : frame :=
  DataFrame (df_index f)
    ((λ c, if decide (s_name c ∈ labels) then
             match labelled value (s_name c) with
             | v :: _ => v
             | [] => Series (s_name c) dt_float64 (replicate (frame_len f) NA)
             end
           else c) <$> df_cols f).

(** [pd.DataFrame(array, index=..., columns=...)]. *)
Definition frame_of_array (a : ndarray) (idx : list Z) (labels : list string)
    : result frame :=
  if decide (length (nd_columns a) = length labels
             ∧ Forall (λ col, length col = length idx) (nd_columns a))
  then Ok (DataFrame idx
             (zip_with (λ l col, Series l (nd_dtype a) col) labels (nd_columns a)))
  else Raise ValueError.

(** [pd.concat([a, b], axis=1)] for two frames over the same rows. *)
Definition concat_columns (a b : frame) : frame :=
  DataFrame (df_index a) (df_cols a ++ df_cols b).

(** [series.isna().sum()]. *)
Definition count_na (s : series) : nat :=
  length (filter (λ c, c = NA) (s_values s)).

(** *** [value_counts] *)

(** Distinct non-missing values in order of first appearance. *)
Definition categories (s : series) : list cell :=
  remove_dups (filter (λ c, c ≠ NA) (s_values s)).

Definition occurrences (v : cell) (s : series) : nat :=
  length (filter (λ c, c = v) (s_values s)).

(** Insertion of a (value, count) pair in a list kept by decreasing count;
    among equal counts the earlier entry stays first. *)
Fixpoint insert_by_count (p : cell * nat) (l : list (cell * nat)) : list (cell * nat) :=
  match l with
  | [] => [p]
  | q :: l' =>
      if decide (q.2 < p.2) then p :: q :: l' else q :: insert_by_count p l'
  end.

Definition sort_by_count (l : list (cell * nat)) : list (cell * nat) :=
  foldr insert_by_count [] l.

(** [series.value_counts()]: missing values are not counted, the most
    frequent value comes first. *)
Definition value_counts (s : series) : list (cell * nat) :=
  sort_by_count ((λ v, (v, occurrences v s)) <$> categories s).

(** [counts.iloc[0]]. *)
Definition iloc0 (counts : list (cell * nat)) : result nat :=
  match counts with
  | [] => Raise IndexError
  | p :: _ => Ok p.2
  end.

(** *** [get_dummies] *)

(** [str(value)] of a cell used as a category. *)
Definition cell_str (c : cell) : string :=
  match c with
  | NA => "nan"
  | Num z => pretty z
  | Str s => s
  end.

(** Order of the categories: numbers first, then strings, each ascending. *)
Definition cell_leb (a b : cell) : bool :=
  match a, b with
  | NA, _ => true
  | _, NA => false
  | Num x, Num y => bool_decide (x ≤ y)%Z
  | Num _, Str _ => true
  | Str _, Num _ => false
  | Str x, Str y => String.leb x y
  end.

Definition cell_le (a b : cell) : Prop := cell_leb a b = true.

#[global] Instance cell_le_dec : RelDecision cell_le.
Proof. intros a b. unfold cell_le. apply _. Defined.

Definition levels (s : series) : list cell :=
  merge_sort cell_le (categories s).

(** [pd.get_dummies(series, prefix=prefix)]: one indicator column per
    category, named [prefix_category]. *)
Definition get_dummies_series (s : series) (prefix : string) : list series :=
  (λ v, Series (prefix +:+ "_" +:+ cell_str v) dt_uint8
          ((λ c, if decide (c = v) then Num 1 else Num 0) <$> s_values s))
    <$> levels s.

(** [pd.get_dummies(obj, prefix=prefix)]: a frame keeps its columns that
    are not of type [object] and has the others encoded. *)
Definition get_dummies (o : pdobj) (prefix : string) : frame :=
  match o with
  | PSeries s => DataFrame [] (get_dummies_series s prefix)
  | PFrame f =>
      DataFrame (df_index f)
        (filter (λ c, s_dtype c ≠ dt_object) (df_cols f)
         ++ mjoin ((λ c, get_dummies_series c prefix)
                     <$> filter (λ c, s_dtype c = dt_object) (df_cols f)))
  end.

(** *** Rows *)

(** [index[positions]]: positional access with Python's negative indices. *)
Definition index_take (idx : list Z) (positions : list Z) : result (list Z) :=
  rmapM (λ p : Z,
           let n := Z.of_nat (length idx) in
           let q := if decide (p < 0)%Z then (p + n)%Z else p in
           if decide (0 ≤ q < n)%Z then
             match idx !! Z.to_nat q with
             | Some l => Ok l
             | None => Raise IndexError
             end
           else Raise IndexError) positions.

(** Keep the entries of [l] whose row label is not in [labels]. *)
Definition keep_rows {A} (idx : list Z) (labels : list Z) (l : list A) : list A :=
  snd <$> filter (λ p, p.1 ∉ labels) (zip idx l).

(** [df.drop(labels)]: a new frame without the rows carrying the labels. *)
Definition drop_rows (f : frame) (labels : list Z) : frame :=
  DataFrame (filter (λ l, l ∉ labels) (df_index f))
    ((λ c, Series (s_name c) (s_dtype c) (keep_rows (df_index f) labels (s_values c)))
       <$> df_cols f).

(** [series.fillna(value)]: every missing cell takes the value.  A
    string cannot be held by a numeric column: when there is a cell to
    fill, the column becomes an [object] column. *)
Definition fillna (value : cell) (s : series) : series :=
  Series (s_name s)
    (match value with
     | Str _ => if decide (NA ∈ s_values s) then dt_object else s_dtype s
     | _ => s_dtype s
     end)
    ((λ c, if decide (c = NA) then value else c) <$> s_values s).

(** [df[label].fillna(value, inplace=True)].  Under a label that one
    column carries, [df[label]] is that column and the fill writes through
    to the frame.  Under a label that several columns carry, [df[label]]
    is a new frame: the fill is made on it and lost, the frame [df] is
    left as it is. *)
Definition fillna_label (f : frame) (label : string) (value : cell) : result frame :=
  match labelled f label with
  | [] => Raise KeyError
  | [_] =>
      Ok (DataFrame (df_index f)
            ((λ c, if decide (s_name c = label) then fillna value c else c)
               <$> df_cols f))
  | _ => Ok f
  end.

(** ** The object store and [self]

    [self.data] and [self.features] are references to frames held in a
    store: an in-place operation ([drop(..., inplace=True)],
    [df[label] = ...], [fillna(..., inplace=True)]) updates the frame a
    reference points to, [copy()] allocates a fresh one, and an assignment
    to an attribute rebinds the reference.  [self.target] is only ever
    assigned a copy and never mutated, so it is held by value, like the
    [meta] dictionary, which [metainfo] replaces as a whole. *)

Record Dataset := MkDataset {
  heap : nat → frame;
  fresh : nat;
  data : nat;
  features : nat;
  target : option pdobj;
  meta : gmap string metaval
}.

(** The frame [self.features] points to, and the one behind [self.data]. *)
Definition features_of (self : Dataset) : frame := heap self (features self).
Definition data_of (self : Dataset) : frame := heap self (data self).

Definition heap_update (h : nat → frame) (r : nat) (f : frame) : nat → frame :=
  λ r', if decide (r' = r) then f else h r'.

(** A method body: it reads and writes [self], and returns or raises.
    The state it leaves behind is observable in both cases. *)
Definition M (A : Type) : Type := Dataset → result A * Dataset.

Definition ret {A} (a : A) : M A := λ self, (Ok a, self).

Definition raise {A} (e : exn) : M A := λ self, (Raise e, self).

Definition bind {A B} (m : M A) (k : A → M B) : M B :=
  λ self,
    match m self with
    | (Ok a, self') => k a self'
    | (Raise e, self') => (Raise e, self')
    end.

Notation "'let!' x ':=' m 'in' k" := (bind m (λ x, k))
  (at level 10, x pattern, m at level 200, k at level 200).

Definition lift {A} (r : result A) : M A := λ self, (r, self).

Definition read {A} (field : Dataset → A) : M A := λ self, (Ok (field self), self).

Definition assert (b : bool) : M unit :=
  if b then ret tt else raise AssertionError.

(** [for x in l: body(x)]. *)
Fixpoint for_each {A} (l : list A) (body : A → M unit) : M unit :=
  match l with
  | [] => ret tt
  | x :: l' => let! _ := body x in for_each l' body
  end.

(** In-place update of the frame behind [self.features] / [self.data]. *)
Definition mutate_features (f : frame) : M unit :=
  λ self, (Ok tt, MkDataset (heap_update (heap self) (features self) f)
                     (fresh self) (data self) (features self) (target self) (meta self)).

Definition mutate_data (f : frame) : M unit :=
  λ self, (Ok tt, MkDataset (heap_update (heap self) (data self) f)
                     (fresh self) (data self) (features self) (target self) (meta self)).

(** [frame.copy()]: a new object with the same contents.  A frame built
    by a library call and then bound to an attribute is a new object in
    the same way. *)
Definition copy (f : frame) : M nat :=
  λ self, (Ok (fresh self),
           MkDataset (heap_update (heap self) (fresh self) f)
             (S (fresh self)) (data self) (features self) (target self) (meta self)).

(** Attribute assignments. *)
Definition assign_data (r : nat) : M unit :=
  λ self, (Ok tt, MkDataset (heap self) (fresh self) r (features self)
                     (target self) (meta self)).

Definition assign_features (r : nat) : M unit :=
  λ self, (Ok tt, MkDataset (heap self) (fresh self) (data self) r
                     (target self) (meta self)).

Definition assign_target (t : option pdobj) : M unit :=
  λ self, (Ok tt, MkDataset (heap self) (fresh self) (data self) (features self)
                     t (meta self)).

Definition assign_meta (m : gmap string metaval) : M unit :=
  λ self, (Ok tt, MkDataset (heap self) (fresh self) (data self) (features self)
                     (target self) m).

(** What a method hands back to its caller. *)
Inductive retval := RetSelf | RetNone | RetObj (o : pdobj).

(** ** Metadata *)

Definition meta_tags : list string :=
  ["all"; "numerical"; "categorical"; "complete";
   "numerical_na"; "categorical_na"; "features"; "target"].

(** [which in self.meta_tags]: a list (or anything that is not a string)
    is equal to none of the tags. *)
Definition in_meta_tags (which : pyval) : bool :=
  match which with
  | PyStr s => bool_decide (s ∈ meta_tags)
  | _ => false
  end.

(** The [descr] table: one row per column of the working table. *)
Definition describe (f : frame) : list descr_row :=
  (λ c, DescrRow (s_name c) (s_dtype c) (count_na c)) <$> df_cols f.

(** [self.target.name if self.target is not None else None]. *)
Definition target_name_of (t : option pdobj) : result (option string) :=
  match t with
  | None => Ok None
  | Some (PSeries s) => Ok (Some (s_name s))
  | Some (PFrame _) => Raise AttributeError
  end.

Definition metainfo : M unit :=
  let! ft := read features_of in
  let descr := describe ft in
  let categorical_features :=
    d_label <$> filter (λ r, d_dtype r = dt_object) descr in
  let numerical_features :=
    d_label <$> filter (λ r, d_dtype r ≠ dt_object) descr in
  let numerical_features_na :=
    d_label <$> filter (λ r, d_dtype r ≠ dt_object ∧ 0 < d_NAs r) descr in
  let categorical_features_na :=
    d_label <$> filter (λ r, d_dtype r = dt_object ∧ 0 < d_NAs r) descr in
  let complete_features :=
    d_label <$> filter (λ r, d_NAs r = 0) descr in
  let! dt := read data_of in
  let! tg := read target in
  let! target_name := lift (target_name_of tg) in
  assign_meta
    (<["complete" := MList complete_features]>
     (<["numerical_na" := MList numerical_features_na]>
      (<["numerical" := MList numerical_features]>
       (<["categorical_na" := MList categorical_features_na]>
        (<["categorical" := MList categorical_features]>
         (<["target" := MName target_name]>
          (<["features" := MList (columns ft)]>
           (<["all" := MList (columns dt)]>
            (<["description" := MDescr descr]> ∅))))))))).

(** [self.meta[which]]. *)
Definition meta_getitem (which : pyval) : M metaval :=
  match which with
  | PyStr k =>
      let! m := read meta in
      match m !! k with
      | Some v => ret v
      | None => raise KeyError
      end
  | PyList _ => raise TypeError
  | _ => raise KeyError
  end.

Definition select (which : pyval) : M pdobj :=
  match which with
  | PyList l =>
      let! ft := read features_of in
      lift (rmap PFrame (loc_list ft l))
  | _ =>
      let! _ := assert (in_meta_tags which) in
      let! key := meta_getitem which in
      let! ft := read features_of in
      lift (loc ft key)
  end.

Definition names (which : pyval) : M metaval :=
  let! _ := assert (in_meta_tags which) in
  meta_getitem which.

(** Iterating over, or testing membership in, a value taken from [meta].
    [metainfo] is the only writer of [meta] and stores lists under every
    tag but ['target']. *)
Definition as_names (v : metaval) : result (list string) :=
  match v with
  | MList l => Ok l
  | _ => Raise TypeError
  end.

(** ** Methods that do not depend on an external collaborator *)

Definition set_target (target_name : string) : M retval :=
  let! ft := read features_of in
  let! _ :=
    if decide (target_name ∈ columns ft) then
      let! t := lift (loc_label ft (Some target_name)) in
      let! _ := assign_target (Some t) in
      let! ft' := lift (drop_label ft target_name) in
      mutate_features ft'
    else
      let! dt := read data_of in
      let! t := lift (loc_label dt (Some target_name)) in
      assign_target (Some t) in
  let! _ := metainfo in
  ret RetSelf.

(** The loop of [onehot_encode]; [self.features] is only read. *)
Fixpoint onehot_loop (ft : frame) (categorical : list string) (new_df : frame)
    : result frame :=
  match categorical with
  | [] => Ok new_df
  | categorical_column :: rest =>
      let? col := loc_label ft (Some categorical_column) in
      onehot_loop ft rest
        (concat_columns new_df (get_dummies col categorical_column))
  end.

Definition onehot_encode : M retval :=
  let! numerical := names (PyStr "numerical") in
  let! ft := read features_of in
  let! new_df := lift (let? l := as_names numerical in loc_list ft l) in
  let! categorical := names (PyStr "categorical") in
  let! cats := lift (as_names categorical) in
  let! new_df := lift (onehot_loop ft cats new_df) in
  let! r := copy new_df in
  let! _ := assign_features r in
  let! _ := metainfo in
  ret RetSelf.

Definition add_column (serie : series) : M retval :=
  let! feats := names (PyStr "features") in
  let! l := lift (as_names feats) in
  let! _ :=
    if decide (s_name serie ∉ l) then
      let! ft := read features_of in
      let! ft' := lift (setitem_col ft (s_name serie) (s_dtype serie) (s_values serie)) in
      let! _ := mutate_features ft' in
      metainfo
    else ret tt in
  ret RetSelf.

(** [columns_list] made a list when it is not one.  A single value that
    is not a string is the label of no column: the loop over it does
    nothing. *)
Definition listify (columns_list : pyval) : list string :=
  match columns_list with
  | PyList l => l
  | PyStr s => [s]
  | _ => []
  end.

Definition drop_columns (columns_list : pyval) : M retval :=
  let columns_list := listify columns_list in
  let! _ :=
    for_each columns_list (λ column,
      let! feats := names (PyStr "features") in
      let! l := lift (as_names feats) in
      if decide (column ∈ l) then
        let! ft := read features_of in
        let! ft' := lift (drop_label ft column) in
        mutate_features ft'
      else ret tt) in
  let! _ := metainfo in
  ret RetSelf.

Definition drop_samples (index_list : list Z) : M retval :=
  let! dt := read data_of in
  let! labels := lift (index_take (df_index dt) index_list) in
  let dropped := drop_rows dt labels in
  let! _ := metainfo in
  ret RetSelf.

Definition replace_na (column : pyval) (value : cell) : M retval :=
  let fill (col : string) : M unit :=
    let! dt := read data_of in
    let! dt' := lift (fillna_label dt col value) in
    mutate_data dt' in
  let! _ :=
    match column with
    | PyList l => for_each l fill
    | PyStr col => fill col
    | _ => raise KeyError
    end in
  let! _ := metainfo in
  ret RetSelf.

(** The double a count converts to.  A count is the length of a column,
    far below [2^63]. *)
Definition float_of_Z (z : Z) : float := PrimFloat.of_uint63 (Uint63.of_Z z).

Definition float_of_nat (n : nat) : float := float_of_Z (Z.of_nat n).

(** [a / b > threshold] for the counts of [under_represented_features]:
    the division of two doubles, rounded to nearest, and the comparison
    of doubles, which is false on [NaN]. *)
Definition ratio_above (a b : nat) (threshold : float) : bool :=
  PrimFloat.ltb threshold (PrimFloat.div (float_of_nat a) (float_of_nat b)).

Fixpoint under_rep_loop (ft : frame) (threshold : float) (categorical : list string)
    (under_rep : list string) : result (list string) :=
  match categorical with
  | [] => Ok under_rep
  | column :: rest =>
      let? col := loc_label ft (Some column) in
      match col with
      | PFrame _ => Raise AttributeError
      | PSeries s =>
          let counts := value_counts s in
          let? majority_freq := iloc0 counts in
          if ratio_above majority_freq (frame_len ft) threshold
          then under_rep_loop ft threshold rest (under_rep ++ [column])
          else under_rep_loop ft threshold rest under_rep
      end
  end.

Definition under_represented_features (threshold : float) : M (list string) :=
  let! categorical := meta_getitem (PyStr "categorical") in
  let! cats := lift (as_names categorical) in
  let! ft := read features_of in
  lift (under_rep_loop ft threshold cats []).

(** ** Series of p-values *)

(** A p-value as reported by the fit; [None] is [NaN]. *)
Definition pval : Type := option Qc.

(** [series[label]] for a unique label. *)
Definition series_getitem (s : list (string * pval)) (label : string) : result pval :=
  match filter (λ e, e.1 = label) s with
  | [] => Raise KeyError
  | [e] => Ok e.2
  | _ => Raise ValueError
  end.

(** The first entry with the best value, where [better p q] says that [p]
    beats the best [q] found so far; [NaN] entries are skipped.  Entries
    are keyed by label or by position. *)
Fixpoint arg_best {L} (better : Qc → Qc → bool) (s : list (L * pval))
    (best : option (L * Qc)) : option (L * Qc) :=
  match s with
  | [] => best
  | (_, None) :: s' => arg_best better s' best
  | (l, Some p) :: s' =>
      match best with
      | None => arg_best better s' (Some (l, p))
      | Some (_, q) =>
          if better p q then arg_best better s' (Some (l, p))
          else arg_best better s' best
      end
  end.

Definition Qc_ltb (p q : Qc) : bool := bool_decide (p < q)%Qc.
Definition Qc_gtb (p q : Qc) : bool := bool_decide (q < p)%Qc.

(** [series.min()], [series.idxmin()] and [series.max()]. *)
Definition series_min (s : list (string * pval)) : pval := snd <$> arg_best Qc_ltb s None.
Definition series_max (s : list (string * pval)) : pval := snd <$> arg_best Qc_gtb s None.

Definition idxmin (s : list (string * pval)) : result string :=
  match arg_best Qc_ltb s None with
  | Some (l, _) => Ok l
  | None => Raise ValueError
  end.

(** [series.argmax()]: the position of the maximum, an integer, not its
    label; [-1] when every entry is [NaN], [ValueError] on an empty
    series. *)
Definition argmax (s : list (string * pval)) : result Z :=
  match s with
  | [] => Raise ValueError
  | _ =>
      match arg_best Qc_gtb (imap (λ i e, (Z.of_nat i, e.2)) s) None with
      | Some (i, _) => Ok i
      | None => Ok (-1)%Z
      end
  end.

(** [p < threshold] and [p > threshold]; false on [NaN]. *)
Definition pval_lt (p : pval) (threshold : Qc) : bool :=
  match p with
  | Some q => Qc_ltb q threshold
  | None => false
  end.

Definition pval_gt (p : pval) (threshold : Qc) : bool :=
  match p with
  | Some q => Qc_gtb q threshold
  | None => false
  end.

(** [l.remove(x)] on a list of labels: the first entry equal to [x]
    goes; [ValueError] if there is none.  [x] is any Python value: a
    number is equal to no label. *)
Fixpoint list_remove (x : pyval) (l : list string) : result (list string) :=
  match l with
  | [] => Raise ValueError
  | y :: l' =>
      if decide (PyStr y = x) then Ok l'
      else let? r := list_remove x l' in Ok (y :: r)
  end.

(** [len(v)] for a value taken from [meta]. *)
Definition py_len (v : metaval) : result nat :=
  match v with
  | MList l => Ok (length l)
  | MName (Some s) => Ok (String.length s)
  | MName None => Raise TypeError
  | MDescr rows => Ok (length rows)
  end.

(** ** Methods that call an external collaborator *)

Section Collaborators.

(** [pd.read_csv(data_location, ...)]. *)
Variable read_csv : string → result frame.

(** [DataFrameMapper([(subset.columns, StandardScaler())]).fit_transform]
    and the same with [PowerTransformer(method='yeo-johnson')]. *)
Variable standard_scaler : frame → result ndarray.
Variable power_transformer : frame → result ndarray.

(** [dir(type(self.features))], and [getattr(frame, operation)(axis=1)]
    giving the type and the values of the resulting Series. *)
Variable dataframe_dir : list string.
Variable frame_method : string → frame → result (dtype * list cell).

(** The order in which a Python [set] of labels is iterated. *)
Variable set_iteration : list string → list string.

(** [sm.OLS(target, sm.add_constant(pd.DataFrame(X))).fit().pvalues]:
    the labels of the coefficients, intercept first, with their p-values. *)
Variable ols_pvalues : option pdobj → frame → result (list (string * pval)).

(** [__init__]: [self] starts with no attribute assigned; [data_frame],
    when given, is a frame of the caller. *)
Definition new_self (h : nat → frame) (n : nat) : Dataset :=
  MkDataset h n n n None ∅.

Definition init (data_location : option string) (data_frame : option nat)
    : M unit :=
  let! r :=
    match data_location with
    | Some path =>
        let! f := lift (read_csv path) in
        copy f
    | None =>
        match data_frame with
        | Some r => ret r
        | None => raise RuntimeError
        end
    end in
  let! _ := assign_data r in
  let! dt := read data_of in
  let! r' := copy dt in
  let! _ := assign_features r' in
  metainfo.

Definition from_dataframe (df : nat) : M unit := init None (Some df).

(** The common body of [scale] and [ensure_normality], up to the
    recomputation of the metadata.  [subset.columns] exists only on a
    frame.  The assignment [self.features[key] = frame] is modelled for a
    list of labels, which is what [meta] holds under every tag but
    ['target']; a frame assigned under the single name of the target is
    refused. *)
Definition transform_features (transformer : frame → result ndarray)
    (features_of_type : pyval) : M unit :=
  let! _ := assert (in_meta_tags features_of_type) in
  let! subset := select features_of_type in
  match subset with
  | PSeries _ => raise AttributeError
  | PFrame sub =>
      let! arr := lift (transformer sub) in
      let! value := lift (frame_of_array arr (df_index sub) (columns sub)) in
      let! key := names features_of_type in
      match key with
      | MList l =>
          let! ft := read features_of in
          let! _ := mutate_features (setitem_cols ft l value) in
          metainfo
      | _ => raise ValueError
      end
  end.

(** [self.features[self.names(features_of_type)]]. *)
Definition features_named (features_of_type : pyval) : M pdobj :=
  let! ft := read features_of in
  let! key := names features_of_type in
  lift (loc ft key).

Definition scale (features_of_type : pyval) (return_series : bool) : M retval :=
  let! _ := transform_features standard_scaler features_of_type in
  if return_series then
    let! o := features_named features_of_type in ret (RetObj o)
  else ret RetSelf.

Definition ensure_normality (features_of_type : pyval) (return_series : bool)
    : M retval :=
  let! _ := transform_features power_transformer features_of_type in
  if return_series then
    let! o := features_named features_of_type in ret (RetObj o)
  else ret RetNone.

Definition keep_columns (to_keep : pyval) : M retval :=
  let to_keep := listify to_keep in
  let! ft := read features_of in
  let to_drop :=
    set_iteration (list_difference (remove_dups (columns ft)) to_keep) in
  let! _ := drop_columns (PyList to_drop) in
  ret RetSelf.

Definition aggregate (col_list : list string) (new_column : string)
    (operation : string) (drop_columns_flag : bool) : M retval :=
  let! _ := assert (bool_decide (operation ∈ dataframe_dir)) in
  let! _ :=
    for_each col_list (λ col_name,
      let! ft := read features_of in
      assert (bool_decide (col_name ∈ columns ft))) in
  let! ft := read features_of in
  let! sub := lift (loc_list ft col_list) in
  let! (dt, vals) := lift (frame_method operation sub) in
  let! ft' := lift (setitem_col ft new_column dt vals) in
  let! _ := mutate_features ft' in
  if drop_columns_flag then drop_columns (PyList col_list)
  else
    let! _ := metainfo in
    ret RetSelf.

(** *** Stepwise selection *)

(** The series [new_pval] of the forward step: for every feature not
    yet included, its p-value in the model fitted on the included
    features and itself. *)
Definition forward_pvalues (self : Dataset) (included : list string)
    : result (list (string * pval)) :=
  let ft := features_of self in
  let excluded :=
    set_iteration (list_difference (remove_dups (columns ft)) included) in
  rmapM (λ new_column,
           let? X := loc_list ft (included ++ [new_column]) in
           let? pvalues := ols_pvalues (target self) X in
           let? p := series_getitem pvalues new_column in
           Ok (new_column, p)) excluded.

(** The forward step of one iteration: the new [included] and whether
    it changed. *)
Definition forward_step (self : Dataset) (included : list string)
    (threshold_in : Qc) : result (list string * bool) :=
  let? new_pval := forward_pvalues self included in
  let best_pval := series_min new_pval in
  if pval_lt best_pval threshold_in then
    let? best_feature := idxmin new_pval in
    Ok (included ++ [best_feature], true)
  else Ok (included, false).

(** The p-values of the coefficients of the model fitted on [included],
    intercept left out. *)
Definition backward_pvalues (self : Dataset) (included : list string)
    : result (list (string * pval)) :=
  let? X := loc_list (features_of self) included in
  let? pvalues := ols_pvalues (target self) X in
  Ok (tail pvalues).

Definition backward_step (self : Dataset) (included : list string)
    (threshold_out : Qc) : result (list string * bool) :=
  let? pvalues := backward_pvalues self included in
  let worst_pval := series_max pvalues in
  if pval_gt worst_pval threshold_out then
    let? worst_feature := argmax pvalues in
    let? included' := list_remove (PyInt worst_feature) included in
    Ok (included', true)
  else Ok (included, false).

(** One turn of the [while True] loop. *)
Definition stepwise_iteration (self : Dataset) (included : list string)
    (threshold_in threshold_out : Qc) : result (list string * bool) :=
  let? (included, added) := forward_step self included threshold_in in
  let? (included, dropped) := backward_step self included threshold_out in
  Ok (included, added || dropped).

(** The loop, cut after [fuel] turns: [None] when it is still running. *)
Fixpoint stepwise_loop (fuel : nat) (self : Dataset) (included : list string)
    (threshold_in threshold_out : Qc) : option (result (list string)) :=
  match fuel with
  | 0 => None
  | S fuel' =>
      match stepwise_iteration self included threshold_in threshold_out with
      | Raise e => Some (Raise e)
      | Ok (included', changed) =>
          if changed
          then stepwise_loop fuel' self included' threshold_in threshold_out
          else Some (Ok included')
      end
  end.

(** [stepwise_selection]; it reads [self] and leaves it as it is. *)
Definition stepwise_selection (fuel : nat) (self : Dataset)
    (initial_list : option (list string)) (threshold_in threshold_out : Qc)
    : option (result (list string)) :=
  let initial_list := default [] initial_list in
  match names (PyStr "categorical") self with
  | (Raise e, _) => Some (Raise e)
  | (Ok categorical, _) =>
      match py_len categorical with
      | Raise e => Some (Raise e)
      | Ok n =>
          if decide (n = 0)
          then stepwise_loop fuel self initial_list threshold_in threshold_out
          else Some (Raise AssertionError)
      end
  end.

(** *** The mutating operations, as calls *)

Inductive call :=
  | call_set_target (target_name : string)
  | call_scale (features_of_type : pyval) (return_series : bool)
  | call_ensure_normality (features_of_type : pyval) (return_series : bool)
  | call_onehot_encode
  | call_add_column (serie : series)
  | call_drop_columns (columns_list : pyval)
  | call_keep_columns (to_keep : pyval)
  | call_aggregate (col_list : list string) (new_column operation : string)
      (drop_columns_flag : bool)
  | call_drop_samples (index_list : list Z)
  | call_replace_na (column : pyval) (value : cell).

Definition invoke (c : call) : M retval :=
  match c with
  | call_set_target target_name => set_target target_name
  | call_scale t r => scale t r
  | call_ensure_normality t r => ensure_normality t r
  | call_onehot_encode => onehot_encode
  | call_add_column serie => add_column serie
  | call_drop_columns columns_list => drop_columns columns_list
  | call_keep_columns to_keep => keep_columns to_keep
  | call_aggregate col_list new_column operation flag =>
      aggregate col_list new_column operation flag
  | call_drop_samples index_list => drop_samples index_list
  | call_replace_na column value => replace_na column value
  end.

(** The states of a [Dataset]: built by the constructor, which is handed
    either a location or a frame the caller already holds, then taken
    from one returning call to the next. *)
Inductive reachable : Dataset → Prop :=
  | reachable_init h n data_location data_frame self :
      (∀ r, data_frame = Some r → r < n) →
      init data_location data_frame (new_self h n) = (Ok tt, self) →
      reachable self
  | reachable_call self c v self' :
      reachable self →
      invoke c self = (Ok v, self') →
      reachable self'.

End Collaborators.

(** ** [table] *)

(** [table] prints, so its outcome is what it has printed, line by line,
    and how it ended.  Besides the exceptions of the other methods it can
    end on a division by zero. *)
Inductive table_exn :=
  | TableError (e : exn)
  | ZeroDivisionError.

(** [s * n] on strings. *)
Fixpoint times (s : string) (n : nat) : string :=
  match n with
  | 0 => ""
  | S n' => s +:+ times s n'
  end.

(** ['{:<w}'.format(s)]: [s] padded on the right up to the width [w]. *)
Definition ljust (w : nat) (s : string) : string :=
  s +:+ times " " (w - String.length s).

(** What iterating over a value of [meta] yields: the elements of a
    list, the characters of a name, the column labels of the [descr]
    table. *)
Definition py_items (v : metaval) : list string :=
  match v with
  | MList l => l
  | MName (Some s) => (λ a, String a EmptyString) <$> String.list_ascii_of_string s
  | MName None => []
  | MDescr _ => ["dtype"; "NAs"]
  end.

(** [*f_list[from_idx:to_idx]]: a slice of a list or of a name is
    unpacked into its elements, a slice of the rows of the [descr] table
    into its column labels. *)
Definition slice_args (v : metaval) (from_idx to_idx : nat) : list string :=
  match v with
  | MDescr _ => ["dtype"; "NAs"]
  | _ => take (to_idx - from_idx) (drop from_idx (py_items v))
  end.

(** [max(lengths)]. *)
Definition py_max (lengths : list nat) : result nat :=
  match lengths with
  | [] => Raise ValueError
  | _ => Ok (max_list lengths)
  end.

(** The line made of the arguments, each in a field of [col_width]. *)
Definition format_row (col_width : nat) (args : list string) : string :=
  foldr (λ a line, ljust col_width a +:+ line) "" args.

(** [format_str.format] on the unpacked [args], for a format of
    [fields] fields ['{:<col_width}']: arguments in excess are ignored, a
    missing one raises [IndexError]. *)
Definition format_fields (fields col_width : nat) (args : list string)
    : result string :=
  if decide (fields ≤ length args)%nat
  then Ok (format_row col_width (take fields args))
  else Raise IndexError.

(** [int(np.ceil(a / b))] for [b] other than zero. *)
Definition ceil_div (a b : Z) : Z := (- ((- a) `div` b))%Z.

(** The loop over [field_idx]: the lines printed and the exception that
    ended it, if any. *)
Fixpoint table_rows (f_list : metaval) (num_features max_fields col_width : nat)
    (turns : list nat) : list string * option table_exn :=
  match turns with
  | [] => ([], None)
  | field_idx :: rest =>
      let from_idx := field_idx * max_fields in
      let to_idx := field_idx * max_fields + max_fields in
      let to_idx := if decide (num_features < to_idx)%nat then num_features else to_idx in
      match format_fields (to_idx - from_idx) col_width
              (slice_args f_list from_idx to_idx) with
      | Raise e => ([], Some (TableError e))
      | Ok line =>
          let (lines, r) := table_rows f_list num_features max_fields col_width rest in
          (line :: lines, r)
      end
  end.

Definition table (which : pyval) (max_width : Z) (self : Dataset)
    : list string * option table_exn :=
  match (let! _ := assert (in_meta_tags which) in names which) self with
  | (Raise e, _) => ([], Some (TableError e))
  | (Ok f_list, _) =>
      match py_len f_list with
      | Raise e => ([], Some (TableError e))
      | Ok num_features =>
          if decide (num_features = 0) then ([], None)
          else
            match py_max (String.length <$> py_items f_list) with
            | Raise e => ([], Some (TableError e))
            | Ok max_length =>
                let max_fields := (max_width `div` (Z.of_nat max_length + 1))%Z in
                let col_width := max_length + 1 in
                let rule :=
                  times "-" (Z.to_nat (max_fields * Z.of_nat max_length
                                       + (max_fields - 1))) in
                if decide (max_fields = 0%Z) then ([rule], Some ZeroDivisionError)
                else
                  let turns :=
                    seq 0 (Z.to_nat (ceil_div (Z.of_nat num_features) max_fields)) in
                  match table_rows f_list num_features (Z.to_nat max_fields)
                          col_width turns with
                  | (rows, Some e) => (rule :: rows, Some e)
                  | (rows, None) => (rule :: rows ++ [rule], None)
                  end
            end
      end
  end.

(** * The vocabulary of the properties *)

(** ** States *)

(** A body that leaves [self] as it found it, whatever it returns. *)
Definition read_only {A} (m : M A) : Prop :=
  ∀ s r s', m s = (r, s') → s' = s.

(** [meta] is current when recomputing it changes nothing. *)
Definition meta_current (self : Dataset) : Prop :=
  metainfo self = (Ok tt, self).

(** A body that rebinds neither [self.data] nor [self.features] and
    allocates nothing. *)
Definition keeps_refs {A} (m : M A) : Prop :=
  ∀ s r s', m s = (r, s') →
    data s' = data s ∧ features s' = features s ∧ fresh s' = fresh s.

(** [self.data] and [self.features] point to two distinct allocated
    objects. *)
Definition separate (s : Dataset) : Prop :=
  data s < fresh s ∧ features s < fresh s ∧ data s ≠ features s.

Section Lives.

Variable read_csv : string → result frame.
Variables standard_scaler power_transformer : frame → result ndarray.
Variable dataframe_dir : list string.
Variable frame_method : string → frame → result (dtype * list cell).
Variable set_iteration : list string → list string.

(** The states a [Dataset] object goes through: built by the
    constructor, then taken from one call to the next, whether the call
    returns or raises.  An exception leaves the object as the method had
    made it by then. *)
Inductive lived : Dataset → Prop :=
  | lived_init h n data_location data_frame self :
      (∀ r, data_frame = Some r → r < n) →
      init read_csv data_location data_frame (new_self h n) = (Ok tt, self) →
      lived self
  | lived_call self c r self' :
      lived self →
      invoke standard_scaler power_transformer dataframe_dir frame_method
        set_iteration c self = (r, self') →
      lived self'.

End Lives.

(** A body that writes to the object behind [self.data] and to nothing
    else. *)
Definition writes_data_only {A} (m : M A) : Prop :=
  ∀ s r s', m s = (r, s') →
    data s' = data s ∧ features s' = features s ∧ target s' = target s
    ∧ meta s' = meta s
    ∧ ∀ ref, ref ≠ data s → heap s' ref = heap s ref.

(** The Series [c'] is [c] after its missing cells have been given
    [value]: same name, same length, every cell that was missing now
    holds [value] and every other cell is as it was; the column is an
    [object] column if a string went into it, and of the type of [c]
    otherwise. *)
Definition filled_with (value : cell) (c c' : series) : Prop :=
  s_name c' = s_name c
  ∧ length (s_values c') = length (s_values c)
  ∧ (∀ i x, s_values c !! i = Some x →
            s_values c' !! i = Some (if decide (x = NA) then value else x))
  ∧ (∀ s, value = Str s → NA ∈ s_values c → s_dtype c' = dt_object)
  ∧ ((∀ s, value ≠ Str s) ∨ NA ∉ s_values c → s_dtype c' = s_dtype c).

(** The part of [replace_na] that comes before [metainfo]. *)
Definition replace_na_fill (column : pyval) (value : cell) : M unit :=
  let fill (col : string) : M unit :=
    let! dt := read data_of in
    let! dt' := lift (fillna_label dt col value) in
    mutate_data dt' in
  match column with
  | PyList l => for_each l fill
  | PyStr col => fill col
  | _ => raise KeyError
  end.

(** ** Views and selectors *)

(** The Python value that [meta['target']] holds. *)
Definition name_value (n : option string) : pyval :=
  match n with
  | Some s => PyStr s
  | None => PyNone
  end.

(** What the specification asks of [meta]: the two lists of labels have
    nothing in common, together they are the labels of the working table,
    and a column is listed as categorical exactly when its type is
    [object], as numerical otherwise. *)
Definition labels_partition (self : Dataset) : Prop :=
  ∃ numerical categorical : list string,
    meta self !! "numerical" = Some (MList numerical)
    ∧ meta self !! "categorical" = Some (MList categorical)
    ∧ (∀ l, ¬ (l ∈ numerical ∧ l ∈ categorical))
    ∧ (∀ l, l ∈ columns (features_of self) ↔ l ∈ numerical ∨ l ∈ categorical)
    ∧ (∀ c, c ∈ df_cols (features_of self) →
            (s_name c ∈ categorical ↔ s_dtype c = dt_object)
            ∧ (s_name c ∈ numerical ↔ s_dtype c ≠ dt_object)).

(** No label is carried both by a column of type [object] and by a column
    of another type. *)
Definition unambiguous (f : frame) : Prop :=
  ∀ a b, a ∈ df_cols f → b ∈ df_cols f → s_name a = s_name b →
         (s_dtype a = dt_object ↔ s_dtype b = dt_object).

(** The selector is one of the eight tags. *)
Definition recognized (which : pyval) : Prop :=
  ∃ tag, which = PyStr tag
         ∧ tag ∈ ["all"; "numerical"; "categorical"; "complete";
                  "numerical_na"; "categorical_na"; "features"; "target"].

Definition is_list (which : pyval) : Prop := ∃ l, which = PyList l.

(** The labels of what a selection returns. *)
Definition labels_of (o : pdobj) : list string :=
  match o with
  | PSeries s => [s_name s]
  | PFrame f => columns f
  end.

(** ** Categories *)

(** The number of rows taken by the most frequent category of a column. *)
Definition majority_count (s : series) : nat :=
  max_list ((λ v, occurrences v s) <$> categories s).




Definition head_count (l : list (cell * nat)) : nat :=
  match l with
  | [] => 0
  | p :: _ => p.2
  end.

(** The default threshold: the double that the literal [0.98] denotes. *)
Definition threshold_098 : float := 0x1.f5c28f5c28f5cp-1%float.


(** A column added by the loop of [onehot_encode]: it comes from a column
    [src] of the working table whose label is in the list looped over,
    and is either [src] itself, when [src] is not of type [object] and
    shares its label with another column, or an indicator of [src]. *)
Definition added_for (f : frame) (categorical : list string) (c : series) : Prop :=
  ∃ src, src ∈ df_cols f ∧ s_name src ∈ categorical
         ∧ ((s_dtype src ≠ dt_object ∧ c = src)
            ∨ c ∈ get_dummies_series src (s_name src)).

(** An indicator column produced from a categorical column of [f]. *)
Definition dummy_of (f : frame) (c : series) : Prop :=
  ∃ src, src ∈ df_cols f ∧ s_dtype src = dt_object
         ∧ c ∈ get_dummies_series src (s_name src).

(** ** Selection *)

(** A fit that reports the p-value of the intercept first and then one
    p-value per column of the design matrix, under the label of the
    column: what [OLS(...).fit().pvalues] holds once [add_constant] has
    put the intercept before the columns. *)
Definition labelled_fit
    (ols_pvalues : option pdobj → frame → result (list (string * pval))) : Prop :=
  ∀ t X pvalues,
    ols_pvalues t X = Ok pvalues →
    ∃ const, fst <$> pvalues = const :: columns X.

(** ** What a call has done *)

(** What a body may change when it only writes to the working table. *)
Definition features_written (s s' : Dataset) : Prop :=
  features s' = features s ∧ data s' = data s ∧ fresh s' = fresh s
  ∧ target s' = target s ∧ meta s' = meta s
  ∧ ∀ ref, ref ≠ features s → heap s' ref = heap s ref.

(** The loop of [drop_columns]. *)
Definition drop_columns_loop (columns_list : list string) : M unit :=
  for_each columns_list (λ column,
    let! feats := names (PyStr "features") in
    let! l := lift (as_names feats) in
    if decide (column ∈ l) then
      let! ft := read features_of in
      let! ft' := lift (drop_label ft column) in
      mutate_features ft'
    else ret tt).

(** The loop of assertions of [aggregate]. *)
Definition aggregate_checks (col_list : list string) : M unit :=
  for_each col_list (λ col_name,
    let! ft := read features_of in
    assert (bool_decide (col_name ∈ columns ft))).

(** The columns of a table that satisfy [P], in the order of the table. *)
Definition columns_where (P : series → Prop) `{∀ c, Decision (P c)}
    (f : frame) : frame :=
  DataFrame (df_index f) (filter P (df_cols f)).

(** A table with the missing values of the columns named in [l] filled. *)
Definition fill_all (l : list string) (value : cell) (f : frame) : frame :=
  DataFrame (df_index f)
    ((λ c, if decide (s_name c ∈ l) then fillna value c else c) <$> df_cols f).

(** What a call that returns has done to the working table. *)
Definition view_rewritten (l : list string) (s s' : Dataset) : Prop :=
  columns (features_of s') = columns (features_of s)
  ∧ df_index (features_of s') = df_index (features_of s)
  ∧ (∀ i c, df_cols (features_of s) !! i = Some c → s_name c ∉ l →
            df_cols (features_of s') !! i = Some c)
  ∧ data s' = data s ∧ features s' = features s ∧ target s' = target s
  ∧ (∀ ref, ref ≠ features s → heap s' ref = heap s ref)
  ∧ meta_current s'.

(** The names printed in the turn [field_idx] of the loop of [table]. *)
Definition chunk (l : list string) (max_fields field_idx : nat) : list string :=
  take (min (length l) (field_idx * max_fields + max_fields) - field_idx * max_fields)
    (drop (field_idx * max_fields) l).

(** Both tables have the row labels they had. *)
Definition rows_kept (s s' : Dataset) : Prop :=
  df_index (features_of s') = df_index (features_of s)
  ∧ df_index (data_of s') = df_index (data_of s).

(** ** Sample tables and collaborators

    Concrete inputs on which the definitions are run. *)

Module Sample.

(** Collaborators that do as little as possible. *)
Definition no_csv : string → result frame := λ _, Raise LibraryError.

Definition same_values : frame → result ndarray :=
  λ f, Ok (NdArray dt_float64 (s_values <$> df_cols f)).

Definition reductions : list string := ["sum"; "max"; "min"; "mean"].

Definition zero_rows : string → frame → result (dtype * list cell) :=
  λ _ f, Ok (dt_float64, replicate (frame_len f) (Num 0)).

Definition in_order : list string → list string := λ l, l.

(** The table of the specification's first scenario: a numeric column
    without missing values, a categorical column with two of them, and
    the target. *)
Definition scenario_table : frame :=
  DataFrame [0; 1; 2; 3]%Z
    [ Series "A" dt_int64 [Num 1; Num 2; Num 3; Num 4];
      Series "B" dt_object [Str "x"; NA; Str "y"; NA];
      Series "target" dt_float64 [Num 1; Num 0; Num 1; Num 1] ].

(** A [Dataset] built from a frame the caller holds at reference 0. *)
Definition dataset_of (f : frame) : Dataset :=
  (from_dataframe no_csv 0 (new_self (λ _, f) 1)).2.

Definition scenario : Dataset := dataset_of scenario_table.

Definition scenario_with_target : Dataset := (set_target "target" scenario).2.

(** A table in which the label [x] is carried by a column of strings
    and by a column of integers. *)
Definition ambiguous_table : frame :=
  DataFrame [0]%Z
    [ Series "x" dt_object [Str "a"];
      Series "x" dt_int64 [Num 1] ].

Definition ambiguous : Dataset := dataset_of ambiguous_table.

Lemma dataset_of_reachable f :
  reachable no_csv same_values same_values reductions zero_rows in_order
    (dataset_of f).
Proof.
  apply (reachable_init _ _ _ _ _ _ (λ _, f) 1 None (Some 0)).
  - intros r [= <-]. lia.
  - reflexivity.
Qed.

(** The scenario of the specification: after [set_target('target')]. *)
Example scenario_meta :
  meta scenario_with_target !! "numerical" = Some (MList ["A"])
  ∧ meta scenario_with_target !! "categorical" = Some (MList ["B"])
  ∧ meta scenario_with_target !! "categorical_na" = Some (MList ["B"])
  ∧ meta scenario_with_target !! "complete" = Some (MList ["A"]).
Proof. by vm_compute. Qed.

(** Two numeric features and a column to predict. *)
Definition numeric_table : frame :=
  DataFrame [0; 1; 2]%Z
    [ Series "a" dt_float64 [Num 1; Num 2; Num 3];
      Series "b" dt_float64 [Num 3; Num 1; Num 2];
      Series "y" dt_float64 [Num 1; Num 2; Num 4] ].

(** The target is not set. *)
Definition numeric : Dataset := dataset_of numeric_table.

Definition numeric_with_target : Dataset := (set_target "y" numeric).2.

Definition frac (n d : Z) : Qc := (Qc_of_Z n / Qc_of_Z d)%Qc.

(** A table of p-values.  Fitted together, [a] and [b] are both far
    from significant, [a] the farther; without [a] before it, [b] is
    strongly significant; [a] never is. *)
Definition fit_table (X : frame) : list (string * pval) :=
  ("const", Some (frac 1 2))
  :: (if decide (columns X = ["a"; "b"]) then
        [("a", Some (frac 9 10)); ("b", Some (frac 8 10))]
      else if decide (columns X = ["b"]) then
        [("b", Some (frac 1 1000))]
      else if decide (columns X = ["b"; "a"]) then
        [("b", Some (frac 1 1000)); ("a", Some (frac 9 10))]
      else (λ c, (c, Some (frac 1 2))) <$> columns X).

(** A fit that refuses a missing target, and one that does not look. *)
Definition strict_fit : option pdobj → frame → result (list (string * pval)) :=
  λ t X,
    match t with
    | None => Raise LibraryError
    | Some _ => Ok (fit_table X)
    end.

Definition lenient_fit : option pdobj → frame → result (list (string * pval)) :=
  λ _ X, Ok (fit_table X).

Definition in_reverse : list string → list string := reverse.

(** The thresholds of the specification's scenario: 0.01 and 0.05. *)
Definition threshold_in : Qc := frac 1 100.
Definition threshold_out : Qc := frac 5 100.

(** The scenario of the specification: of a significant predictor and
    a noisy one, only the first is selected. *)
Example selects_significant_feature :
  stepwise_selection in_order strict_fit 5 numeric_with_target None
    threshold_in threshold_out
  = Some (Ok ["b"]).
Proof. by vm_compute. Qed.






(** A categorical column without any value beside a numeric one. *)
Definition hollow_table : frame :=
  DataFrame [0; 1]%Z
    [ Series "k" dt_object [NA; NA];
      Series "n" dt_int64 [Num 1; Num 2] ].

Definition hollow : Dataset := dataset_of hollow_table.


(** Two columns under one label, each with a missing value. *)
Definition twin_table : frame :=
  DataFrame [0; 1]%Z
    [ Series "x" dt_float64 [NA; Num 1];
      Series "x" dt_float64 [Num 2; NA] ].

Definition twin : Dataset := dataset_of twin_table.

(** The scenario after [drop_columns(['B', 'B'])] has raised: [B] is gone
    from the working table and [meta] still lists it. *)
Definition stale : Dataset := (drop_columns (PyList ["B"; "B"]) scenario).2.

End Sample.

(** * Properties *)

(** ** Reasoning about method bodies *)

Lemma bind_Ok {A B} (m : M A) (k : A → M B) s v s' :
  bind m k s = (Ok v, s') →
  ∃ a s1, m s = (Ok a, s1) ∧ k a s1 = (Ok v, s').
Proof.
  unfold bind. destruct (m s) as [[a|e] s1]; [eauto | discriminate].
Qed.

Lemma bind_Raise {A B} (m : M A) (k : A → M B) s e s' :
  bind m k s = (Raise e, s') →
  m s = (Raise e, s') ∨ ∃ a s1, m s = (Ok a, s1) ∧ k a s1 = (Raise e, s').
Proof.
  unfold bind. destruct (m s) as [[a|e0] s1]; [eauto | left; congruence].
Qed.

Lemma run_returns {A} (m : M A) s v :
  (m s).1 = Ok v → m s = (Ok v, (m s).2).
Proof. destruct (m s) as [r s']. simpl. by intros ->. Qed.

Lemma read_inv {A} (field : Dataset → A) s r s' :
  read field s = (r, s') → r = Ok (field s) ∧ s' = s.
Proof. unfold read. intros [= <- <-]. done. Qed.

Lemma lift_inv {A} (x : result A) s r s' :
  lift x s = (r, s') → r = x ∧ s' = s.
Proof. unfold lift. intros [= <- <-]. done. Qed.

Lemma ret_inv {A} (a : A) s r s' :
  ret a s = (r, s') → r = Ok a ∧ s' = s.
Proof. unfold ret. intros [= <- <-]. done. Qed.

Lemma raise_inv {A} e s (r : result A) s' :
  raise e s = (r, s') → r = Raise e ∧ s' = s.
Proof. unfold raise. intros [= <- <-]. done. Qed.

Lemma assert_inv b s r s' :
  assert b s = (r, s') →
  s' = s ∧ (b = true ∧ r = Ok tt ∨ b = false ∧ r = Raise AssertionError).
Proof. destruct b; intros [= <- <-]; auto. Qed.

Lemma read_only_bind {A B} (m : M A) (k : A → M B) :
  read_only m → (∀ a, read_only (k a)) → read_only (bind m k).
Proof.
  intros Hm Hk s r s' H. unfold bind in H.
  destruct (m s) as [[a|e] s1] eqn:E.
  - apply Hm in E as ->. by eapply Hk.
  - apply Hm in E as ->. by inversion H.
Qed.

Lemma read_only_read {A} (field : Dataset → A) : read_only (read field).
Proof. intros s r s' H. by apply read_inv in H as [_ ->]. Qed.

Lemma read_only_lift {A} (x : result A) : read_only (lift x).
Proof. intros s r s' H. by apply lift_inv in H as [_ ->]. Qed.

Lemma read_only_ret {A} (a : A) : read_only (ret a).
Proof. intros s r s' H. by apply ret_inv in H as [_ ->]. Qed.

Lemma read_only_raise {A} e : read_only (@raise A e).
Proof. intros s r s' H. by apply raise_inv in H as [_ ->]. Qed.

Lemma read_only_assert b : read_only (assert b).
Proof. intros s r s' H. by apply assert_inv in H as [-> _]. Qed.

Create HintDb read_only.
#[export] Hint Resolve read_only_read read_only_lift read_only_ret
  read_only_raise read_only_assert : read_only.

Ltac solve_read_only :=
  repeat first
    [ apply read_only_bind; [| intros ?]
    | progress auto with read_only
    | match goal with
      | |- read_only (match ?x with _ => _ end) => destruct x
      end ].

Lemma read_only_meta_getitem which : read_only (meta_getitem which).
Proof. unfold meta_getitem. solve_read_only. Qed.

#[export] Hint Resolve read_only_meta_getitem : read_only.

Lemma read_only_select which : read_only (select which).
Proof. unfold select. solve_read_only. Qed.

Lemma read_only_names which : read_only (names which).
Proof. unfold names. solve_read_only. Qed.

#[export] Hint Resolve read_only_select read_only_names : read_only.

Lemma read_only_features_named which : read_only (features_named which).
Proof. unfold features_named. solve_read_only. Qed.

#[export] Hint Resolve read_only_features_named : read_only.

Lemma read_only_under_represented_features threshold :
  read_only (under_represented_features threshold).
Proof. unfold under_represented_features. solve_read_only. Qed.

(** Taking a successful run of a body apart, bind by bind. *)
Ltac inv_step H :=
  first
    [ apply read_inv in H as [H ->]
    | apply lift_inv in H as [H ->]
    | apply ret_inv in H as [H ->]
    | apply raise_inv in H as [H ->] ].

Ltac inv_bind H :=
  let a := fresh "a" in
  let s := fresh "s" in
  let H1 := fresh "H" in
  apply bind_Ok in H as (a & s & H1 & H).

(** ** The metadata are current *)

Lemma metainfo_inv s r s' :
  metainfo s = (r, s') →
  heap s' = heap s ∧ fresh s' = fresh s ∧ data s' = data s
  ∧ features s' = features s ∧ target s' = target s
  ∧ (r = Ok tt ∨ s' = s).
Proof.
  unfold metainfo, bind, read, lift, assign_meta. simpl.
  destruct (target_name_of (target s)); intros [= <- <-]; simpl; auto 10.
Qed.

Lemma metainfo_current s s' :
  metainfo s = (Ok tt, s') → meta_current s'.
Proof.
  intros H. unfold meta_current.
  revert H. unfold metainfo, bind, read, lift, assign_meta. simpl.
  destruct (target_name_of (target s)) eqn:E; [| discriminate].
  intros [= <-]. unfold features_of, data_of. simpl. by rewrite E.
Qed.

Lemma filter_describe (P : descr_row → Prop) (Q : series → Prop)
    `{∀ r, Decision (P r)} `{∀ c, Decision (Q c)} f :
  (∀ c, P (DescrRow (s_name c) (s_dtype c) (count_na c)) ↔ Q c) →
  d_label <$> filter P (describe f) = s_name <$> filter Q (df_cols f).
Proof.
  intros HPQ. unfold describe. generalize (df_cols f). intros l.
  induction l as [|c l IH]; [done |].
  rewrite fmap_cons, !filter_cons.
  destruct (decide (P _)) as [HP|HP], (decide (Q c)) as [HQ|HQ];
    rewrite ?fmap_cons, IH; try done; by apply HPQ in HP || apply HPQ in HQ.
Qed.

(** The lists a current [meta] holds, read off the working table. *)
Lemma meta_current_lookup s :
  meta_current s →
  meta s !! "categorical"
    = Some (MList (s_name <$> filter (λ c, s_dtype c = dt_object) (df_cols (features_of s))))
  ∧ meta s !! "numerical"
    = Some (MList (s_name <$> filter (λ c, s_dtype c ≠ dt_object) (df_cols (features_of s))))
  ∧ meta s !! "categorical_na"
    = Some (MList (s_name <$> filter (λ c, s_dtype c = dt_object ∧ 0 < count_na c)
                                 (df_cols (features_of s))))
  ∧ meta s !! "numerical_na"
    = Some (MList (s_name <$> filter (λ c, s_dtype c ≠ dt_object ∧ 0 < count_na c)
                                 (df_cols (features_of s))))
  ∧ meta s !! "complete"
    = Some (MList (s_name <$> filter (λ c, count_na c = 0) (df_cols (features_of s))))
  ∧ meta s !! "features" = Some (MList (columns (features_of s)))
  ∧ meta s !! "all" = Some (MList (columns (data_of s)))
  ∧ ∃ n, target_name_of (target s) = Ok n ∧ meta s !! "target" = Some (MName n).
Proof.
  unfold meta_current, metainfo, bind, read, lift, assign_meta. simpl.
  destruct (target_name_of (target s)) as [n|] eqn:E; [| discriminate].
  intros [= H]. apply (f_equal meta) in H. simpl in H. rewrite <- H.
  repeat split;
    try (repeat (rewrite lookup_insert_ne by done); rewrite lookup_insert_eq;
         try done; do 2 f_equal; by apply filter_describe).
  exists n. split; [done |].
  repeat (rewrite lookup_insert_ne by done). by rewrite lookup_insert_eq.
Qed.

Ltac inv_binds :=
  repeat match goal with
         | H : bind _ _ _ = (Ok _, _) |- _ => inv_bind H
         end.

Ltac finish_metainfo :=
  match goal with
  | Hm : metainfo _ = (Ok ?u, ?s2), Hr : ret _ ?s2 = (_, ?s') |- meta_current ?s' =>
      apply ret_inv in Hr as [_ ->]; destruct u; exact (metainfo_current _ _ Hm)
  | Hm : metainfo _ = (Ok ?u, ?s') |- meta_current ?s' =>
      destruct u; exact (metainfo_current _ _ Hm)
  end.

(** Every mutating operation that returns leaves [meta] current: it ends
    by calling [metainfo], or has not touched anything. *)

Lemma set_target_current target_name s v s' :
  set_target target_name s = (Ok v, s') → meta_current s'.
Proof. unfold set_target. intros H. inv_binds. finish_metainfo. Qed.

Lemma onehot_encode_current s v s' :
  onehot_encode s = (Ok v, s') → meta_current s'.
Proof. unfold onehot_encode. intros H. inv_binds. finish_metainfo. Qed.

Lemma add_column_current serie s v s' :
  meta_current s → add_column serie s = (Ok v, s') → meta_current s'.
Proof.
  unfold add_column. intros Hs H. inv_binds.
  apply ret_inv in H as [_ ->].
  apply read_only_names in H0 as ->. apply lift_inv in H1 as [_ ->].
  destruct (decide (s_name serie ∉ a0)).
  - inv_binds. finish_metainfo.
  - by apply ret_inv in H2 as [_ ->].
Qed.

Lemma drop_columns_current columns_list s v s' :
  drop_columns columns_list s = (Ok v, s') → meta_current s'.
Proof. unfold drop_columns. intros H. inv_binds. finish_metainfo. Qed.

Lemma drop_samples_current index_list s v s' :
  drop_samples index_list s = (Ok v, s') → meta_current s'.
Proof. unfold drop_samples. intros H. inv_binds. finish_metainfo. Qed.

Lemma replace_na_current column value s v s' :
  replace_na column value s = (Ok v, s') → meta_current s'.
Proof. unfold replace_na. intros H. inv_binds. finish_metainfo. Qed.

Section CollaboratorFacts.

Variable read_csv : string → result frame.
Variable standard_scaler power_transformer : frame → result ndarray.
Variable dataframe_dir : list string.
Variable frame_method : string → frame → result (dtype * list cell).
Variable set_iteration : list string → list string.

Lemma init_current data_location data_frame s s' :
  init read_csv data_location data_frame s = (Ok tt, s') → meta_current s'.
Proof. unfold init. intros H. inv_binds. finish_metainfo. Qed.

Lemma transform_features_current transformer features_of_type s v s' :
  transform_features transformer features_of_type s = (Ok v, s') →
  meta_current s'.
Proof.
  unfold transform_features. intros H. inv_binds.
  destruct a0; [by apply raise_inv in H as [? _] |].
  inv_binds. destruct a2; try (by apply raise_inv in H as [? _]).
  inv_binds. finish_metainfo.
Qed.

Lemma scale_current features_of_type return_series s v s' :
  scale standard_scaler features_of_type return_series s = (Ok v, s') →
  meta_current s'.
Proof.
  unfold scale. intros H. inv_binds.
  apply transform_features_current in H0.
  destruct return_series.
  - inv_binds. apply ret_inv in H as [_ ->].
    by apply read_only_features_named in H1 as ->.
  - by apply ret_inv in H as [_ ->].
Qed.

Lemma ensure_normality_current features_of_type return_series s v s' :
  ensure_normality power_transformer features_of_type return_series s = (Ok v, s') →
  meta_current s'.
Proof.
  unfold ensure_normality. intros H. inv_binds.
  apply transform_features_current in H0.
  destruct return_series.
  - inv_binds. apply ret_inv in H as [_ ->].
    by apply read_only_features_named in H1 as ->.
  - by apply ret_inv in H as [_ ->].
Qed.

Lemma keep_columns_current to_keep s v s' :
  keep_columns set_iteration to_keep s = (Ok v, s') → meta_current s'.
Proof.
  unfold keep_columns. intros H. inv_binds.
  apply ret_inv in H as [_ ->]. by eapply drop_columns_current.
Qed.

Lemma aggregate_current col_list new_column operation flag s v s' :
  aggregate dataframe_dir frame_method col_list new_column operation flag s
    = (Ok v, s') →
  meta_current s'.
Proof.
  unfold aggregate. intros H. inv_binds. destruct a3 as [dt vals]. inv_binds.
  destruct flag.
  - by eapply drop_columns_current.
  - inv_binds. finish_metainfo.
Qed.

(** [add_column] under a name that [meta['features']] lists returns
    without having touched anything; under a new name it ends by calling
    [metainfo]. *)
Lemma add_column_outcome serie s v s' :
  add_column serie s = (Ok v, s') →
  meta_current s'
  ∨ ∃ l, meta s !! "features" = Some (MList l) ∧ s_name serie ∈ l ∧ s' = s.
Proof.
  unfold add_column. intros H.
  apply bind_Ok in H as (feats & s1 & Hn & H).
  pose proof (read_only_names _ _ _ _ Hn) as ->.
  apply bind_Ok in H as (l & s2 & Hl & H).
  apply lift_inv in Hl as [Hl ->].
  apply bind_Ok in H as (u & s3 & Hbody & H).
  apply ret_inv in H as [_ ->].
  destruct (decide (s_name serie ∉ l)) as [Hnew|Hold].
  - left. inv_binds. finish_metainfo.
  - right. apply ret_inv in Hbody as [_ ->]. exists l.
    split; [| split; [by apply dec_stable | done]].
    destruct feats as [l'| |]; try done. injection Hl as ->.
    revert Hn. unfold names, meta_getitem, bind, assert, read, ret, raise. simpl.
    destruct (meta s !! "features"); [| done]. by intros [= ->].
Qed.

Lemma invoke_outcome c s v s' :
  invoke standard_scaler power_transformer dataframe_dir frame_method
    set_iteration c s = (Ok v, s') →
  meta_current s'
  ∨ ∃ serie l, c = call_add_column serie
               ∧ meta s !! "features" = Some (MList l)
               ∧ s_name serie ∈ l ∧ s' = s.
Proof.
  destruct c; simpl; intros H.
  - left. by eapply set_target_current.
  - left. by eapply scale_current.
  - left. by eapply ensure_normality_current.
  - left. by eapply onehot_encode_current.
  - apply add_column_outcome in H as [?|(l & ? & ? & ?)]; [by left |].
    right. by exists serie, l.
  - left. by eapply drop_columns_current.
  - left. by eapply keep_columns_current.
  - left. by eapply aggregate_current.
  - left. by eapply drop_samples_current.
  - left. by eapply replace_na_current.
Qed.

Lemma invoke_current c s v s' :
  meta_current s →
  invoke standard_scaler power_transformer dataframe_dir frame_method
    set_iteration c s = (Ok v, s') →
  meta_current s'.
Proof.
  intros Hs. destruct c; simpl; intros H.
  - by eapply set_target_current.
  - by eapply scale_current.
  - by eapply ensure_normality_current.
  - by eapply onehot_encode_current.
  - by eapply add_column_current.
  - by eapply drop_columns_current.
  - by eapply keep_columns_current.
  - by eapply aggregate_current.
  - by eapply drop_samples_current.
  - by eapply replace_na_current.
Qed.

Lemma reachable_current s :
  reachable read_csv standard_scaler power_transformer dataframe_dir
    frame_method set_iteration s →
  meta_current s.
Proof.
  induction 1 as [h n data_location data_frame self _ H | self c v self' _ IH H].
  - by eapply init_current.
  - by eapply invoke_current.
Qed.

End CollaboratorFacts.

(** ** The numerical and categorical views split the columns *)

Lemma NoDup_fmap_inj {A B} (f : A → B) (l : list A) a b :
  NoDup (f <$> l) → a ∈ l → b ∈ l → f a = f b → a = b.
Proof.
  induction l as [|x l IH]; [by intros _ ?%elem_of_nil |].
  rewrite fmap_cons, NoDup_cons. intros [Hx Hl] Ha Hb Hab.
  apply elem_of_cons in Ha as [->|Ha], Hb as [->|Hb]; try done.
  - exfalso. apply Hx. rewrite Hab. by apply list_elem_of_fmap_2.
  - exfalso. apply Hx. rewrite <- Hab. by apply list_elem_of_fmap_2.
  - by apply IH.
Qed.

Lemma NoDup_unambiguous f : NoDup (columns f) → unambiguous f.
Proof.
  intros Hf a b Ha Hb Hab.
  by rewrite (NoDup_fmap_inj s_name (df_cols f) a b Hf Ha Hb Hab).
Qed.

(** Whatever the labels, the two lists split the columns one by one. *)
Lemma meta_current_split s :
  meta_current s →
  ∃ numerical categorical,
    meta s !! "numerical" = Some (MList numerical)
    ∧ meta s !! "categorical" = Some (MList categorical)
    ∧ categorical ++ numerical ≡ₚ columns (features_of s).
Proof.
  intros (Hc & Hn & _)%meta_current_lookup.
  eexists _, _. split; [exact Hn |]. split; [exact Hc |].
  unfold columns. rewrite <- fmap_app. apply fmap_Permutation.
  generalize (df_cols (features_of s)). intros l.
  induction l as [|c l IH]; [done |].
  rewrite !filter_cons.
  destruct (decide (s_dtype c = dt_object)), (decide (s_dtype c ≠ dt_object));
    try done; simpl.
  - by rewrite IH.
  - by rewrite <- Permutation_middle, IH.
Qed.

Lemma meta_current_partition s :
  meta_current s → unambiguous (features_of s) → labels_partition s.
Proof.
  intros (Hc & Hn & _)%meta_current_lookup Hu.
  eexists _, _. split; [exact Hn |]. split; [exact Hc |].
  assert (Hcat : ∀ c, c ∈ df_cols (features_of s) →
            (s_name c ∈ s_name <$> filter (λ c, s_dtype c = dt_object)
                                     (df_cols (features_of s))
             ↔ s_dtype c = dt_object)).
  { intros c Hin. rewrite list_elem_of_fmap. split.
    - intros (c' & Hname & [Hobj Hin']%list_elem_of_filter).
      by apply (Hu c' c Hin' Hin).
    - intros Hobj. exists c. split; [done |]. by apply list_elem_of_filter. }
  assert (Hnum : ∀ c, c ∈ df_cols (features_of s) →
            (s_name c ∈ s_name <$> filter (λ c, s_dtype c ≠ dt_object)
                                     (df_cols (features_of s))
             ↔ s_dtype c ≠ dt_object)).
  { intros c Hin. rewrite list_elem_of_fmap. split.
    - intros (c' & Hname & [Hobj Hin']%list_elem_of_filter) Hc'.
      by apply Hobj, (Hu c c' Hin Hin').
    - intros Hobj. exists c. split; [done |]. by apply list_elem_of_filter. }
  split; [| split; [| by auto]].
  - intros l [Hl1 Hl2].
    apply list_elem_of_fmap in Hl1 as (c & -> & [Hobj Hin]%list_elem_of_filter).
    by apply (Hcat c Hin) in Hl2.
  - intros l. unfold columns. rewrite !list_elem_of_fmap. split.
    + intros (c & -> & Hin).
      destruct (decide (s_dtype c = dt_object)) as [Hobj|Hobj].
      * right. exists c. split; [done |]. by apply list_elem_of_filter.
      * left. exists c. split; [done |]. by apply list_elem_of_filter.
    + intros [(c & -> & [_ Hin]%list_elem_of_filter)
             |(c & -> & [_ Hin]%list_elem_of_filter)]; eauto.
Qed.

(** C1, as amended.  Of a working table in which no label is carried
    both by a column of type [object] and by a column of another type,
    [meta['numerical']] and [meta['categorical']] are disjoint, their
    union is the set of labels of [features], and a column is listed in
    [meta['categorical']] iff its type is [object], in
    [meta['numerical']] otherwise:
    - when the constructor has returned;
    - in whatever state the [Dataset] was, calls that raised included,
      when a mutating operation ([set_target], [scale],
      [ensure_normality], [onehot_encode], [add_column], [drop_columns],
      [keep_columns], [aggregate], [drop_samples], [replace_na]) has
      returned, [add_column] under a name that [meta['features']] lists
      apart: that call returns without rebuilding [meta] and changes
      nothing;
    - hence after any sequence of returning calls. *)
Theorem meta_partitions_columns
    (read_csv : string → result frame)
    (standard_scaler power_transformer : frame → result ndarray)
    (dataframe_dir : list string)
    (frame_method : string → frame → result (dtype * list cell))
    (set_iteration : list string → list string) :
  (∀ data_location data_frame s self,
     init read_csv data_location data_frame s = (Ok tt, self) →
     unambiguous (features_of self) →
     labels_partition self)
  ∧ (∀ self c v self',
       invoke standard_scaler power_transformer dataframe_dir frame_method
         set_iteration c self = (Ok v, self') →
       (meta_current self'
        ∧ (unambiguous (features_of self') → labels_partition self'))
       ∨ (∃ serie l, c = call_add_column serie
                     ∧ meta self !! "features" = Some (MList l)
                     ∧ s_name serie ∈ l ∧ self' = self))
  ∧ (∀ self,
       reachable read_csv standard_scaler power_transformer dataframe_dir
         frame_method set_iteration self →
       unambiguous (features_of self) →
       labels_partition self).
Proof.
  split; [| split].
  - intros data_location data_frame s self Hinit Hu.
    apply meta_current_partition; [| done]. by eapply init_current.
  - intros self c v self' Hrun.
    apply invoke_outcome in Hrun as [Hcur|Hskip]; [| by right].
    left. split; [done |]. by apply meta_current_partition.
  - intros self Hr Hu. apply meta_current_partition; [| done].
    by eapply reachable_current.
Qed.

Lemma meta_partitions_columns_witness :
  labels_partition Sample.scenario_with_target.
Proof.
  destruct (meta_partitions_columns Sample.no_csv Sample.same_values
              Sample.same_values Sample.reductions Sample.zero_rows
              Sample.in_order) as (_ & Hcall & _).
  destruct (Hcall Sample.scenario (call_set_target "target") RetSelf
              Sample.scenario_with_target)
    as [[_ Hp]|(serie & l & Hc & _)].
  - apply run_returns. vm_compute. reflexivity.
  - apply Hp, NoDup_unambiguous.
    apply (bool_decide_unpack _). vm_compute. exact I.
  - discriminate Hc.
Defined.

(** C1, as stated, fails twice.  Built from a table in which the label
    [x] is carried by a column of strings and by a column of integers,
    the [Dataset] lists [x] both as numerical and as categorical.  And
    after [drop_columns(['B', 'B'])] has raised, [meta] still lists the
    column [B] that the working table has lost: [add_column] of a column
    named [B] returns without adding it and without rebuilding [meta],
    whose views are then not those of the working table, though its
    labels are distinct. *)
Lemma repeated_label_in_both_views :
  reachable Sample.no_csv Sample.same_values Sample.same_values
    Sample.reductions Sample.zero_rows Sample.in_order Sample.ambiguous
  ∧ meta Sample.ambiguous !! "numerical" = Some (MList ["x"])
  ∧ meta Sample.ambiguous !! "categorical" = Some (MList ["x"])
  ∧ ¬ labels_partition Sample.ambiguous
  ∧ drop_columns (PyList ["B"; "B"]) Sample.scenario
    = (Raise KeyError, Sample.stale)
  ∧ add_column (Series "B" dt_object [Str "x"; Str "y"; Str "z"; Str "t"])
      Sample.stale
    = (Ok RetSelf, Sample.stale)
  ∧ NoDup (columns (features_of Sample.stale))
  ∧ ("B" ∉ columns (features_of Sample.stale))
  ∧ meta Sample.stale !! "categorical" = Some (MList ["B"])
  ∧ ¬ labels_partition Sample.stale.
Proof.
  split; [apply Sample.dataset_of_reachable |].
  split; [by vm_compute |]. split; [by vm_compute |].
  split.
  { intros (numerical & categorical & Hn & Hc & Hdisj & _).
    vm_compute in Hn, Hc. injection Hn as <-. injection Hc as <-.
    apply (Hdisj "x"). split; apply list_elem_of_here. }
  assert (Hb : "B" ∉ columns (features_of Sample.stale))
    by (apply (bool_decide_unpack _); vm_compute; exact I).
  split; [by vm_compute |]. split; [by vm_compute |].
  split; [apply (bool_decide_unpack _); vm_compute; exact I |].
  split; [done |]. split; [by vm_compute |].
  intros (numerical & categorical & Hn & Hc & _ & Hall & _).
  vm_compute in Hc. injection Hc as <-.
  apply Hb, Hall. right. apply list_elem_of_here.
Qed.

(** ** Selectors *)

Lemma rmapM_Raise {A B} (f : A → result B) (l : list A) e :
  rmapM f l = Raise e → ∃ x, x ∈ l ∧ f x = Raise e.
Proof.
  induction l as [|x l IH]; [discriminate |]. simpl.
  destruct (f x) as [y|e'] eqn:E; simpl.
  - destruct (rmapM f l) as [ys|e'']; simpl; [discriminate |].
    intros [= ->]. destruct IH as (x' & Hin & Hx'); [done |].
    exists x'. split; [by apply list_elem_of_further | done].
  - intros [= ->]. exists x. split; [apply list_elem_of_here | done].
Qed.

Lemma loc_list_Raise f labels e : loc_list f labels = Raise e → e = KeyError.
Proof.
  unfold loc_list.
  destruct (rmapM _ labels) as [cs|e'] eqn:E; simpl; [discriminate |].
  intros [= ->]. apply rmapM_Raise in E as (l & _ & Hl).
  destruct (labelled f l); congruence.
Qed.

Lemma loc_label_Raise f label e : loc_label f label = Raise e → e = KeyError.
Proof.
  unfold loc_label. destruct label as [l|]; [| congruence].
  destruct (labelled f l) as [|c [|c' cs]]; congruence.
Qed.

Lemma loc_Raise f key e : loc f key = Raise e → e ≠ AssertionError.
Proof.
  destruct key as [l|n|rows]; simpl.
  - unfold rmap. destruct (loc_list f l) eqn:E; simpl; [discriminate |].
    intros [= <-]. by apply loc_list_Raise in E as ->.
  - by intros ->%loc_label_Raise.
  - by intros [= <-].
Qed.

Lemma in_meta_tags_recognized which :
  in_meta_tags which = true ↔ recognized which.
Proof.
  unfold recognized. destruct which as [|s| |l]; simpl.
  - split; [done | by intros (? & ? & _)].
  - rewrite bool_decide_eq_true. split; [by eauto |].
    by intros (tag & [= ->] & H).
  - split; [done | by intros (? & ? & _)].
  - split; [done | by intros (? & ? & _)].
Qed.

(** The result of [meta[which]] followed by [features.loc[:, ...]] is
    never an assertion failure. *)
Lemma lookup_then_loc_no_assertion which self :
  (bind (meta_getitem which)
     (λ key, bind (read features_of) (λ ft, lift (loc ft key))) self).1
  ≠ Raise AssertionError.
Proof.
  unfold meta_getitem, bind, read, lift, raise, ret.
  destruct which as [|k| |l]; simpl; try done.
  destruct (meta self !! k) as [v|]; simpl; [| done].
  destruct (loc (features_of self) v) eqn:E; [done |].
  intros [= ->]. by apply loc_Raise in E.
Qed.

(** C6.  [select(selector)] fails with the invalid-selector error (an
    assertion failure) exactly when the selector is neither a list nor one
    of the eight recognized tags; [names(selector)] fails with it exactly
    when the selector is not one of the eight tags, so it rejects every
    explicit list. *)
Theorem select_invalid_selector (which : pyval) (self : Dataset) :
  ((select which self).1 = Raise AssertionError
   ↔ ¬ is_list which ∧ ¬ recognized which)
  ∧ ((names which self).1 = Raise AssertionError ↔ ¬ recognized which)
  ∧ (is_list which → (names which self).1 = Raise AssertionError).
Proof.
  assert (Hn : (names which self).1 = Raise AssertionError ↔ ¬ recognized which).
  { rewrite <- in_meta_tags_recognized. unfold names, bind.
    destruct (in_meta_tags which) eqn:E; simpl.
    - split; [| done]. intros H. exfalso. revert H.
      unfold meta_getitem, bind, read, raise, ret.
      destruct which as [|k| |l]; simpl; try done.
      by destruct (meta self !! k).
    - done. }
  split; [| split; [done |]].
  - rewrite <- in_meta_tags_recognized. unfold is_list.
    assert (Hsel : ∀ w, (∀ l, w ≠ PyList l) →
              select w self
              = bind (assert (in_meta_tags w))
                  (λ _, bind (meta_getitem w)
                     (λ key, bind (read features_of) (λ ft, lift (loc ft key))))
                  self).
    { intros w Hw. destruct w; try done. by destruct (Hw l). }
    destruct which as [|k| |l].
    + rewrite Hsel by done. simpl. split; [| done]. split; [| done].
      by intros (l & ?).
    + rewrite Hsel by done. unfold bind at 1.
      destruct (in_meta_tags (PyStr k)) eqn:E; simpl.
      * split; [| by intros [_ ?]]. intros H.
        destruct (lookup_then_loc_no_assertion (PyStr k) self H).
      * split; [| done]. split; [| done]. by intros (l & ?).
    + rewrite Hsel by done. simpl. split; [| done]. split; [| done].
      by intros (l & ?).
    + simpl. unfold bind, read, lift. simpl. split.
      * unfold rmap. destruct (loc_list (features_of self) l) eqn:E; simpl; [done |].
        intros [= ->]. by apply loc_list_Raise in E.
      * intros [H _]. destruct H. by exists l.
  - intros (l & ->). apply Hn. by intros (tag & ? & _).
Qed.

(** C5, as amended.  For every recognized tag other than ['target'] and
    every [Dataset] whose [meta] is current, [meta[tag]] is a list and
    [select] applied to that list returns what [select] applied to the
    tag returns.  Under ['target'], [meta] holds a name or [None], not a
    list: [select] applied to it fails with the assertion error unless
    the name is itself a tag, which [select('target')] never does. *)
Theorem select_list_same_as_tag (self : Dataset) (tag : string) :
  meta_current self →
  tag ∈ meta_tags →
  (tag ≠ "target" →
     ∃ l, meta self !! tag = Some (MList l)
          ∧ select (PyList l) self = select (PyStr tag) self)
  ∧ (tag = "target" →
     ∃ n, meta self !! tag = Some (MName n)
          ∧ (in_meta_tags (name_value n) = false →
             select (name_value n) self = (Raise AssertionError, self))
          ∧ (select (PyStr tag) self).1 ≠ Raise AssertionError).
Proof.
  intros Hcur Htag. split.
  - intros Hnt.
    assert (∃ l, meta self !! tag = Some (MList l)) as [l Hl].
    { apply meta_current_lookup in Hcur
        as (Hc & Hn & Hcna & Hnna & Hco & Hf & Ha & _).
      unfold meta_tags in Htag.
      repeat (apply elem_of_cons in Htag as [->|Htag]; [by eauto |]).
      by apply elem_of_nil in Htag. }
    exists l. split; [done |].
    unfold select, meta_getitem, bind, assert, read, ret, lift. simpl.
    rewrite bool_decide_true by done. simpl. by rewrite Hl.
  - intros ->.
    apply meta_current_lookup in Hcur as (_ & _ & _ & _ & _ & _ & _ & n & _ & Hn).
    exists n. split; [done |]. split.
    + intros Hout. destruct n as [k|]; [| done].
      unfold name_value in *. unfold select, bind at 1, assert.
      by rewrite Hout.
    + exact (lookup_then_loc_no_assertion (PyStr "target") self).
Qed.

Lemma select_list_same_as_tag_witness :
  ∃ l, meta Sample.scenario_with_target !! "numerical" = Some (MList l)
       ∧ select (PyList l) Sample.scenario_with_target
         = select (PyStr "numerical") Sample.scenario_with_target.
Proof.
  apply (select_list_same_as_tag Sample.scenario_with_target "numerical").
  - reflexivity.
  - apply (bool_decide_unpack _). vm_compute. exact I.
  - discriminate.
Defined.

(** C5, as stated, fails for the tag ['target'].  While the target is
    not set, [meta['target']] is [None]: [select(None)] fails with the
    assertion error and [select('target')] with [KeyError].  Once the
    target is the column [y], [meta['target']] is the name [y]:
    [select('y')] fails with the assertion error, and [select('target')]
    and [select(['y'])] with [KeyError], the column having left the
    working table. *)
Lemma select_target_differs :
  meta_current Sample.scenario
  ∧ meta Sample.scenario !! "target" = Some (MName None)
  ∧ select PyNone Sample.scenario = (Raise AssertionError, Sample.scenario)
  ∧ select (PyStr "target") Sample.scenario = (Raise KeyError, Sample.scenario)
  ∧ meta_current Sample.numeric_with_target
  ∧ meta Sample.numeric_with_target !! "target" = Some (MName (Some "y"))
  ∧ select (PyStr "y") Sample.numeric_with_target
    = (Raise AssertionError, Sample.numeric_with_target)
  ∧ select (PyStr "target") Sample.numeric_with_target
    = (Raise KeyError, Sample.numeric_with_target)
  ∧ select (PyList ["y"]) Sample.numeric_with_target
    = (Raise KeyError, Sample.numeric_with_target).
Proof.
  split; [apply run_returns; vm_compute; reflexivity |].
  split; [by vm_compute |]. split; [by vm_compute |]. split; [by vm_compute |].
  split; [apply run_returns; vm_compute; reflexivity |].
  split; [by vm_compute |]. split; [by vm_compute |]. split; by vm_compute.
Qed.

(** ** [drop_samples] *)

(** C7.  For every index list, [drop_samples] leaves the raw table and
    the working table as they were: the frame computed by
    [self.data.drop(...)] is not kept.  When the call returns, [meta] is
    what [metainfo] computes on the state before the call; when it raises
    (an index out of range), nothing at all has changed. *)
Theorem drop_samples_changes_no_table (index_list : list Z) (self : Dataset) :
  data_of (drop_samples index_list self).2 = data_of self
  ∧ features_of (drop_samples index_list self).2 = features_of self
  ∧ target (drop_samples index_list self).2 = target self
  ∧ match (drop_samples index_list self).1 with
    | Ok _ => metainfo self = (Ok tt, (drop_samples index_list self).2)
    | Raise _ => (drop_samples index_list self).2 = self
    end.
Proof.
  unfold drop_samples, bind, read, lift, ret. simpl.
  destruct (index_take (df_index (data_of self)) index_list); simpl; [| done].
  destruct (metainfo self) as [[[]|e] s'] eqn:E; simpl.
  - apply metainfo_inv in E as (Hh & _ & Hd & Hf & Ht & _).
    unfold data_of, features_of. by rewrite Hh, Hd, Hf, Ht.
  - apply metainfo_inv in E as (_ & _ & _ & _ & _ & [? | ->]); done.
Qed.

(** ** The raw table and the working table are two objects *)

Lemma keeps_refs_read_only {A} (m : M A) : read_only m → keeps_refs m.
Proof. intros Hm s r s' H. by apply Hm in H as ->. Qed.

Lemma keeps_refs_bind {A B} (m : M A) (k : A → M B) :
  keeps_refs m → (∀ a, keeps_refs (k a)) → keeps_refs (bind m k).
Proof.
  intros Hm Hk s r s' H. unfold bind in H.
  destruct (m s) as [[a|e] s1] eqn:E.
  - apply Hm in E as (Hd & Hf & Hn). apply Hk in H as (Hd' & Hf' & Hn').
    by rewrite Hd', Hf', Hn'.
  - apply Hm in E. by inversion H; subst.
Qed.

Lemma keeps_refs_for_each {A} (l : list A) (body : A → M unit) :
  (∀ x, keeps_refs (body x)) → keeps_refs (for_each l body).
Proof.
  intros Hb. induction l as [|x l IH]; simpl.
  - apply keeps_refs_read_only, read_only_ret.
  - by apply keeps_refs_bind.
Qed.

Lemma keeps_refs_mutate_features f : keeps_refs (mutate_features f).
Proof. by intros s r s' [= <- <-]. Qed.

Lemma keeps_refs_mutate_data f : keeps_refs (mutate_data f).
Proof. by intros s r s' [= <- <-]. Qed.

Lemma keeps_refs_assign_target t : keeps_refs (assign_target t).
Proof. by intros s r s' [= <- <-]. Qed.

Lemma keeps_refs_assign_meta m : keeps_refs (assign_meta m).
Proof. by intros s r s' [= <- <-]. Qed.

Lemma keeps_refs_metainfo : keeps_refs metainfo.
Proof.
  intros s r s' H. by apply metainfo_inv in H as (_ & Hn & Hd & Hf & _).
Qed.

Create HintDb keeps_refs.
#[export] Hint Resolve keeps_refs_mutate_features keeps_refs_mutate_data
  keeps_refs_assign_target keeps_refs_assign_meta keeps_refs_metainfo
  : keeps_refs.

Ltac solve_keeps_refs :=
  cbv zeta;
  repeat first
    [ apply keeps_refs_bind; [| intros ?]
    | apply keeps_refs_for_each; intros ?
    | solve [auto with keeps_refs]
    | solve [apply keeps_refs_read_only; auto with read_only]
    | match goal with
      | |- keeps_refs (match ?x with _ => _ end) => destruct x
      end ].

Lemma keeps_refs_set_target target_name : keeps_refs (set_target target_name).
Proof. unfold set_target. solve_keeps_refs. Qed.

Lemma keeps_refs_add_column serie : keeps_refs (add_column serie).
Proof. unfold add_column. solve_keeps_refs. Qed.

Lemma keeps_refs_drop_columns columns_list : keeps_refs (drop_columns columns_list).
Proof. unfold drop_columns. solve_keeps_refs. Qed.

Lemma keeps_refs_drop_samples index_list : keeps_refs (drop_samples index_list).
Proof. unfold drop_samples. solve_keeps_refs. Qed.

Lemma keeps_refs_replace_na column value : keeps_refs (replace_na column value).
Proof. unfold replace_na. solve_keeps_refs. Qed.

#[export] Hint Resolve keeps_refs_set_target keeps_refs_add_column
  keeps_refs_drop_columns keeps_refs_drop_samples keeps_refs_replace_na
  : keeps_refs.

Lemma keeps_refs_transform_features transformer features_of_type :
  keeps_refs (transform_features transformer features_of_type).
Proof. unfold transform_features. solve_keeps_refs. Qed.

#[export] Hint Resolve keeps_refs_transform_features : keeps_refs.

Lemma keeps_refs_scale standard_scaler features_of_type return_series :
  keeps_refs (scale standard_scaler features_of_type return_series).
Proof. unfold scale. solve_keeps_refs. Qed.

Lemma keeps_refs_ensure_normality power_transformer features_of_type return_series :
  keeps_refs (ensure_normality power_transformer features_of_type return_series).
Proof. unfold ensure_normality. solve_keeps_refs. Qed.

Lemma keeps_refs_keep_columns set_iteration to_keep :
  keeps_refs (keep_columns set_iteration to_keep).
Proof. unfold keep_columns. solve_keeps_refs. Qed.

Lemma keeps_refs_aggregate dataframe_dir frame_method col_list new_column
    operation flag :
  keeps_refs (aggregate dataframe_dir frame_method col_list new_column operation flag).
Proof. unfold aggregate. solve_keeps_refs. Qed.

Lemma keeps_refs_separate {A} (m : M A) s r s' :
  keeps_refs m → separate s → m s = (r, s') → separate s'.
Proof.
  intros Hm (Hd & Hf & Hne) H. apply Hm in H as (Hd' & Hf' & Hn').
  unfold separate. by rewrite Hd', Hf', Hn'.
Qed.

Lemma onehot_encode_separate s v s' :
  separate s → onehot_encode s = (Ok v, s') → separate s'.
Proof.
  intros (Hd & Hf & Hne). unfold onehot_encode. intros H. inv_binds.
  apply read_only_names in H0 as ->. apply read_inv in H1 as [_ ->].
  apply lift_inv in H2 as [_ ->]. apply read_only_names in H3 as ->.
  apply lift_inv in H4 as [_ ->]. apply lift_inv in H5 as [_ ->].
  unfold copy in H6. injection H6 as <- <-.
  unfold assign_features in H7. injection H7 as _ <-.
  apply keeps_refs_metainfo in H8 as (Hd' & Hf' & Hn'). simpl in *.
  apply ret_inv in H as [_ ->].
  unfold separate. rewrite Hd', Hf', Hn'. lia.
Qed.

Lemma init_separate read_csv h n data_location data_frame s' :
  (∀ r, data_frame = Some r → r < n) →
  init read_csv data_location data_frame (new_self h n) = (Ok tt, s') →
  separate s'.
Proof.
  intros Hr. unfold init. intros H. inv_binds.
  assert (data s0 < fresh s0)%nat as Hlt.
  { unfold assign_data in H1. injection H1 as _ <-. simpl.
    destruct data_location as [path|].
    - inv_binds. apply lift_inv in H1 as [_ ->].
      unfold copy in H0. injection H0 as <- <-. simpl. lia.
    - destruct data_frame as [r|].
      + apply ret_inv in H0 as [[= <-] ->]. simpl. by apply Hr.
      + by apply raise_inv in H0 as [? _]. }
  apply read_inv in H2 as [_ ->].
  unfold copy in H3. injection H3 as <- <-.
  unfold assign_features in H4. injection H4 as _ <-.
  apply keeps_refs_metainfo in H as (Hd' & Hf' & Hn'). simpl in *.
  unfold separate. rewrite Hd', Hf', Hn'. lia.
Qed.

Lemma reachable_separate read_csv standard_scaler power_transformer
    dataframe_dir frame_method set_iteration s :
  reachable read_csv standard_scaler power_transformer dataframe_dir
    frame_method set_iteration s →
  separate s.
Proof.
  induction 1 as [h n data_location data_frame self Hr H | self c v self' _ IH H].
  - by eapply init_separate.
  - destruct c; simpl in H.
    + eapply keeps_refs_separate; [apply keeps_refs_set_target | done..].
    + eapply keeps_refs_separate; [apply keeps_refs_scale | done..].
    + eapply keeps_refs_separate; [apply keeps_refs_ensure_normality | done..].
    + by eapply onehot_encode_separate.
    + eapply keeps_refs_separate; [apply keeps_refs_add_column | done..].
    + eapply keeps_refs_separate; [apply keeps_refs_drop_columns | done..].
    + eapply keeps_refs_separate; [apply keeps_refs_keep_columns | done..].
    + eapply keeps_refs_separate; [apply keeps_refs_aggregate | done..].
    + eapply keeps_refs_separate; [apply keeps_refs_drop_samples | done..].
    + eapply keeps_refs_separate; [apply keeps_refs_replace_na | done..].
Qed.

(** The same holds when calls that raise are counted in: an exception
    leaves the two references as they were, or, in [onehot_encode], with
    [self.features] already bound to the new object. *)
Lemma onehot_encode_separate_raise s e s' :
  separate s → onehot_encode s = (Raise e, s') → separate s'.
Proof.
  intros (Hd & Hf & Hne). unfold onehot_encode. intros H.
  apply bind_Raise in H as [H|(numerical & s1 & ->%read_only_names & H)];
    [by apply read_only_names in H as -> |].
  apply bind_Raise in H as [H|(ft & s2 & [_ ->]%read_inv & H)];
    [by apply read_inv in H as [_ ->] |].
  apply bind_Raise in H as [H|(new_df & s3 & [_ ->]%lift_inv & H)];
    [by apply lift_inv in H as [_ ->] |].
  apply bind_Raise in H as [H|(categorical & s4 & ->%read_only_names & H)];
    [by apply read_only_names in H as -> |].
  apply bind_Raise in H as [H|(cats & s5 & [_ ->]%lift_inv & H)];
    [by apply lift_inv in H as [_ ->] |].
  apply bind_Raise in H as [H|(encoded & s6 & [_ ->]%lift_inv & H)];
    [by apply lift_inv in H as [_ ->] |].
  apply bind_Raise in H as [[=]|(r & s7 & [= <- <-] & H)].
  apply bind_Raise in H as [[=]|([] & s8 & [= <-] & H)].
  apply bind_Raise in H as [H|([] & s9 & _ & [=])].
  apply keeps_refs_metainfo in H as (Hd' & Hf' & Hn'). simpl in *.
  unfold separate. rewrite Hd', Hf', Hn'. lia.
Qed.

Lemma lived_separate read_csv standard_scaler power_transformer
    dataframe_dir frame_method set_iteration s :
  lived read_csv standard_scaler power_transformer dataframe_dir
    frame_method set_iteration s →
  separate s.
Proof.
  induction 1 as [h n data_location data_frame self Hr H | self c r self' _ IH H].
  - by eapply init_separate.
  - destruct c; simpl in H.
    + eapply keeps_refs_separate; [apply keeps_refs_set_target | done..].
    + eapply keeps_refs_separate; [apply keeps_refs_scale | done..].
    + eapply keeps_refs_separate; [apply keeps_refs_ensure_normality | done..].
    + destruct r; [by eapply onehot_encode_separate
                  | by eapply onehot_encode_separate_raise].
    + eapply keeps_refs_separate; [apply keeps_refs_add_column | done..].
    + eapply keeps_refs_separate; [apply keeps_refs_drop_columns | done..].
    + eapply keeps_refs_separate; [apply keeps_refs_keep_columns | done..].
    + eapply keeps_refs_separate; [apply keeps_refs_aggregate | done..].
    + eapply keeps_refs_separate; [apply keeps_refs_drop_samples | done..].
    + eapply keeps_refs_separate; [apply keeps_refs_replace_na | done..].
Qed.

Lemma reachable_lived read_csv standard_scaler power_transformer
    dataframe_dir frame_method set_iteration s :
  reachable read_csv standard_scaler power_transformer dataframe_dir
    frame_method set_iteration s →
  lived read_csv standard_scaler power_transformer dataframe_dir
    frame_method set_iteration s.
Proof.
  induction 1 as [h n data_location data_frame self Hr H | self c v self' _ IH H].
  - by eapply lived_init.
  - by eapply lived_call.
Qed.

(** ** [replace_na] *)

Lemma writes_data_only_read_only {A} (m : M A) : read_only m → writes_data_only m.
Proof. intros Hm s r s' H. by apply Hm in H as ->. Qed.

Lemma writes_data_only_bind {A B} (m : M A) (k : A → M B) :
  writes_data_only m → (∀ a, writes_data_only (k a)) → writes_data_only (bind m k).
Proof.
  intros Hm Hk s r s' H. unfold bind in H.
  destruct (m s) as [[a|e] s1] eqn:E.
  - apply Hm in E as (Hd & Hf & Ht & Hmeta & Hh).
    apply Hk in H as (Hd' & Hf' & Ht' & Hmeta' & Hh').
    rewrite Hd', Hf', Ht', Hmeta'. repeat split; try done.
    intros ref Href. rewrite Hh' by congruence. by apply Hh.
  - apply Hm in E. by inversion H; subst.
Qed.

Lemma writes_data_only_for_each {A} (l : list A) (body : A → M unit) :
  (∀ x, writes_data_only (body x)) → writes_data_only (for_each l body).
Proof.
  intros Hb. induction l as [|x l IH]; simpl.
  - apply writes_data_only_read_only, read_only_ret.
  - by apply writes_data_only_bind.
Qed.

Lemma writes_data_only_mutate_data f : writes_data_only (mutate_data f).
Proof.
  intros s r s' [= <- <-]. simpl. repeat split; try done.
  intros ref Href. unfold heap_update. by destruct (decide (ref = data s)).
Qed.

Lemma replace_na_unfold column value self :
  replace_na column value self
  = match replace_na_fill column value self with
    | (Ok _, s1) =>
        match metainfo s1 with
        | (Ok _, s2) => (Ok RetSelf, s2)
        | (Raise e, s2) => (Raise e, s2)
        end
    | (Raise e, s1) => (Raise e, s1)
    end.
Proof. reflexivity. Qed.

Lemma writes_data_only_replace_na_fill column value :
  writes_data_only (replace_na_fill column value).
Proof.
  unfold replace_na_fill. cbv zeta.
  assert (∀ col, writes_data_only
            (bind (read data_of) (λ dt,
               bind (lift (fillna_label dt col value)) (λ dt', mutate_data dt')))).
  { intros col. apply writes_data_only_bind.
    - apply writes_data_only_read_only, read_only_read.
    - intros dt. apply writes_data_only_bind.
      + apply writes_data_only_read_only, read_only_lift.
      + intros dt'. apply writes_data_only_mutate_data. }
  destruct column; try done;
    try (apply writes_data_only_read_only, read_only_raise).
  by apply writes_data_only_for_each.
Qed.

Lemma metainfo_succeeds s s0 :
  meta_current s0 → target s = target s0 → ∃ s', metainfo s = (Ok tt, s').
Proof.
  intros (_ & _ & _ & _ & _ & _ & _ & n & Hn & _)%meta_current_lookup Ht.
  unfold metainfo, bind, read, lift, assign_meta. simpl.
  rewrite Ht, Hn. eauto.
Qed.

Lemma meta_current_eq s s' :
  meta_current s → meta_current s' →
  features_of s = features_of s' →
  columns (data_of s) = columns (data_of s') →
  target s = target s' → meta s = meta s'.
Proof.
  unfold meta_current, metainfo, bind, read, lift, assign_meta. simpl.
  intros H1 H2 Hf Hd Ht. rewrite Hf, Hd, Ht in H1.
  destruct (target_name_of (target s')); [| discriminate].
  injection H1 as H1. injection H2 as H2.
  apply (f_equal meta) in H1, H2. simpl in *. congruence.
Qed.

Lemma data_of_mutate_data f s : data_of (mutate_data f s).2 = f.
Proof. unfold data_of, mutate_data. simpl. unfold heap_update. by rewrite decide_True. Qed.

Lemma replace_na_fill_name x value s :
  replace_na_fill (PyStr x) value s
  = match fillna_label (data_of s) x value with
    | Ok f => mutate_data f s
    | Raise e => (Raise e, s)
    end.
Proof.
  unfold replace_na_fill, bind, read, lift. simpl.
  by destruct (fillna_label (data_of s) x value).
Qed.

Lemma fillna_filled value c : filled_with value c (fillna value c).
Proof.
  unfold filled_with, fillna. simpl.
  split; [done |]. split; [by rewrite length_fmap |]. split; [| split].
  - intros i x Hi. by rewrite list_lookup_fmap, Hi.
  - intros s -> Hna. by rewrite decide_True.
  - intros [Hv|Hna].
    + destruct value as [| |s]; try done. by destruct (Hv s).
    + destruct value; try done. by rewrite decide_False.
Qed.

Lemma fillna_label_labels f label value f' :
  fillna_label f label value = Ok f' →
  columns f' = columns f ∧ df_index f' = df_index f.
Proof.
  unfold fillna_label. destruct (labelled f label) as [|c [|c' cs]]; [done | |].
  - intros [= <-]. split; [| done]. unfold columns. simpl.
    rewrite <- list_fmap_compose. apply list_fmap_ext. intros i x _. simpl.
    by destruct (decide (s_name x = label)).
  - by intros [= <-].
Qed.

(** The fills keep the labels of the raw table, whatever they end on. *)
Lemma replace_na_fill_labels column value s r s' :
  replace_na_fill column value s = (r, s') →
  columns (data_of s') = columns (data_of s).
Proof.
  assert (Hstr : ∀ x s r s', replace_na_fill (PyStr x) value s = (r, s') →
                             columns (data_of s') = columns (data_of s)).
  { clear. intros x s r s'. unfold replace_na_fill, bind, read, lift. simpl.
    destruct (fillna_label (data_of s) x value) as [dt'|] eqn:E.
    - intros [= _ <-]. apply fillna_label_labels in E as [E _].
      unfold data_of at 1. simpl. unfold heap_update. by rewrite decide_True.
    - by intros [= _ <-]. }
  destruct column as [| x | | l]; [by intros [= _ <-] | apply Hstr
                                  | by intros [= _ <-] |].
  revert s. induction l as [|x l IH]; intros s; [by intros [= _ <-] |].
  change (replace_na_fill (PyList (x :: l)) value s)
    with (match replace_na_fill (PyStr x) value s with
          | (Ok _, s1) => replace_na_fill (PyList l) value s1
          | (Raise e, s1) => (Raise e, s1)
          end).
  destruct (replace_na_fill (PyStr x) value s) as [[[]|e] s1] eqn:E.
  - intros H%IH. apply Hstr in E. congruence.
  - intros [= _ <-]. by apply Hstr in E.
Qed.

(** What [replace_na] leaves behind, in any state and on any outcome. *)
Lemma replace_na_frame column value s r s' :
  replace_na column value s = (r, s') →
  data s' = data s ∧ features s' = features s ∧ target s' = target s
  ∧ (∀ ref, ref ≠ data s → heap s' ref = heap s ref)
  ∧ columns (data_of s') = columns (data_of s)
  ∧ match r with
    | Ok _ => meta_current s'
    | Raise _ => meta s' = meta s
    end.
Proof.
  rewrite replace_na_unfold.
  destruct (replace_na_fill column value s) as [[[]|e] s1] eqn:Eb.
  - pose proof (writes_data_only_replace_na_fill _ _ _ _ _ Eb)
      as (Hd & Hf & Ht & Hm & Hh).
    apply replace_na_fill_labels in Eb.
    destruct (metainfo s1) as [[[]|e] s2] eqn:Em; intros [= <- <-].
    + pose proof (metainfo_current _ _ Em) as Hcur.
      apply metainfo_inv in Em as (Hh2 & _ & Hd2 & Hf2 & Ht2 & _).
      unfold data_of in *. rewrite Hh2, Hd2, Hf2, Ht2.
      repeat split; try done; intros ref Href; by apply Hh.
    + apply metainfo_inv in Em as (_ & _ & _ & _ & _ & [[=]| ->]).
      by repeat split.
  - pose proof (writes_data_only_replace_na_fill _ _ _ _ _ Eb)
      as (Hd & Hf & Ht & Hm & Hh).
    apply replace_na_fill_labels in Eb.
    intros [= <- <-]. by repeat split.
Qed.

(** C9, as amended.  In every state a [Dataset] goes through, calls that
    raised included, and for every column argument and replacement value,
    [replace_na] writes only to the object behind [self.data]: the
    working table [features], a copy made by the constructor, is
    unchanged whether the call returns or raises.  When [meta] was
    current before the call it is the same after it, and so are its sets
    [numerical_na], [categorical_na] and [complete]; when it was not, a
    call that returns has recomputed it from the unchanged working
    table.  A name that labels exactly one column of the raw table has
    the missing cells of that column replaced by the value, cell by cell,
    and every other column left as it was; a name that labels several
    leaves the raw table as it was; a name that labels none raises
    [KeyError] and changes nothing. *)
Theorem replace_na_leaves_features
    (read_csv : string → result frame)
    (standard_scaler power_transformer : frame → result ndarray)
    (dataframe_dir : list string)
    (frame_method : string → frame → result (dtype * list cell))
    (set_iteration : list string → list string)
    (self : Dataset) (column : pyval) (value : cell) :
  lived read_csv standard_scaler power_transformer dataframe_dir
    frame_method set_iteration self →
  features_of (replace_na column value self).2 = features_of self
  ∧ (∀ ref, ref ≠ data self →
            heap (replace_na column value self).2 ref = heap self ref)
  ∧ (meta_current self →
       meta (replace_na column value self).2 = meta self)
  ∧ (∀ v, (replace_na column value self).1 = Ok v →
          meta_current (replace_na column value self).2)
  ∧ (∀ col, column = PyStr col →
       match labelled (data_of self) col with
       | [] => replace_na column value self = (Raise KeyError, self)
       | [_] =>
           (meta_current self →
              (replace_na column value self).1 = Ok RetSelf)
           ∧ df_index (data_of (replace_na column value self).2)
             = df_index (data_of self)
           ∧ Forall2 (λ c c', if decide (s_name c = col)
                              then filled_with value c c' else c' = c)
               (df_cols (data_of self))
               (df_cols (data_of (replace_na column value self).2))
       | _ => data_of (replace_na column value self).2 = data_of self
       end).
Proof.
  intros Hlived.
  pose proof (lived_separate _ _ _ _ _ _ _ Hlived) as (_ & _ & Hne).
  destruct (replace_na column value self) as [r s'] eqn:Erun. simpl.
  pose proof (replace_na_frame _ _ _ _ _ Erun) as (Hd & Hf & Ht & Hh & Hcols & Hr).
  assert (Hfeat : features_of s' = features_of self).
  { unfold features_of. rewrite Hf. apply Hh. congruence. }
  split; [done |]. split; [done |]. split; [| split].
  - intros Hcur. destruct r as [v|e]; [| done].
    by apply meta_current_eq.
  - by intros v ->.
  - intros col ->. rewrite replace_na_unfold, replace_na_fill_name in Erun.
    unfold fillna_label in Erun.
    destruct (labelled (data_of self) col) as [|c [|c' cs]] eqn:El.
    + by injection Erun as <- <-.
    + set (f1 := DataFrame _ _) in Erun.
      change (mutate_data f1 self) with (Ok tt, (mutate_data f1 self).2) in Erun.
      cbv beta iota in Erun.
      assert (Hdata : data_of s' = f1).
      { rewrite <- (data_of_mutate_data f1 self).
        destruct (metainfo (mutate_data f1 self).2) as [[[]|e] s2] eqn:Em;
          injection Erun as <- <-.
        - apply metainfo_inv in Em as (Hh2 & _ & Hd2 & _).
          unfold data_of. by rewrite Hh2, Hd2.
        - by apply metainfo_inv in Em as (_ & _ & _ & _ & _ & [[=]| ->]). }
      rewrite Hdata. unfold f1. simpl.
      split; [| split; [done |]].
      * intros Hcur.
        destruct (metainfo_succeeds (mutate_data f1 self).2 self Hcur eq_refl)
          as [s2 Em].
        rewrite Em in Erun. by injection Erun as <- _.
      * apply Forall2_fmap_r, Forall_Forall2_diag, Forall_forall.
        intros x _. simpl. destruct (decide (s_name x = col)); [| done].
        apply fillna_filled.
    + change (mutate_data (data_of self) self)
        with (Ok tt, (mutate_data (data_of self) self).2) in Erun.
      cbv beta iota in Erun.
      rewrite <- (data_of_mutate_data (data_of self) self) at 1.
      destruct (metainfo (mutate_data (data_of self) self).2)
        as [[[]|e] s2] eqn:Em; injection Erun as <- <-.
      * apply metainfo_inv in Em as (Hh2 & _ & Hd2 & _).
        unfold data_of. by rewrite Hh2, Hd2.
      * by apply metainfo_inv in Em as (_ & _ & _ & _ & _ & [[=]| ->]).
Qed.

Lemma replace_na_leaves_features_witness :
  features_of (replace_na (PyStr "B") (Str "none") Sample.scenario).2
  = features_of Sample.scenario.
Proof.
  exact (proj1 (replace_na_leaves_features Sample.no_csv Sample.same_values
                  Sample.same_values Sample.reductions Sample.zero_rows
                  Sample.in_order Sample.scenario (PyStr "B") (Str "none")
                  (reachable_lived _ _ _ _ _ _ _
                     (Sample.dataset_of_reachable Sample.scenario_table)))).
Defined.

(** C9, as stated, fails twice.  Under a label that two columns of the
    raw table carry, [replace_na] returns and the raw table still has
    its missing cells.  And after [drop_columns(['B', 'B'])] has raised,
    [meta] lists [B] among the categorical columns with missing values
    while the working table no longer has it: [replace_na('A', 0)]
    returns, and the set [categorical_na] is not what it was before the
    call. *)
Lemma replace_na_fills_nothing_under_a_twin_label :
  "x" ∈ columns (features_of Sample.twin)
  ∧ (replace_na (PyStr "x") (Num 0) Sample.twin).1 = Ok RetSelf
  ∧ data_of (replace_na (PyStr "x") (Num 0) Sample.twin).2 = Sample.twin_table
  ∧ count_na (Series "x" dt_float64 [NA; Num 1]) = 1
  ∧ lived Sample.no_csv Sample.same_values Sample.same_values
      Sample.reductions Sample.zero_rows Sample.in_order Sample.stale
  ∧ "A" ∈ columns (features_of Sample.stale)
  ∧ meta Sample.stale !! "categorical_na" = Some (MList ["B"])
  ∧ (replace_na (PyStr "A") (Num 0) Sample.stale).1 = Ok RetSelf
  ∧ meta (replace_na (PyStr "A") (Num 0) Sample.stale).2 !! "categorical_na"
    = Some (MList []).
Proof.
  split; [apply (bool_decide_unpack _); vm_compute; exact I |].
  split; [vm_compute; reflexivity |]. split; [vm_compute; reflexivity |].
  split; [reflexivity |].
  split.
  { eapply (lived_call _ _ _ _ _ _ Sample.scenario
              (call_drop_columns (PyList ["B"; "B"]))).
    - apply reachable_lived, (Sample.dataset_of_reachable Sample.scenario_table).
    - apply surjective_pairing. }
  split; [apply (bool_decide_unpack _); vm_compute; exact I |].
  split; [vm_compute; reflexivity |]. split; vm_compute; reflexivity.
Qed.

(** ** [under_represented_features] *)

Lemma head_count_insert p l :
  head_count (insert_by_count p l) = p.2 `max` head_count l.
Proof.
  destruct l as [|q l]; simpl; [lia |].
  destruct (decide (q.2 < p.2)); simpl; lia.
Qed.

Lemma insert_by_count_not_nil p l : insert_by_count p l ≠ [].
Proof. destruct l as [|q l]; simpl; [done |]. by destruct (decide (q.2 < p.2)). Qed.

Lemma head_count_sort l : head_count (sort_by_count l) = max_list (snd <$> l).
Proof.
  induction l as [|p l IH]; [done |].
  simpl. by rewrite head_count_insert, IH.
Qed.

(** [value_counts().iloc[0]] is the count of the most frequent category,
    and fails only on a column without any value. *)
Lemma iloc0_value_counts s :
  categories s ≠ [] → iloc0 (value_counts s) = Ok (majority_count s).
Proof.
  intros Hne. unfold value_counts, majority_count.
  pose proof (head_count_sort ((λ v, (v, occurrences v s)) <$> categories s)) as Hh.
  rewrite <- list_fmap_compose in Hh. simpl in Hh.
  destruct (categories s) as [|v vs]; [done |].
  rewrite fmap_cons in *. simpl in *.
  destruct (insert_by_count _ _) eqn:E.
  - by apply insert_by_count_not_nil in E.
  - simpl in *. by rewrite Hh.
Qed.

Lemma filter_none {A} (P : A → Prop) `{∀ x, Decision (P x)} (l : list A) :
  (∀ x, x ∈ l → ¬ P x) → filter P l = [].
Proof.
  induction l as [|x l IH]; [done |]. intros Hl.
  rewrite filter_cons_False by (apply Hl, list_elem_of_here).
  apply IH. intros y Hy. by apply Hl, list_elem_of_further.
Qed.

Lemma NoDup_labelled f c :
  NoDup (columns f) → c ∈ df_cols f → labelled f (s_name c) = [c].
Proof.
  unfold columns, labelled. induction (df_cols f) as [|x l IH]; [by intros _ ?%elem_of_nil |].
  rewrite fmap_cons, NoDup_cons, filter_cons. intros [Hx Hl] Hin.
  assert (Hnone : ∀ y, s_name y = s_name x → filter (λ c', s_name c' = s_name y) l = []).
  { intros y Hy. apply filter_none. intros z Hz Hzy.
    apply Hx. rewrite <- Hy, <- Hzy. by apply list_elem_of_fmap_2. }
  apply elem_of_cons in Hin as [->|Hin].
  - rewrite decide_True by done. by rewrite Hnone.
  - rewrite decide_False; [by apply IH |].
    intros Hxc. apply Hx. rewrite Hxc. by apply list_elem_of_fmap_2.
Qed.








(** ** [onehot_encode] *)

Lemma names_tag tag self v :
  tag ∈ meta_tags → meta self !! tag = Some v →
  names (PyStr tag) self = (Ok v, self).
Proof.
  intros Htag Hv. unfold names, meta_getitem, bind, assert, read, ret. simpl.
  rewrite bool_decide_true by done. simpl. by rewrite Hv.
Qed.

Lemma rmapM_Ok {A B} (f : A → result B) (g : A → B) (l : list A) :
  (∀ x, x ∈ l → f x = Ok (g x)) → rmapM f l = Ok (g <$> l).
Proof.
  induction l as [|x l IH]; [done |]. intros Hl. simpl.
  rewrite Hl by apply list_elem_of_here. simpl.
  rewrite IH; [done |]. intros y Hy. by apply Hl, list_elem_of_further.
Qed.

Lemma labelled_not_nil f l : l ∈ columns f → labelled f l ≠ [].
Proof.
  intros (c & -> & Hin)%list_elem_of_fmap Hnil.
  eapply (filter_nil_not_elem_of _ _ c); [exact Hnil | done | done].
Qed.

(** Selecting labels that are all present succeeds and gives, label by
    label, the columns that carry it. *)
Lemma loc_list_Ok f labels :
  (∀ l, l ∈ labels → l ∈ columns f) →
  loc_list f labels = Ok (DataFrame (df_index f) (concat (labelled f <$> labels))).
Proof.
  intros Hl. unfold loc_list.
  rewrite (rmapM_Ok _ (labelled f)); [done |].
  intros l Hin. apply Hl, labelled_not_nil in Hin. by destruct (labelled f l).
Qed.

Lemma elem_of_concat_labelled f labels c :
  c ∈ concat (labelled f <$> labels) ↔ c ∈ df_cols f ∧ s_name c ∈ labels.
Proof.
  induction labels as [|l labels IH]; simpl.
  - rewrite elem_of_nil. split; [done |]. by intros [_ ?%elem_of_nil].
  - rewrite elem_of_app, IH, elem_of_cons. unfold labelled.
    rewrite list_elem_of_filter. split.
    + intros [[Hname Hin]|[Hin Hname]]; auto.
    + intros [Hin [Hname|Hname]]; auto.
Qed.

Lemma get_dummies_series_dtype s prefix c :
  c ∈ get_dummies_series s prefix → s_dtype c = dt_uint8.
Proof.
  unfold get_dummies_series. by intros (v & -> & _)%list_elem_of_fmap.
Qed.

Lemma get_dummies_added f l o c :
  loc_label f (Some l) = Ok o →
  c ∈ df_cols (get_dummies o l) →
  ∃ src, src ∈ df_cols f ∧ s_name src = l
         ∧ ((s_dtype src ≠ dt_object ∧ c = src)
            ∨ c ∈ get_dummies_series src (s_name src)).
Proof.
  unfold loc_label.
  assert (Hlab : ∀ x, x ∈ labelled f l → x ∈ df_cols f ∧ s_name x = l).
  { intros x [? ?]%list_elem_of_filter. done. }
  destruct (labelled f l) as [|x [|y cs]] eqn:E; [done | |].
  - intros [= <-]. simpl. intros Hc.
    destruct (Hlab x) as [Hin Hname]; [apply list_elem_of_here |].
    exists x. rewrite Hname. auto.
  - intros [= <-]. simpl. rewrite elem_of_app. intros [Hc|Hc].
    + apply list_elem_of_filter in Hc as [Hobj Hc].
      destruct (Hlab c Hc) as [Hin Hname]. exists c. auto.
    + apply list_elem_of_join in Hc as (ds & Hc & Hds).
      apply list_elem_of_fmap in Hds as (src & -> & [Hobj Hsrc]%list_elem_of_filter).
      destruct (Hlab src Hsrc) as [Hin Hname]. exists src. rewrite Hname. auto.
Qed.

Lemma loc_label_Ok f l : l ∈ columns f → ∃ o, loc_label f (Some l) = Ok o.
Proof.
  intros Hl%labelled_not_nil. unfold loc_label.
  destruct (labelled f l) as [|x [|y cs]]; [done | eauto..].
Qed.

Lemma onehot_loop_Ok f categorical new_df :
  (∀ l, l ∈ categorical → l ∈ columns f) →
  ∃ added,
    onehot_loop f categorical new_df
    = Ok (DataFrame (df_index new_df) (df_cols new_df ++ added))
    ∧ ∀ c, c ∈ added → added_for f categorical c.
Proof.
  revert new_df. induction categorical as [|l ls IH]; intros new_df Hl.
  - exists []. simpl. rewrite app_nil_r. split; [by destruct new_df |].
    by intros c ?%elem_of_nil.
  - destruct (loc_label_Ok f l) as [o Ho]; [apply Hl, list_elem_of_here |].
    destruct (IH (concat_columns new_df (get_dummies o l))) as (added & Hrun & Hadded).
    { intros l' Hl'. by apply Hl, list_elem_of_further. }
    exists (df_cols (get_dummies o l) ++ added). split.
    + cbn [onehot_loop]. rewrite Ho. cbn [rbind]. rewrite Hrun. simpl.
      by rewrite <- app_assoc.
    + intros c [Hc|Hc]%elem_of_app.
      * destruct (get_dummies_added f l o c Ho Hc) as (src & Hin & Hname & Hsrc).
        exists src. split; [done |]. split; [| done].
        rewrite Hname. apply list_elem_of_here.
      * destruct (Hadded c Hc) as (src & Hin & Hname & Hsrc).
        exists src. split; [done |]. split; [| done].
        by apply list_elem_of_further.
Qed.

Lemma bind_run {A B} (m : M A) (k : A → M B) s a s1 :
  m s = (Ok a, s1) → bind m k s = k a s1.
Proof. intros H. unfold bind. by rewrite H. Qed.

(** C10, as amended.  On a [Dataset] whose [meta] is current and in whose
    working table no label is carried both by a column of type [object]
    and by a column of another type, [onehot_encode()] returns, and then
    the categorical view is empty: every column of the new working table
    is either one of the previous numerical columns or an indicator
    column of type [uint8] made from a previous categorical column, so
    [meta['categorical'] == []] and [names('categorical')] is the empty
    list; every previous numerical column is still there, with its values. *)
Theorem onehot_encode_clears_categorical (self : Dataset) :
  meta_current self →
  unambiguous (features_of self) →
  ∃ self',
    onehot_encode self = (Ok RetSelf, self')
    ∧ meta self' !! "categorical" = Some (MList [])
    ∧ names (PyStr "categorical") self' = (Ok (MList []), self')
    ∧ (∀ c, c ∈ df_cols (features_of self') →
            (c ∈ df_cols (features_of self) ∧ s_dtype c ≠ dt_object)
            ∨ (dummy_of (features_of self) c ∧ s_dtype c = dt_uint8))
    ∧ (∀ c, c ∈ df_cols (features_of self) → s_dtype c ≠ dt_object →
            c ∈ df_cols (features_of self')).
Proof.
  intros Hcur Hu.
  pose proof (meta_current_lookup _ Hcur) as (Hc & Hn & _).
  set (ft := features_of self) in *.
  set (nums := s_name <$> filter (λ c, s_dtype c ≠ dt_object) (df_cols ft)) in *.
  set (cats := s_name <$> filter (λ c, s_dtype c = dt_object) (df_cols ft)) in *.
  assert (Hnums : ∀ l, l ∈ nums → l ∈ columns ft).
  { intros l (c & -> & [_ Hin]%list_elem_of_filter)%list_elem_of_fmap.
    by apply list_elem_of_fmap_2. }
  assert (Hcats : ∀ l, l ∈ cats → l ∈ columns ft).
  { intros l (c & -> & [_ Hin]%list_elem_of_filter)%list_elem_of_fmap.
    by apply list_elem_of_fmap_2. }
  pose proof (loc_list_Ok ft nums Hnums) as Hloc.
  set (new_df := DataFrame (df_index ft) (concat (labelled ft <$> nums))) in *.
  destruct (onehot_loop_Ok ft cats new_df Hcats) as (added & Hrun & Hadded).
  set (encoded := DataFrame (df_index new_df) (df_cols new_df ++ added)) in *.
  set (s1 := MkDataset (heap_update (heap self) (fresh self) encoded)
               (S (fresh self)) (data self) (fresh self) (target self) (meta self)).
  destruct (metainfo_succeeds s1 self Hcur eq_refl) as [self' Em].
  assert (Hft' : features_of self' = encoded).
  { pose proof (metainfo_inv _ _ _ Em) as (Hh & _ & _ & Hf & _).
    unfold features_of. rewrite Hh, Hf. simpl. unfold heap_update.
    by rewrite decide_True. }
  (* the columns of the new table *)
  assert (Hold : ∀ c, c ∈ df_cols new_df ↔ c ∈ df_cols ft ∧ s_dtype c ≠ dt_object).
  { intros c. simpl. rewrite elem_of_concat_labelled. split.
    - intros [Hin (c' & Hname & [Hobj Hin']%list_elem_of_filter)%list_elem_of_fmap].
      split; [done |]. intros Hc'. by apply Hobj, (Hu c c' Hin Hin').
    - intros [Hin Hobj]. split; [done |].
      apply list_elem_of_fmap. exists c. split; [done |].
      by apply list_elem_of_filter. }
  assert (Hnew : ∀ c, c ∈ added → dummy_of ft c ∧ s_dtype c = dt_uint8).
  { intros c (src & Hin & Hname & Hsrc)%Hadded.
    apply list_elem_of_fmap in Hname as (c' & Hname & [Hobj Hin']%list_elem_of_filter).
    assert (s_dtype src = dt_object) by (by apply (Hu c' src Hin' Hin)).
    destruct Hsrc as [[? _]|Hd]; [done |].
    split; [by exists src | by eapply get_dummies_series_dtype]. }
  assert (Hmeta' : meta self' !! "categorical" = Some (MList [])).
  { pose proof (meta_current_lookup _ (metainfo_current _ _ Em)) as (Hc' & _).
    rewrite Hc', Hft'. do 2 f_equal.
    rewrite filter_none; [done |].
    intros c [Hin|Hin]%elem_of_app.
    - by apply Hold in Hin as [_ ?].
    - apply Hnew in Hin as [_ Hdt]. by rewrite Hdt. }
  exists self'. split; [| split; [done | split; [| split]]].
  - unfold onehot_encode.
    erewrite bind_run; [| by apply names_tag; [compute_done | exact Hn]].
    erewrite bind_run; [| reflexivity].
    erewrite bind_run; [| unfold lift; simpl; fold ft; rewrite Hloc; reflexivity].
    erewrite bind_run; [| by apply names_tag; [compute_done | exact Hc]].
    erewrite bind_run; [| reflexivity].
    erewrite bind_run; [| unfold lift; fold ft; rewrite Hrun; reflexivity].
    erewrite bind_run; [| reflexivity].
    erewrite bind_run; [| reflexivity].
    erewrite bind_run; [| exact Em].
    reflexivity.
  - by apply names_tag; [compute_done |].
  - intros c. rewrite Hft'. intros [Hin|Hin]%elem_of_app.
    + left. by apply Hold.
    + right. by apply Hnew.
  - intros c Hin Hobj. rewrite Hft'. apply elem_of_app. left. by apply Hold.
Qed.

(** C10, as stated, fails: with the label [x] on a column of strings and
    on a column of integers, [onehot_encode()] returns and the column of
    strings is still in the working table, listed as categorical. *)
Lemma onehot_encode_keeps_ambiguous_column :
  meta_current Sample.ambiguous
  ∧ (onehot_encode Sample.ambiguous).1 = Ok RetSelf
  ∧ meta (onehot_encode Sample.ambiguous).2 !! "categorical" = Some (MList ["x"])
  ∧ Series "x" dt_object [Str "a"]
      ∈ df_cols (features_of (onehot_encode Sample.ambiguous).2).
Proof.
  split; [reflexivity |]. split; [reflexivity |]. split; [by vm_compute |].
  vm_compute. apply list_elem_of_here.
Qed.

Lemma onehot_encode_clears_categorical_witness :
  ∃ self',
    onehot_encode Sample.scenario_with_target = (Ok RetSelf, self')
    ∧ meta self' !! "categorical" = Some (MList []).
Proof.
  destruct (onehot_encode_clears_categorical Sample.scenario_with_target)
    as (self' & Hrun & Hmeta & _).
  - reflexivity.
  - apply NoDup_unambiguous. apply (bool_decide_unpack _). vm_compute. exact I.
  - by exists self'.
Defined.

(** ** Stepwise selection *)

Lemma rmapM_cons_Ok {A B} (f : A → result B) x l ys :
  rmapM f (x :: l) = Ok ys →
  ∃ y ys', f x = Ok y ∧ rmapM f l = Ok ys' ∧ ys = y :: ys'.
Proof.
  simpl. destruct (f x) as [y|]; simpl; [| done].
  destruct (rmapM f l) as [ys'|]; simpl; [| done].
  intros [= <-]. eauto.
Qed.

Lemma loc_list_labels f labels X :
  loc_list f labels = Ok X → ∀ l, l ∈ labels → l ∈ columns f.
Proof.
  unfold loc_list.
  destruct (rmapM _ labels) as [cs|] eqn:E; simpl; [| done].
  intros _. revert cs E. induction labels as [|l' labels IH]; intros cs E l Hl.
  - by apply elem_of_nil in Hl.
  - apply rmapM_cons_Ok in E as (y & ys & Hy & Hys & ->).
    apply elem_of_cons in Hl as [->|Hl]; [| by eapply IH].
    destruct (labelled f l') as [|c cs'] eqn:El; [done |].
    assert (Hc : c ∈ labelled f l') by (rewrite El; apply list_elem_of_here).
    apply list_elem_of_filter in Hc as [<- Hc]. by apply list_elem_of_fmap_2.
Qed.

(** With a fit that labels its p-values, the backward step looks at the
    p-values of the included features and at no other. *)
Lemma backward_pvalues_labels
    (ols_pvalues : option pdobj → frame → result (list (string * pval)))
    self included pvalues :
  labelled_fit ols_pvalues →
  backward_pvalues ols_pvalues self included = Ok pvalues →
  ∀ f, f ∈ included ↔ ∃ p, (f, p) ∈ pvalues.
Proof.
  intros Hfit. unfold backward_pvalues.
  destruct (loc_list (features_of self) included) as [X|] eqn:EX; simpl; [| done].
  destruct (ols_pvalues (target self) X) as [pv|] eqn:Ep; simpl; [| done].
  intros [= <-] f.
  destruct (Hfit _ _ _ Ep) as [const Hl].
  destruct pv as [|e pv]; [done |]. injection Hl as _ Hl. simpl.
  pose proof (loc_list_labels _ _ _ EX) as Hpresent.
  rewrite loc_list_Ok in EX by done. injection EX as <-.
  unfold columns in Hl. simpl in Hl.
  change (list_fmap _ _ fst pv) with (fst <$> pv) in Hl.
  transitivity (f ∈ fst <$> pv).
  - rewrite Hl, list_elem_of_fmap. split.
    + intros Hf.
      destruct (proj1 (list_elem_of_fmap _ _ _) (Hpresent f Hf)) as (c & -> & Hc).
      exists c. split; [done |]. by apply elem_of_concat_labelled.
    + by intros (c & -> & [_ ?]%elem_of_concat_labelled).
  - rewrite list_elem_of_fmap. split.
    + intros ([l q] & -> & Hin). by exists q.
    + intros [q Hin]. by exists (f, q).
Qed.

Lemma strict_fit_labelled : labelled_fit Sample.strict_fit.
Proof.
  intros t X pvalues. unfold Sample.strict_fit.
  destruct t; [| done]. intros [= <-]. exists "const".
  unfold Sample.fit_table. simpl. f_equal.
  repeat (destruct (decide _) as [->|]; [done |]).
  rewrite <- list_fmap_compose. by rewrite list_fmap_id.
Qed.

(** *** The extreme of a series *)

Section ArgBest.

Context {L : Type}.

(** [better] decides a strict comparison whose large version is [le]. *)
Variable better : Qc → Qc → bool.
Variable le : Qc → Qc → Prop.
Hypothesis better_true : ∀ p q, better p q = true → le p q.
Hypothesis better_false : ∀ p q, better p q = false → le q p.
Hypothesis le_trans : ∀ p q r, le p q → le q r → le p r.

Lemma le_refl p : le p p.
Proof. destruct (better p p) eqn:E; [by apply better_true | by apply better_false]. Qed.

Lemma arg_best_Some (s : list (L * pval)) best l m :
  arg_best better s best = Some (l, m) →
  ((l, Some m) ∈ s ∨ best = Some (l, m))
  ∧ (∀ l' p, (l', Some p) ∈ s → le m p)
  ∧ (∀ l' q, best = Some (l', q) → le m q).
Proof.
  revert best. induction s as [|[l0 [p|]] s IH]; intros best; simpl.
  - intros ->. split; [by right |]. split.
    + by intros ? ? ?%elem_of_nil.
    + intros l' q [= -> ->]. apply le_refl.
  - destruct best as [[lb q]|].
    + destruct (better p q) eqn:E.
      * intros (Hin & Hs & Hb)%IH. split; [| split].
        -- left. destruct Hin as [Hin|[= -> ->]];
             [by apply list_elem_of_further | apply list_elem_of_here].
        -- intros l' p' [[= -> ->]|Hin']%elem_of_cons; [by eapply Hb | by eapply Hs].
        -- intros l' q' [= -> ->]. eapply le_trans; [by eapply Hb |].
           by apply better_true.
      * intros (Hin & Hs & Hb)%IH. split; [| split].
        -- destruct Hin as [Hin|Hin]; [left; by apply list_elem_of_further | by right].
        -- intros l' p' [[= -> ->]|Hin']%elem_of_cons; [| by eapply Hs].
           eapply le_trans; [by eapply Hb |]. by apply better_false.
        -- done.
    + intros (Hin & Hs & Hb)%IH. split; [| split].
      * left. destruct Hin as [Hin|[= -> ->]];
          [by apply list_elem_of_further | apply list_elem_of_here].
      * intros l' p' [[= -> ->]|Hin']%elem_of_cons; [by eapply Hb | by eapply Hs].
      * done.
  - intros (Hin & Hs & Hb)%IH. split; [| split].
    + destruct Hin as [Hin|Hin]; [left; by apply list_elem_of_further | by right].
    + intros l' p' [[=]|Hin']%elem_of_cons. by eapply Hs.
    + done.
Qed.

Lemma arg_best_None (s : list (L * pval)) best :
  arg_best better s best = None →
  best = None ∧ ∀ l p, (l, Some p) ∉ s.
Proof.
  revert best. induction s as [|[l0 [p|]] s IH]; intros best; simpl.
  - intros ->. split; [done |]. intros l p. apply not_elem_of_nil.
  - destruct best as [[lb q]|].
    + destruct (better p q); by intros [[=] _]%IH.
    + by intros [[=] _]%IH.
  - intros [-> Hs]%IH. split; [done |].
    intros l p [[=]|Hin]%elem_of_cons. by eapply Hs.
Qed.

End ArgBest.

Lemma Qc_ltb_true p q : Qc_ltb p q = true → (p ≤ q)%Qc.
Proof. unfold Qc_ltb. intros H%bool_decide_eq_true. by apply Qclt_le_weak. Qed.

Lemma Qc_ltb_false p q : Qc_ltb p q = false → (q ≤ p)%Qc.
Proof. unfold Qc_ltb. intros H%bool_decide_eq_false. by apply Qcnot_lt_le. Qed.

Lemma Qc_gtb_true p q : Qc_gtb p q = true → (q ≤ p)%Qc.
Proof. unfold Qc_gtb. intros H%bool_decide_eq_true. by apply Qclt_le_weak. Qed.

Lemma Qc_gtb_false p q : Qc_gtb p q = false → (p ≤ q)%Qc.
Proof. unfold Qc_gtb. intros H%bool_decide_eq_false. by apply Qcnot_lt_le. Qed.

(** [series.min()] is a value of the series below all the others, and
    [idxmin()] a label carrying it. *)
Lemma series_min_Some s m :
  series_min s = Some m →
  (∃ l, idxmin s = Ok l ∧ (l, Some m) ∈ s)
  ∧ ∀ l p, (l, Some p) ∈ s → (m ≤ p)%Qc.
Proof.
  unfold series_min, idxmin.
  destruct (arg_best Qc_ltb s None) as [[l m']|] eqn:E; [| done].
  intros [= ->].
  apply (arg_best_Some Qc_ltb Qcle Qc_ltb_true Qc_ltb_false Qcle_trans) in E
    as ([Hin|[=]] & Hs & _).
  split; [by exists l | done].
Qed.

Lemma series_min_None s : series_min s = None → ∀ l p, (l, Some p) ∉ s.
Proof.
  unfold series_min.
  destruct (arg_best Qc_ltb s None) as [[l m']|] eqn:E; [done |].
  intros _. by apply arg_best_None in E as [_ ?].
Qed.

(** [series.max()] is a value of the series above all the others. *)
Lemma series_max_Some s m :
  series_max s = Some m →
  (∃ l, (l, Some m) ∈ s)
  ∧ ∀ l p, (l, Some p) ∈ s → (p ≤ m)%Qc.
Proof.
  unfold series_max.
  destruct (arg_best Qc_gtb s None) as [[l m']|] eqn:E; [| done].
  intros [= ->].
  apply (arg_best_Some Qc_gtb (λ p q, (q ≤ p)%Qc) Qc_gtb_true Qc_gtb_false) in E
    as ([Hin|[=]] & Hs & _).
  - split; [by exists l | done].
  - intros p q r H1 H2. by eapply Qcle_trans.
Qed.

(** [argmax()] gives a number or raises [ValueError]; a number is in no
    list of labels. *)
Lemma argmax_raises s e : argmax s = Raise e → e = ValueError.
Proof.
  unfold argmax. destruct s as [|x s]; [by intros [= <-] |].
  by destruct (arg_best _ _ _) as [[i ?]|].
Qed.

Lemma list_remove_number i l : list_remove (PyInt i) l = Raise ValueError.
Proof.
  induction l as [|y l IH]; [done |]. cbn [list_remove].
  destruct (decide (PyStr y = PyInt i)); [done |]. by rewrite IH.
Qed.

Lemma series_max_None s : series_max s = None → ∀ l p, (l, Some p) ∉ s.
Proof.
  unfold series_max.
  destruct (arg_best Qc_gtb s None) as [[l m']|] eqn:E; [done |].
  intros _. by apply arg_best_None in E as [_ ?].
Qed.

(** The minimum does not depend on the order of the series. *)
Lemma series_min_Permutation s s' : s ≡ₚ s' → series_min s = series_min s'.
Proof.
  intros Hp.
  destruct (series_min s) as [m|] eqn:E, (series_min s') as [m'|] eqn:E'; try done.
  - apply series_min_Some in E as ((l & _ & Hin) & Hs).
    apply series_min_Some in E' as ((l' & _ & Hin') & Hs').
    f_equal. apply Qcle_antisym.
    + apply (Hs l'). by rewrite Hp.
    + apply (Hs' l). by rewrite <- Hp.
  - apply series_min_Some in E as ((l & _ & Hin) & _).
    exfalso. apply (series_min_None _ E' l m). by rewrite <- Hp.
  - apply series_min_Some in E' as ((l' & _ & Hin') & _).
    exfalso. apply (series_min_None _ E l' m'). by rewrite Hp.
Qed.

(** *** The two steps of an iteration *)

Section Steps.

Variable set_iteration : list string → list string.
Variable ols_pvalues : option pdobj → frame → result (list (string * pval)).
Variable self : Dataset.
Variables threshold_in threshold_out : Qc.

Lemma forward_step_inv included included' changed :
  forward_step set_iteration ols_pvalues self included threshold_in
    = Ok (included', changed) →
  ∃ new_pval,
    forward_pvalues set_iteration ols_pvalues self included = Ok new_pval
    ∧ if changed then
        ∃ f p, included' = included ++ [f]
               ∧ (f, Some p) ∈ new_pval
               ∧ (p < threshold_in)%Qc
               ∧ ∀ l q, (l, Some q) ∈ new_pval → (p ≤ q)%Qc
      else
        included' = included
        ∧ ∀ l q, (l, Some q) ∈ new_pval → (threshold_in ≤ q)%Qc.
Proof.
  unfold forward_step.
  destruct (forward_pvalues _ _ _ _) as [new_pval|] eqn:E; simpl; [| done].
  intros H. exists new_pval. split; [done |].
  destruct (series_min new_pval) as [m|] eqn:Em; simpl in H.
  - pose proof (series_min_Some _ _ Em) as ((f & Hf & Hin) & Hmin).
    unfold Qc_ltb in H. destruct (bool_decide_reflect (m < threshold_in)%Qc) as [Hlt|Hge].
    + rewrite Hf in H. simpl in H. injection H as <- <-.
      exists f, m. done.
    + injection H as <- <-. split; [done |]. intros l q Hq.
      eapply Qcle_trans; [by apply Qcnot_lt_le | by eapply Hmin].
  - injection H as <- <-. split; [done |]. intros l q Hq.
    by apply (series_min_None _ Em) in Hq.
Qed.

(** A backward step over a p-value above [threshold_out] raises
    [ValueError]: [included.remove] is handed the position that
    [argmax()] returns. *)
Lemma backward_step_above included pvalues f p :
  backward_pvalues ols_pvalues self included = Ok pvalues →
  (f, Some p) ∈ pvalues →
  (threshold_out < p)%Qc →
  backward_step ols_pvalues self included threshold_out = Raise ValueError.
Proof.
  intros Hp Hin Hlt. unfold backward_step. rewrite Hp. simpl.
  destruct (series_max pvalues) as [m|] eqn:Em.
  - pose proof (series_max_Some _ _ Em) as (_ & Hmax).
    simpl. unfold Qc_gtb. rewrite bool_decide_true.
    + destruct (argmax pvalues) as [i|e] eqn:Ea; simpl.
      * by rewrite list_remove_number.
      * by apply argmax_raises in Ea as ->.
    + eapply Qclt_le_trans; [exact Hlt | by eapply Hmax].
  - by apply (series_max_None _ Em) in Hin.
Qed.

(** A backward step that returns has found no p-value above
    [threshold_out] and has removed nothing. *)
Lemma backward_step_inv included included' changed :
  backward_step ols_pvalues self included threshold_out
    = Ok (included', changed) →
  included' = included ∧ changed = false
  ∧ ∃ pvalues,
      backward_pvalues ols_pvalues self included = Ok pvalues
      ∧ ∀ l q, (l, Some q) ∈ pvalues → (q ≤ threshold_out)%Qc.
Proof.
  unfold backward_step.
  destruct (backward_pvalues _ _ _) as [pvalues|] eqn:E; simpl; [| done].
  intros H.
  destruct (series_max pvalues) as [m|] eqn:Em; simpl in H.
  - pose proof (series_max_Some _ _ Em) as (_ & Hmax).
    unfold Qc_gtb in H. destruct (bool_decide_reflect (threshold_out < m)%Qc) as [Hlt|Hge].
    + destruct (argmax pvalues) as [i|e]; simpl in H; [| done].
      by rewrite list_remove_number in H.
    + injection H as <- <-. split; [done |]. split; [done |].
      exists pvalues. split; [done |]. intros l q Hq.
      eapply Qcle_trans; [by eapply Hmax | by apply Qcnot_lt_le].
  - injection H as <- <-. split; [done |]. split; [done |].
    exists pvalues. split; [done |]. intros l q Hq.
    by apply (series_max_None _ Em) in Hq.
Qed.

(** An iteration that reports no change has changed nothing in either
    step. *)
Lemma stepwise_iteration_unchanged included included' :
  stepwise_iteration set_iteration ols_pvalues self included
    threshold_in threshold_out = Ok (included', false) →
  included' = included
  ∧ forward_step set_iteration ols_pvalues self included threshold_in
    = Ok (included, false)
  ∧ backward_step ols_pvalues self included threshold_out
    = Ok (included, false).
Proof.
  unfold stepwise_iteration.
  destruct (forward_step _ _ _ _ _) as [[inc1 added]|] eqn:Ef; simpl; [| done].
  destruct (backward_step _ _ inc1 _) as [[inc2 dropped]|] eqn:Eb; simpl; [| done].
  intros [= -> [-> ->]%orb_false_elim].
  pose proof (forward_step_inv _ _ _ Ef) as (? & _ & -> & _).
  pose proof (backward_step_inv _ _ _ Eb) as (-> & _).
  done.
Qed.

(** An iteration leaves the list as it is or puts one feature at its
    end. *)
Lemma stepwise_iteration_prefix included included' changed :
  stepwise_iteration set_iteration ols_pvalues self included
    threshold_in threshold_out = Ok (included', changed) →
  included `prefix_of` included'.
Proof.
  unfold stepwise_iteration.
  destruct (forward_step _ _ _ _ _) as [[inc1 added]|] eqn:Ef; simpl; [| done].
  destruct (backward_step _ _ inc1 _) as [[inc2 dropped]|] eqn:Eb; simpl; [| done].
  intros [= <- _].
  apply backward_step_inv in Eb as (-> & _).
  apply forward_step_inv in Ef as (new_pval & _ & Hstep).
  destruct added.
  - destruct Hstep as (f & q & -> & _). by apply prefix_app_r.
  - by destruct Hstep as [-> _].
Qed.

Lemma stepwise_loop_prefix fuel included L :
  stepwise_loop set_iteration ols_pvalues fuel self included
    threshold_in threshold_out = Some (Ok L) →
  included `prefix_of` L.
Proof.
  revert included. induction fuel as [|fuel IH]; intros included; [done |].
  simpl.
  destruct (stepwise_iteration _ _ _ included _ _) as [[inc' changed]|] eqn:E;
    [| done].
  apply stepwise_iteration_prefix in E.
  destruct changed.
  - intros H%IH. by etrans.
  - by intros [= <-].
Qed.

(** What the loop returns is a list on which an iteration changes
    nothing. *)
Lemma stepwise_loop_stable fuel included L :
  stepwise_loop set_iteration ols_pvalues fuel self included
    threshold_in threshold_out = Some (Ok L) →
  stepwise_iteration set_iteration ols_pvalues self L
    threshold_in threshold_out = Ok (L, false).
Proof.
  revert included. induction fuel as [|fuel IH]; intros included; [done |].
  simpl.
  destruct (stepwise_iteration _ _ _ included _ _) as [[inc' changed]|] eqn:E;
    [| done].
  destruct changed; [by apply IH |].
  intros [= ->].
  by pose proof (stepwise_iteration_unchanged _ _ E) as (-> & _).
Qed.

End Steps.

(** C2.  With a fit that labels its p-values.  The forward step appends
    a feature only when its p-value is the minimum over all excluded
    candidates and is strictly below [threshold_in].  The backward step
    looks at the p-values of the included features; when one of them
    exceeds [threshold_out] the feature is not removed: the step raises
    [ValueError], because [included.remove] is handed the position that
    [argmax()] returns, and the call ends with that exception in the
    iteration where it happens.  When no p-value exceeds [threshold_out]
    the step leaves the list as it is.  A run that returns has removed
    nothing: the list returned begins with the initial list, no feature
    of it has a p-value above [threshold_out] in the fit on it, and no
    excluded candidate has a p-value below [threshold_in]. *)
Theorem backward_step_raises_above_threshold_out
    (set_iteration : list string → list string)
    (ols_pvalues : option pdobj → frame → result (list (string * pval)))
    (self : Dataset) (threshold_in threshold_out : Qc) :
  labelled_fit ols_pvalues →
  (∀ included included' changed,
     forward_step set_iteration ols_pvalues self included threshold_in
       = Ok (included', changed) →
     ∃ new_pval,
       forward_pvalues set_iteration ols_pvalues self included = Ok new_pval
       ∧ if changed then
           ∃ f p, included' = included ++ [f]
                  ∧ (f, Some p) ∈ new_pval
                  ∧ (p < threshold_in)%Qc
                  ∧ ∀ l q, (l, Some q) ∈ new_pval → (p ≤ q)%Qc
         else
           included' = included
           ∧ ∀ l q, (l, Some q) ∈ new_pval → (threshold_in ≤ q)%Qc)
  ∧ (∀ included pvalues,
       backward_pvalues ols_pvalues self included = Ok pvalues →
       (∀ f, f ∈ included ↔ ∃ p, (f, p) ∈ pvalues)
       ∧ ((∃ f p, (f, Some p) ∈ pvalues ∧ (threshold_out < p)%Qc) →
          backward_step ols_pvalues self included threshold_out
          = Raise ValueError)
       ∧ ((∀ f p, (f, Some p) ∈ pvalues → (p ≤ threshold_out)%Qc) →
          backward_step ols_pvalues self included threshold_out
          = Ok (included, false)))
  ∧ (∀ included included' added pvalues f p fuel,
       forward_step set_iteration ols_pvalues self included threshold_in
         = Ok (included', added) →
       backward_pvalues ols_pvalues self included' = Ok pvalues →
       (f, Some p) ∈ pvalues →
       (threshold_out < p)%Qc →
       stepwise_loop set_iteration ols_pvalues (S fuel) self included
         threshold_in threshold_out
       = Some (Raise ValueError))
  ∧ (∀ fuel initial_list L,
       stepwise_selection set_iteration ols_pvalues fuel self initial_list
         threshold_in threshold_out = Some (Ok L) →
       default [] initial_list `prefix_of` L
       ∧ (∃ pvalues,
            backward_pvalues ols_pvalues self L = Ok pvalues
            ∧ (∀ f, f ∈ L ↔ ∃ p, (f, p) ∈ pvalues)
            ∧ ∀ l q, (l, Some q) ∈ pvalues → (q ≤ threshold_out)%Qc)
       ∧ (∃ new_pval,
            forward_pvalues set_iteration ols_pvalues self L = Ok new_pval
            ∧ ∀ l q, (l, Some q) ∈ new_pval → (threshold_in ≤ q)%Qc)).
Proof.
  intros Hfit. split; [| split; [| split]].
  - intros included included' changed. apply forward_step_inv.
  - intros included pvalues Hp.
    split; [by eapply backward_pvalues_labels |]. split.
    + intros (f & p & Hin & Hlt). by eapply backward_step_above.
    + intros Hall. unfold backward_step. rewrite Hp. simpl.
      destruct (series_max pvalues) as [m|] eqn:Em; simpl; [| done].
      apply series_max_Some in Em as [[l Hl] _].
      unfold Qc_gtb. rewrite bool_decide_false; [done |].
      apply Qcle_not_lt. by eapply Hall.
  - intros included included' added pvalues f p fuel Hf Hp Hin Hlt.
    simpl. unfold stepwise_iteration. rewrite Hf. simpl.
    by rewrite (backward_step_above _ _ _ _ _ _ _ Hp Hin Hlt).
  - intros fuel initial_list L. unfold stepwise_selection.
    destruct (names (PyStr "categorical") self) as [[categorical|] ?]; [| done].
    destruct (py_len categorical) as [n|]; [| done].
    destruct (decide (n = 0)); [| done].
    intros Hloop. split; [by eapply stepwise_loop_prefix |].
    apply stepwise_loop_stable in Hloop.
    apply stepwise_iteration_unchanged in Hloop as (_ & Hf & Hb).
    apply forward_step_inv in Hf as (new_pval & Hnew & _ & Hin).
    apply backward_step_inv in Hb as (_ & _ & pvalues & Hp & Hout).
    split; [| by exists new_pval].
    exists pvalues. split; [done |]. split; [| done].
    by eapply backward_pvalues_labels.
Qed.

Lemma backward_step_raises_above_threshold_out_witness :
  stepwise_loop Sample.in_order Sample.strict_fit 1 Sample.numeric_with_target
    ["a"; "b"] Sample.threshold_in Sample.threshold_out
  = Some (Raise ValueError).
Proof.
  destruct (backward_step_raises_above_threshold_out Sample.in_order
              Sample.strict_fit Sample.numeric_with_target
              Sample.threshold_in Sample.threshold_out strict_fit_labelled)
    as (_ & _ & Hraise & _).
  apply (Hraise ["a"; "b"] ["a"; "b"] false
           [("a", Some (Sample.frac 9 10)); ("b", Some (Sample.frac 8 10))]
           "a" (Sample.frac 9 10) 0).
  - vm_compute. reflexivity.
  - vm_compute. reflexivity.
  - apply list_elem_of_here.
  - apply (bool_decide_unpack _). vm_compute. exact I.
Defined.

(** C2 on an input where the backward step has a feature to remove.
    Fitted together, [a] and [b] both have a p-value above
    [threshold_out].  The backward step removes neither: it raises
    [ValueError], and so does the call started from the list of the
    two. *)
Lemma stepwise_selection_raises_on_removal :
  (Sample.threshold_in < Sample.threshold_out)%Qc
  ∧ backward_pvalues Sample.strict_fit Sample.numeric_with_target ["a"; "b"]
    = Ok [("a", Some (Sample.frac 9 10)); ("b", Some (Sample.frac 8 10))]
  ∧ (Sample.threshold_out < Sample.frac 9 10)%Qc
  ∧ argmax [("a", Some (Sample.frac 9 10)); ("b", Some (Sample.frac 8 10))]
    = Ok 0%Z
  ∧ backward_step Sample.strict_fit Sample.numeric_with_target ["a"; "b"]
      Sample.threshold_out
    = Raise ValueError
  ∧ stepwise_selection Sample.in_order Sample.strict_fit 5
      Sample.numeric_with_target (Some ["a"; "b"])
      Sample.threshold_in Sample.threshold_out
    = Some (Raise ValueError).
Proof.
  split; [apply (bool_decide_unpack _); vm_compute; exact I |].
  split; [reflexivity |].
  split; [apply (bool_decide_unpack _); vm_compute; exact I |].
  split; [by vm_compute |]. split; by vm_compute.
Qed.

(** C3, as amended.  [stepwise_selection] fails with an assertion error
    whenever the categorical view is not empty, before any model is
    fitted: whatever the fit would do and however few turns of the loop
    are allowed.  It makes no check on the target: once the categorical
    view is empty, set target or not, its outcome is that of the
    selection loop, which hands [self.target] to the fit. *)
Theorem stepwise_selection_precondition
    (set_iteration : list string → list string)
    (ols_pvalues : option pdobj → frame → result (list (string * pval)))
    (fuel : nat) (self : Dataset) (initial_list : option (list string))
    (threshold_in threshold_out : Qc) :
  (∀ categorical,
     meta self !! "categorical" = Some (MList categorical) →
     categorical ≠ [] →
     stepwise_selection set_iteration ols_pvalues fuel self initial_list
       threshold_in threshold_out
     = Some (Raise AssertionError))
  ∧ (meta self !! "categorical" = Some (MList []) →
     stepwise_selection set_iteration ols_pvalues fuel self initial_list
       threshold_in threshold_out
     = stepwise_loop set_iteration ols_pvalues fuel self
         (default [] initial_list) threshold_in threshold_out).
Proof.
  split.
  - intros categorical Hc Hne. unfold stepwise_selection.
    rewrite (names_tag "categorical" self (MList categorical)); [| compute_done | done].
    simpl. rewrite decide_False; [done |]. by destruct categorical.
  - intros Hc. unfold stepwise_selection.
    by rewrite (names_tag "categorical" self (MList [])); [| compute_done | done].
Qed.

(** C3, as stated, fails: the target is not set and the categorical view
    is empty.  With a fit that refuses a missing target the call fails
    with the error of the fit, not with an assertion error; with a fit
    that does not look at the target it returns a list. *)
Lemma stepwise_selection_without_target :
  target Sample.numeric = None
  ∧ meta Sample.numeric !! "categorical" = Some (MList [])
  ∧ stepwise_selection Sample.in_order Sample.strict_fit 5 Sample.numeric None
      Sample.threshold_in Sample.threshold_out
    = Some (Raise LibraryError)
  ∧ stepwise_selection Sample.in_order Sample.strict_fit 5 Sample.numeric None
      Sample.threshold_in Sample.threshold_out
    ≠ Some (Raise AssertionError)
  ∧ stepwise_selection Sample.in_order Sample.lenient_fit 5 Sample.numeric None
      Sample.threshold_in Sample.threshold_out
    = Some (Ok ["b"]).
Proof.
  split; [reflexivity |]. split; [by vm_compute |].
  assert (stepwise_selection Sample.in_order Sample.strict_fit 5 Sample.numeric None
            Sample.threshold_in Sample.threshold_out
          = Some (Raise LibraryError)) as H by (by vm_compute).
  split; [done |]. split; [by rewrite H |]. by vm_compute.
Qed.

(** *** Running again from the result *)

Lemma rmapM_Permutation {A B} (f : A → result B) l l' :
  l ≡ₚ l' →
  ∀ xs, rmapM f l = Ok xs → ∃ xs', rmapM f l' = Ok xs' ∧ xs ≡ₚ xs'.
Proof.
  induction 1 as [|x l l' _ IH|x y l|l l1 l' _ IH1 _ IH2]; intros xs Hxs.
  - exists xs. done.
  - apply rmapM_cons_Ok in Hxs as (y & ys & Hy & Hys & ->).
    destruct (IH _ Hys) as (ys' & Hys' & Hp).
    exists (y :: ys'). simpl. rewrite Hy, Hys'. simpl. split; [done |].
    by constructor.
  - apply rmapM_cons_Ok in Hxs as (b & ys & Hb & Hys & ->).
    apply rmapM_cons_Ok in Hys as (a & zs & Ha & Hzs & ->).
    exists (a :: b :: zs). simpl. rewrite Ha, Hb, Hzs. simpl. split; [done |].
    apply perm_swap.
  - destruct (IH1 _ Hxs) as (ys & Hys & Hp1).
    destruct (IH2 _ Hys) as (zs & Hzs & Hp2).
    exists zs. split; [done |]. by etrans.
Qed.

(** A forward step that adds nothing adds nothing either when the set of
    excluded features is iterated in another order. *)
Lemma forward_step_order set_iteration1 set_iteration2 ols_pvalues self
    included threshold_in :
  (∀ l, set_iteration1 l ≡ₚ l) →
  (∀ l, set_iteration2 l ≡ₚ l) →
  forward_step set_iteration1 ols_pvalues self included threshold_in
    = Ok (included, false) →
  forward_step set_iteration2 ols_pvalues self included threshold_in
    = Ok (included, false).
Proof.
  intros H1 H2. unfold forward_step.
  destruct (forward_pvalues set_iteration1 _ _ _) as [new_pval|] eqn:E; simpl; [| done].
  unfold forward_pvalues in *.
  eapply rmapM_Permutation in E as (new_pval' & -> & Hp);
    [| etrans; [apply H1 | symmetry; apply H2]].
  simpl. rewrite <- (series_min_Permutation _ _ Hp).
  destruct (pval_lt (series_min new_pval) threshold_in); [| done].
  destruct (idxmin new_pval); simpl; [| done]. by intros [= _ ?].
Qed.

(** C4.  [stepwise_selection] is idempotent on its result: if a first
    run returns the list [L], a second run on the unchanged dataset with
    [initial_list = L] and the same thresholds returns [L], same members
    in the same order, in its first turn of the loop.  This holds for any
    thresholds, and whatever the orders in which the two runs iterate
    over the set of excluded features. *)
Theorem stepwise_selection_idempotent
    (set_iteration1 set_iteration2 : list string → list string)
    (ols_pvalues : option pdobj → frame → result (list (string * pval)))
    (self : Dataset) (initial_list : option (list string))
    (threshold_in threshold_out : Qc) (fuel fuel' : nat) (L : list string) :
  (∀ l, set_iteration1 l ≡ₚ l) →
  (∀ l, set_iteration2 l ≡ₚ l) →
  stepwise_selection set_iteration1 ols_pvalues fuel self initial_list
    threshold_in threshold_out = Some (Ok L) →
  0 < fuel' →
  stepwise_selection set_iteration2 ols_pvalues fuel' self (Some L)
    threshold_in threshold_out = Some (Ok L).
Proof.
  intros H1 H2 Hrun Hfuel. unfold stepwise_selection in *.
  destruct (names (PyStr "categorical") self) as [[categorical|] ?]; [| done].
  destruct (py_len categorical) as [n|]; [| done].
  destruct (decide (n = 0)); [| done].
  apply stepwise_loop_stable, stepwise_iteration_unchanged in Hrun as (_ & Hf & Hb).
  apply (forward_step_order _ set_iteration2) in Hf; [| done..].
  destruct fuel' as [|fuel']; [lia |].
  simpl. unfold stepwise_iteration. rewrite Hf. simpl. by rewrite Hb.
Qed.

Lemma stepwise_selection_idempotent_witness :
  stepwise_selection Sample.in_reverse Sample.strict_fit 1
    Sample.numeric_with_target (Some ["b"])
    Sample.threshold_in Sample.threshold_out
  = Some (Ok ["b"]).
Proof.
  apply (stepwise_selection_idempotent Sample.in_order Sample.in_reverse
           Sample.strict_fit Sample.numeric_with_target None
           Sample.threshold_in Sample.threshold_out 5 1 ["b"]).
  - intros l. reflexivity.
  - intros l. unfold Sample.in_reverse. apply reverse_Permutation.
  - vm_compute. reflexivity.
  - lia.
Defined.



(** * Further properties of the methods *)

(** ** Construction *)

Lemma metainfo_Ok s n :
  target_name_of (target s) = Ok n →
  ∃ s', metainfo s = (Ok tt, s')
        ∧ heap s' = heap s ∧ fresh s' = fresh s ∧ data s' = data s
        ∧ features s' = features s ∧ target s' = target s
        ∧ meta_current s'.
Proof.
  intros Hn.
  assert (∃ s', metainfo s = (Ok tt, s')) as [s' Hs'].
  { unfold metainfo, bind, read, lift, assign_meta. simpl. rewrite Hn. eauto. }
  exists s'. split; [done |].
  pose proof (metainfo_inv _ _ _ Hs') as (? & ? & ? & ? & ? & _).
  repeat split; try done. by eapply metainfo_current.
Qed.

(** X1.  The constructor.  Without a location and without a frame it
    raises [RuntimeError].  Given a frame of the caller, it returns: the
    raw table is that very object, the working table is a new object with
    the same contents, no target is set, [meta] is current, and the
    objects of the caller are untouched.  A location takes precedence over
    a frame: what the loader returns becomes the raw table, and an error
    of the loader is passed on. *)
Theorem init_outcomes (read_csv : string → result frame)
    (h : nat → frame) (n : nat) :
  init read_csv None None (new_self h n) = (Raise RuntimeError, new_self h n)
  ∧ (∀ r, r < n →
       ∃ s, init read_csv None (Some r) (new_self h n) = (Ok tt, s)
            ∧ data s = r ∧ features s ≠ r
            ∧ data_of s = h r ∧ features_of s = h r
            ∧ target s = None ∧ meta_current s
            ∧ ∀ r', r' < n → heap s r' = h r')
  ∧ (∀ path data_frame f, read_csv path = Ok f →
       ∃ s, init read_csv (Some path) data_frame (new_self h n) = (Ok tt, s)
            ∧ data s ≠ features s
            ∧ data_of s = f ∧ features_of s = f
            ∧ target s = None ∧ meta_current s)
  ∧ (∀ path data_frame e, read_csv path = Raise e →
       init read_csv (Some path) data_frame (new_self h n)
       = (Raise e, new_self h n)).
Proof.
  split; [reflexivity |]. split; [| split].
  - intros r Hr.
    set (s1 := MkDataset (heap_update h n (h r)) (S n) r n None ∅).
    destruct (metainfo_Ok s1 None eq_refl)
      as (s & Hm & Hh & Hfr & Hd & Hf & Ht & Hcur).
    exists s. split.
    { unfold init. erewrite bind_run; [| reflexivity].
      erewrite bind_run; [| reflexivity]. erewrite bind_run; [| reflexivity].
      erewrite bind_run; [| reflexivity]. erewrite bind_run; [| reflexivity].
      exact Hm. }
    unfold data_of, features_of. rewrite Hh, Hd, Hf, Ht. simpl.
    unfold heap_update. rewrite decide_False by lia. rewrite decide_True by done.
    repeat split; try done; try lia.
    intros r' Hr'. by rewrite decide_False by lia.
  - intros path data_frame f Hf.
    set (s1 := MkDataset (heap_update (heap_update h n f) (S n)
                            (heap_update h n f n))
                 (S (S n)) n (S n) None ∅).
    destruct (metainfo_Ok s1 None eq_refl)
      as (s & Hm & Hh & Hfr & Hd & Hfe & Ht & Hcur).
    exists s. split.
    { unfold init. erewrite bind_run.
      2:{ erewrite bind_run; [| unfold lift; rewrite Hf; reflexivity]. reflexivity. }
      erewrite bind_run; [| reflexivity]. erewrite bind_run; [| reflexivity].
      erewrite bind_run; [| reflexivity]. erewrite bind_run; [| reflexivity].
      exact Hm. }
    unfold data_of, features_of. rewrite Hh, Hd, Hfe, Ht. simpl.
    unfold heap_update. rewrite decide_False by lia. rewrite !decide_True by done.
    repeat split; try done; lia.
  - intros path data_frame e He. unfold init, bind, lift. by rewrite He.
Qed.


(** ** [set_target] *)

Lemma frame_eta f : DataFrame (df_index f) (df_cols f) = f.
Proof. by destruct f. Qed.

Lemma series_eta s : Series (s_name s) (s_dtype s) (s_values s) = s.
Proof. by destruct s. Qed.

Lemma labelled_nil f l : l ∉ columns f → labelled f l = [].
Proof.
  intros Hl. apply filter_none. intros c Hc Hname. apply Hl.
  rewrite <- Hname. by apply list_elem_of_fmap_2.
Qed.

Lemma drop_label_columns f l f' :
  drop_label f l = Ok f' → l ∉ columns f'.
Proof.
  unfold drop_label. destruct (decide (l ∈ columns f)); [| done].
  intros [= <-]. unfold columns. simpl.
  intros (c & Hname & [Hne _]%list_elem_of_filter)%list_elem_of_fmap. done.
Qed.

(** X2.  [set_target] on a feature.  When the labels of the working table
    are pairwise distinct and [c] is one of its columns, [set_target] with
    the label of [c] returns: the target is [c], the working table has
    lost that column and kept the others in order, the raw table is
    untouched and [meta] is current, with the label under ['target']. From
    then on [names('target')] gives the label, while [select('target')]
    raises [KeyError]: the column it looks for is no longer in the working
    table. *)
Theorem set_target_moves_column (self : Dataset) (c : series) :
  NoDup (columns (features_of self)) →
  c ∈ df_cols (features_of self) →
  data self ≠ features self →
  ∃ s',
    set_target (s_name c) self = (Ok RetSelf, s')
    ∧ target s' = Some (PSeries c)
    ∧ features_of s'
      = DataFrame (df_index (features_of self))
          (filter (λ c', s_name c' ≠ s_name c) (df_cols (features_of self)))
    ∧ data_of s' = data_of self
    ∧ meta_current s'
    ∧ names (PyStr "target") s' = (Ok (MName (Some (s_name c))), s')
    ∧ select (PyStr "target") s' = (Raise KeyError, s').
Proof.
  intros Hnd Hc Hne.
  set (ft := features_of self).
  set (ft' := DataFrame (df_index ft) (filter (λ c', s_name c' ≠ s_name c) (df_cols ft))).
  assert (Hin : s_name c ∈ columns ft) by (by apply list_elem_of_fmap_2).
  assert (Hloc : loc_label ft (Some (s_name c)) = Ok (PSeries c)).
  { unfold loc_label. by rewrite NoDup_labelled. }
  assert (Hdrop : drop_label ft (s_name c) = Ok ft').
  { unfold drop_label. by rewrite decide_True. }
  set (s1 := MkDataset (heap_update (heap self) (features self) ft') (fresh self)
               (data self) (features self) (Some (PSeries c)) (meta self)).
  destruct (metainfo_Ok s1 (Some (s_name c)) eq_refl)
    as (s' & Hm & Hh & Hfr & Hd & Hf & Ht & Hcur).
  assert (Hft' : features_of s' = ft').
  { unfold features_of. rewrite Hh, Hf. simpl. unfold heap_update.
    by rewrite decide_True. }
  assert (Htag : meta s' !! "target" = Some (MName (Some (s_name c)))).
  { apply meta_current_lookup in Hcur as (_ & _ & _ & _ & _ & _ & _ & n & Hn & Hl).
    rewrite Ht in Hn. simpl in Hn. by injection Hn as <-. }
  exists s'. split; [| split; [by rewrite Ht | split; [done | split; [| split; [done | split]]]]].
  - unfold set_target. erewrite bind_run; [| reflexivity].
    fold ft. rewrite decide_True by done.
    erewrite bind_run.
    2:{ erewrite bind_run; [| unfold lift; rewrite Hloc; reflexivity].
        erewrite bind_run; [| reflexivity].
        erewrite bind_run; [| unfold lift; rewrite Hdrop; reflexivity].
        reflexivity. }
    erewrite bind_run; [| exact Hm]. reflexivity.
  - unfold data_of. rewrite Hh, Hd. simpl. unfold heap_update.
    by rewrite decide_False.
  - by apply names_tag; [compute_done |].
  - unfold select, meta_getitem, bind, assert, read, ret, raise, lift. simpl.
    rewrite Htag. simpl. rewrite Hft'. unfold loc_label.
    rewrite labelled_nil; [done |].
    by eapply drop_label_columns.
Qed.

Lemma set_target_moves_column_witness :
  ∃ s', set_target "target" Sample.scenario = (Ok RetSelf, s')
        ∧ select (PyStr "target") s' = (Raise KeyError, s').
Proof.
  destruct (set_target_moves_column Sample.scenario
              (Series "target" dt_float64 [Num 1; Num 0; Num 1; Num 1]))
    as (s' & Hrun & _ & _ & _ & _ & _ & Hsel).
  - apply (bool_decide_unpack _). vm_compute. exact I.
  - apply (bool_decide_unpack _). vm_compute. exact I.
  - vm_compute. lia.
  - exists s'. split; assumption.
Defined.

(** X3.  [set_target] on a label that is not a feature.  The target is
    then looked up in the raw table: a label that is not there either
    raises [KeyError] and changes nothing; a label of one column of the
    raw table sets that column as the target and leaves both tables as
    they are.  So [set_target] can be called again with the same label
    after the target has left the working table. *)
Theorem set_target_from_data (self : Dataset) (target_name : string) :
  target_name ∉ columns (features_of self) →
  (target_name ∉ columns (data_of self) →
     set_target target_name self = (Raise KeyError, self))
  ∧ (∀ c, labelled (data_of self) target_name = [c] →
       ∃ s', set_target target_name self = (Ok RetSelf, s')
             ∧ target s' = Some (PSeries c)
             ∧ features_of s' = features_of self
             ∧ data_of s' = data_of self
             ∧ meta_current s').
Proof.
  intros Hnf. split.
  - intros Hnd. unfold set_target, bind, read, lift. simpl.
    rewrite decide_False by done. unfold bind, read, lift, loc_label. simpl.
    by rewrite labelled_nil.
  - intros c Hc.
    set (s1 := MkDataset (heap self) (fresh self) (data self) (features self)
                 (Some (PSeries c)) (meta self)).
    destruct (metainfo_Ok s1 (Some (s_name c)) eq_refl)
      as (s' & Hm & Hh & Hfr & Hd & Hf & Ht & Hcur).
    exists s'. split; [| split; [by rewrite Ht | split; [| split; [| done]]]].
    + unfold set_target. erewrite bind_run; [| reflexivity].
      rewrite decide_False by done.
      erewrite bind_run.
      2:{ erewrite bind_run; [| reflexivity].
          erewrite bind_run; [| unfold lift, loc_label; rewrite Hc; reflexivity].
          reflexivity. }
      erewrite bind_run; [| exact Hm]. reflexivity.
    + unfold features_of. by rewrite Hh, Hf.
    + unfold data_of. by rewrite Hh, Hd.
Qed.

Lemma set_target_from_data_witness :
  set_target "price" Sample.scenario = (Raise KeyError, Sample.scenario).
Proof.
  apply (set_target_from_data Sample.scenario "price").
  - apply (bool_decide_unpack _). vm_compute. exact I.
  - apply (bool_decide_unpack _). vm_compute. exact I.
Defined.

(** ** [add_column] *)

Lemma add_column_appends (self : Dataset) (serie : series) :
  meta_current self →
  s_name serie ∉ columns (features_of self) →
  length (s_values serie) = frame_len (features_of self) →
  ∃ s', add_column serie self = (Ok RetSelf, s')
        ∧ features_of s'
          = DataFrame (df_index (features_of self))
              (df_cols (features_of self) ++ [serie])
        ∧ target s' = target self
        ∧ meta_current s'
        ∧ (data self ≠ features self → data_of s' = data_of self).
Proof.
  intros Hcur Hnin Hlen.
  pose proof (meta_current_lookup _ Hcur) as (_ & _ & _ & _ & _ & Hf & _ & n & Hn & _).
  assert (Hnames : names (PyStr "features") self
                   = (Ok (MList (columns (features_of self))), self))
    by (by apply names_tag; [compute_done |]).
  set (ft' := DataFrame (df_index (features_of self))
                (df_cols (features_of self) ++ [serie])).
  set (s1 := MkDataset (heap_update (heap self) (features self) ft') (fresh self)
               (data self) (features self) (target self) (meta self)).
  destruct (metainfo_Ok s1 n Hn)
    as (s' & Hm & Hh & Hfr & Hd & Hfe & Ht & Hcur').
  exists s'. split; [| split; [| split; [by rewrite Ht | split; [done |]]]].
  - unfold add_column.
    erewrite bind_run; [| exact Hnames]. erewrite bind_run; [| reflexivity].
    rewrite decide_True by done.
    erewrite bind_run.
    2:{ erewrite bind_run; [| reflexivity].
        erewrite bind_run.
        2:{ unfold lift, setitem_col. rewrite decide_True by done.
            rewrite decide_False by done. rewrite series_eta. reflexivity. }
        erewrite bind_run; [| reflexivity]. exact Hm. }
    reflexivity.
  - unfold features_of. rewrite Hh, Hfe. simpl. unfold heap_update.
    by rewrite decide_True.
  - intros Hne. unfold data_of. rewrite Hh, Hd. simpl. unfold heap_update.
    by rewrite decide_False.
Qed.

(** X4.  On a [Dataset] whose [meta] is current, [add_column] never
    overwrites: a Series whose name is already a label of the working
    table is ignored and nothing changes.  A new name with as many values
    as the table has rows is appended as the last column; with another
    number of values the call raises [ValueError] and nothing changes. *)
Theorem add_column_outcomes (self : Dataset) (serie : series) :
  meta_current self →
  (s_name serie ∈ columns (features_of self) →
     add_column serie self = (Ok RetSelf, self))
  ∧ (s_name serie ∉ columns (features_of self) →
     length (s_values serie) ≠ frame_len (features_of self) →
     add_column serie self = (Raise ValueError, self))
  ∧ (s_name serie ∉ columns (features_of self) →
     length (s_values serie) = frame_len (features_of self) →
     ∃ s', add_column serie self = (Ok RetSelf, s')
           ∧ features_of s'
             = DataFrame (df_index (features_of self))
                 (df_cols (features_of self) ++ [serie])
           ∧ target s' = target self
           ∧ meta_current s').
Proof.
  intros Hcur.
  pose proof (meta_current_lookup _ Hcur) as (_ & _ & _ & _ & _ & Hf & _ & n & Hn & _).
  assert (Hnames : names (PyStr "features") self
                   = (Ok (MList (columns (features_of self))), self))
    by (by apply names_tag; [compute_done |]).
  split; [| split].
  - intros Hin. unfold add_column.
    erewrite bind_run; [| exact Hnames]. erewrite bind_run; [| reflexivity].
    by rewrite decide_False by (by intros ?).
  - intros Hnin Hlen. unfold add_column.
    erewrite bind_run; [| exact Hnames]. erewrite bind_run; [| reflexivity].
    rewrite decide_True by done.
    unfold bind, read, lift, setitem_col. simpl. by rewrite decide_False.
  - intros Hnin Hlen.
    destruct (add_column_appends self serie Hcur Hnin Hlen)
      as (s' & Hrun & Hft & Ht & Hcur' & _).
    by exists s'.
Qed.

Lemma add_column_outcomes_witness :
  add_column (Series "A" dt_int64 [Num 0]) Sample.scenario
  = (Ok RetSelf, Sample.scenario).
Proof.
  apply (add_column_outcomes Sample.scenario (Series "A" dt_int64 [Num 0])).
  - vm_compute. reflexivity.
  - apply (bool_decide_unpack _). vm_compute. exact I.
Defined.


(** ** [drop_columns] and [keep_columns] *)



Lemma features_written_refl s : features_written s s.
Proof. by repeat split. Qed.

Lemma features_written_trans s1 s2 s3 :
  features_written s1 s2 → features_written s2 s3 → features_written s1 s3.
Proof.
  intros (Hf & Hd & Hn & Ht & Hm & Hh) (Hf' & Hd' & Hn' & Ht' & Hm' & Hh').
  unfold features_written. rewrite Hf', Hd', Hn', Ht', Hm'.
  repeat split; try done.
  intros ref Href. rewrite Hh' by congruence. by apply Hh.
Qed.

Lemma features_written_mutate s f :
  features_written s
    (MkDataset (heap_update (heap s) (features s) f) (fresh s) (data s)
       (features s) (target s) (meta s)).
Proof.
  repeat split; try done. simpl. intros ref Href. unfold heap_update.
  by rewrite decide_False.
Qed.

Lemma features_of_mutate s f :
  features_of (MkDataset (heap_update (heap s) (features s) f) (fresh s) (data s)
                 (features s) (target s) (meta s)) = f.
Proof. unfold features_of. simpl. unfold heap_update. by rewrite decide_True. Qed.

Lemma filter_ext_elem {A} (P Q : A → Prop) `{∀ x, Decision (P x)}
    `{∀ x, Decision (Q x)} (l : list A) :
  (∀ x, x ∈ l → P x ↔ Q x) → filter P l = filter Q l.
Proof.
  induction l as [|x l IH]; [done |]. intros Hl.
  rewrite !filter_cons.
  destruct (decide (P x)) as [HP|HP], (decide (Q x)) as [HQ|HQ].
  - f_equal. apply IH. intros y Hy. by apply Hl, list_elem_of_further.
  - by apply Hl in HP; [| apply list_elem_of_here].
  - by apply Hl in HQ; [| apply list_elem_of_here].
  - apply IH. intros y Hy. by apply Hl, list_elem_of_further.
Qed.

Lemma filter_all {A} (P : A → Prop) `{∀ x, Decision (P x)} (l : list A) :
  (∀ x, x ∈ l → P x) → filter P l = l.
Proof.
  induction l as [|x l IH]; [done |]. intros Hl.
  rewrite filter_cons_True by (apply Hl, list_elem_of_here).
  f_equal. apply IH. intros y Hy. by apply Hl, list_elem_of_further.
Qed.

Lemma drop_columns_loop_step L x l s :
  meta s !! "features" = Some (MList L) →
  drop_columns_loop (x :: l) s
  = if decide (x ∈ L) then
      match drop_label (features_of s) x with
      | Ok ft' =>
          drop_columns_loop l
            (MkDataset (heap_update (heap s) (features s) ft') (fresh s) (data s)
               (features s) (target s) (meta s))
      | Raise e => (Raise e, s)
      end
    else drop_columns_loop l s.
Proof.
  intros HL. unfold drop_columns_loop at 1. cbn [for_each].
  fold (drop_columns_loop l).
  assert (Hn : names (PyStr "features") s = (Ok (MList L), s))
    by (by apply names_tag; [compute_done |]).
  unfold bind at 1. unfold bind at 1. rewrite Hn. unfold bind at 1. simpl.
  destruct (decide (x ∈ L)); [| done].
  unfold bind, read, lift, mutate_features. simpl.
  by destruct (drop_label (features_of s) x).
Qed.

(** A list without repetition is dropped label by label: the labels that
    [meta] lists as features go, the others are passed over. *)
Lemma drop_columns_loop_Ok L l s :
  meta s !! "features" = Some (MList L) →
  NoDup l →
  (∀ x, x ∈ l → x ∈ L → x ∈ columns (features_of s)) →
  ∃ s', drop_columns_loop l s = (Ok tt, s')
        ∧ features_written s s'
        ∧ features_of s'
          = DataFrame (df_index (features_of s))
              (filter (λ c, ¬ (s_name c ∈ l ∧ s_name c ∈ L))
                 (df_cols (features_of s))).
Proof.
  intros HL. revert s HL. induction l as [|x l IH]; intros s HL Hnd Hin.
  - exists s. split; [done |]. split; [apply features_written_refl |].
    rewrite <- (frame_eta (features_of s)) at 1. f_equal.
    symmetry. apply filter_all. by intros c _ [?%elem_of_nil _].
  - apply NoDup_cons in Hnd as [Hx Hnd].
    rewrite (drop_columns_loop_step L) by done.
    destruct (decide (x ∈ L)) as [HxL|HxL].
    + assert (Hxc : x ∈ columns (features_of s))
        by (apply Hin; [apply list_elem_of_here | done]).
      unfold drop_label. rewrite decide_True by done.
      set (ft' := DataFrame (df_index (features_of s))
                    (filter (λ c, s_name c ≠ x) (df_cols (features_of s)))).
      set (s1 := MkDataset (heap_update (heap s) (features s) ft') (fresh s)
                   (data s) (features s) (target s) (meta s)).
      destruct (IH s1) as (s' & Hrun & Hw & Hft); [done | done | |].
      { intros y Hy HyL. unfold s1. rewrite features_of_mutate.
        assert (Hyc : y ∈ columns (features_of s))
          by (apply Hin; [by apply list_elem_of_further | done]).
        apply list_elem_of_fmap in Hyc as (c & -> & Hc).
        apply list_elem_of_fmap. exists c. split; [done |].
        apply list_elem_of_filter. split; [| done].
        intros Heq. apply Hx. by rewrite <- Heq. }
      exists s'. split; [done |]. split.
      { eapply features_written_trans; [apply features_written_mutate | exact Hw]. }
      rewrite Hft. unfold s1. rewrite features_of_mutate. simpl. f_equal.
      rewrite list_filter_filter. apply list_filter_iff. intros c.
      rewrite elem_of_cons. split.
      * intros [Hn1 Hn2] [[Heq|Hl] HL']; [by apply Hn2 | by apply Hn1].
      * intros Hn. split.
        -- intros [Hl HL']. apply Hn. by split; [right |].
        -- intros Heq. apply Hn. split; [by left | by rewrite Heq].
    + destruct (IH s) as (s' & Hrun & Hw & Hft); [done | done | |].
      { intros y Hy HyL. apply Hin; [by apply list_elem_of_further | done]. }
      exists s'. split; [done |]. split; [done |].
      rewrite Hft. f_equal. apply list_filter_iff. intros c.
      rewrite elem_of_cons. split.
      * intros Hn [[Heq|Hl] HL']; [by rewrite Heq in HL' | by apply Hn].
      * intros Hn [Hl HL']. apply Hn. by split; [right |].
Qed.


Lemma drop_columns_unfold columns_list s :
  drop_columns columns_list s
  = match drop_columns_loop (listify columns_list) s with
    | (Ok _, s1) =>
        match metainfo s1 with
        | (Ok _, s2) => (Ok RetSelf, s2)
        | (Raise e, s2) => (Raise e, s2)
        end
    | (Raise e, s1) => (Raise e, s1)
    end.
Proof. reflexivity. Qed.

Lemma features_written_data s s' :
  features_written s s' → data s ≠ features s → data_of s' = data_of s.
Proof.
  intros (Hf & Hd & _ & _ & _ & Hh) Hne. unfold data_of. rewrite Hd. by apply Hh.
Qed.

(** A run of [drop_columns] from a state in which [meta] lists [L] as
    the features and can be recomputed. *)
Lemma drop_columns_run L n columns_list s :
  meta s !! "features" = Some (MList L) →
  target_name_of (target s) = Ok n →
  NoDup (listify columns_list) →
  (∀ x, x ∈ listify columns_list → x ∈ L → x ∈ columns (features_of s)) →
  ∃ s', drop_columns columns_list s = (Ok RetSelf, s')
        ∧ features_of s'
          = DataFrame (df_index (features_of s))
              (filter (λ c, ¬ (s_name c ∈ listify columns_list ∧ s_name c ∈ L))
                 (df_cols (features_of s)))
        ∧ target s' = target s
        ∧ (data s ≠ features s → data_of s' = data_of s)
        ∧ meta_current s'.
Proof.
  intros HL Hn Hnd Hin.
  destruct (drop_columns_loop_Ok L _ s HL Hnd Hin) as (s1 & Hrun & Hw & Hft).
  pose proof Hw as (Hf1 & Hd1 & _ & Ht1 & _ & _).
  destruct (metainfo_Ok s1 n) as (s' & Hm & Hh & _ & Hd & Hf & Ht & Hcur);
    [by rewrite Ht1 |].
  exists s'. rewrite drop_columns_unfold, Hrun, Hm.
  split; [done |]. split; [| split; [congruence | split; [| done]]].
  - unfold features_of in *. by rewrite Hh, Hf.
  - intros Hne. rewrite <- (features_written_data _ _ Hw Hne).
    unfold data_of. by rewrite Hh, Hd.
Qed.

(** X5.  [drop_columns] with a list without repetition (or a single label)
    on a [Dataset] whose [meta] is current returns: the working table has
    lost exactly the columns whose label is in the list and kept the
    others in order; a label that is not a feature is passed over
    silently.  The target and the raw table are untouched and [meta] is
    current again. *)
Theorem drop_columns_removes (self : Dataset) (columns_list : pyval) :
  meta_current self →
  NoDup (listify columns_list) →
  ∃ s', drop_columns columns_list self = (Ok RetSelf, s')
        ∧ features_of s'
          = DataFrame (df_index (features_of self))
              (filter (λ c, s_name c ∉ listify columns_list)
                 (df_cols (features_of self)))
        ∧ target s' = target self
        ∧ (data self ≠ features self → data_of s' = data_of self)
        ∧ meta_current s'.
Proof.
  intros Hcur Hnd.
  pose proof (meta_current_lookup _ Hcur) as (_ & _ & _ & _ & _ & Hf & _ & n & Hn & _).
  destruct (drop_columns_run _ n columns_list self Hf Hn Hnd) as (s' & Hrun & Hft & Hrest).
  { auto. }
  exists s'. split; [done |]. split; [| done].
  rewrite Hft. f_equal. apply filter_ext_elem. intros c Hc. split.
  - intros Hn' Hl. apply Hn'. split; [done |]. by apply list_elem_of_fmap_2.
  - by intros Hn' [Hl _].
Qed.

Lemma drop_columns_removes_witness :
  ∃ s', drop_columns (PyList ["B"; "none"]) Sample.scenario = (Ok RetSelf, s')
        ∧ columns (features_of s') = ["A"; "target"].
Proof.
  destruct (drop_columns_removes Sample.scenario (PyList ["B"; "none"]))
    as (s' & Hrun & Hft & _).
  - vm_compute. reflexivity.
  - apply (bool_decide_unpack _). vm_compute. exact I.
  - exists s'. split; [assumption |]. rewrite Hft. vm_compute. reflexivity.
Defined.

(** A label that [meta] lists as a feature and that is met when the
    working table no longer has it, or that comes twice in the list,
    makes the loop of [drop_columns] raise [KeyError], with a working
    table that has lost a column by then. *)
Lemma drop_columns_loop_Raise L l s :
  meta s !! "features" = Some (MList L) →
  (∃ x, x ∈ L
        ∧ ((x ∈ l ∧ x ∉ columns (features_of s))
           ∨ ∃ l1 l2, l = l1 ++ x :: l2 ∧ x ∈ l2)) →
  ∃ s', drop_columns_loop l s = (Raise KeyError, s')
        ∧ features_written s s'
        ∧ ∃ x, x ∈ L ∧ x ∉ columns (features_of s').
Proof.
  intros HL. revert s HL. induction l as [|x0 l IH]; intros s HL (x & HxL & Hbad).
  { destruct Hbad as [[?%elem_of_nil _]|(l1 & l2 & Hl & _)]; [done |].
    by destruct l1. }
  rewrite (drop_columns_loop_step L) by done.
  destruct (decide (x0 ∈ L)) as [Hx0L|Hx0L].
  - unfold drop_label. destruct (decide (x0 ∈ columns (features_of s))) as [Hx0|Hx0].
    + set (ft' := DataFrame (df_index (features_of s))
                    (filter (λ c, s_name c ≠ x0) (df_cols (features_of s)))).
      set (s1 := MkDataset (heap_update (heap s) (features s) ft') (fresh s)
                   (data s) (features s) (target s) (meta s)).
      assert (Hsub : ∀ y, y ∈ columns (features_of s1) → y ∈ columns (features_of s) ∧ y ≠ x0).
      { intros y. unfold s1. rewrite features_of_mutate. unfold columns. simpl.
        intros (c & -> & [Hne Hc]%list_elem_of_filter)%list_elem_of_fmap.
        split; [by apply list_elem_of_fmap_2 | done]. }
      destruct (IH s1) as (s' & Hrun & Hw & Hgone); [done | |].
      { exists x. split; [done |].
        destruct Hbad as [[Hxl Hxc]|(l1 & l2 & Hl & Hx2)].
        - left. apply elem_of_cons in Hxl as [->|Hxl]; [done |].
          split; [done |]. by intros [? _]%Hsub.
        - destruct l1 as [|y l1]; simpl in Hl; injection Hl as -> ->.
          + left. split; [done |]. by intros [_ ?]%Hsub.
          + right. by exists l1, l2. }
      exists s'. split; [done |]. split; [| done].
      eapply features_written_trans; [apply features_written_mutate | exact Hw].
    + exists s. split; [done |]. split; [apply features_written_refl |].
      by exists x0.
  - apply IH; [done |]. exists x. split; [done |].
    destruct Hbad as [[Hxl Hxc]|(l1 & l2 & Hl & Hx2)].
    + left. apply elem_of_cons in Hxl as [->|Hxl]; done.
    + destruct l1 as [|y l1]; simpl in Hl; injection Hl as -> ->; [done |].
      right. by exists l1, l2.
Qed.

(** X6.  [drop_columns] with a list in which a feature comes twice: the
    column is dropped at its first occurrence and looked for again at the
    second, because the test uses the list of features of [meta], which is
    recomputed only at the end.  The call raises [KeyError], the working
    table has lost a column, and [meta], left as it was, is no longer
    current. *)
Theorem drop_columns_repeated_label (self : Dataset) (a : string)
    (l1 l2 : list string) :
  meta_current self →
  a ∈ columns (features_of self) →
  a ∈ l2 →
  ∃ s', drop_columns (PyList (l1 ++ a :: l2)) self = (Raise KeyError, s')
        ∧ meta s' = meta self
        ∧ (∃ x, x ∈ columns (features_of self) ∧ x ∉ columns (features_of s'))
        ∧ ¬ meta_current s'.
Proof.
  intros Hcur Ha Ha2.
  pose proof (meta_current_lookup _ Hcur) as (_ & _ & _ & _ & _ & Hf & _).
  destruct (drop_columns_loop_Raise _ (l1 ++ a :: l2) self Hf)
    as (s' & Hrun & Hw & x & Hx & Hgone).
  { exists a. split; [done |]. right. by exists l1, l2. }
  pose proof Hw as (_ & _ & _ & _ & Hmeta & _).
  exists s'. rewrite drop_columns_unfold. simpl. rewrite Hrun.
  split; [done |]. split; [done |]. split; [by exists x |].
  intros (_ & _ & _ & _ & _ & Hf' & _)%meta_current_lookup.
  rewrite Hmeta, Hf in Hf'. injection Hf' as Heq. by rewrite Heq in Hx.
Qed.

Lemma drop_columns_repeated_label_witness :
  ∃ s', drop_columns (PyList ["A"; "A"]) Sample.scenario = (Raise KeyError, s')
        ∧ ¬ meta_current s'.
Proof.
  destruct (drop_columns_repeated_label Sample.scenario "A" [] ["A"])
    as (s' & Hrun & _ & _ & Hcur).
  - vm_compute. reflexivity.
  - apply (bool_decide_unpack _). vm_compute. exact I.
  - apply list_elem_of_here.
  - exists s'. split; assumption.
Defined.

(** X7.  [keep_columns] on a [Dataset] whose [meta] is current returns and
    leaves in the working table exactly the columns whose label is in
    [to_keep], in their order, whatever the order in which the set of
    labels to drop is iterated. *)
Theorem keep_columns_keeps (set_iteration : list string → list string)
    (self : Dataset) (to_keep : pyval) :
  (∀ l, set_iteration l ≡ₚ l) →
  meta_current self →
  ∃ s', keep_columns set_iteration to_keep self = (Ok RetSelf, s')
        ∧ features_of s'
          = DataFrame (df_index (features_of self))
              (filter (λ c, s_name c ∈ listify to_keep) (df_cols (features_of self)))
        ∧ target s' = target self
        ∧ meta_current s'.
Proof.
  intros Hperm Hcur.
  set (to_drop := set_iteration
                    (list_difference (remove_dups (columns (features_of self)))
                       (listify to_keep))).
  assert (Hnd : NoDup (listify (PyList to_drop))).
  { simpl. unfold to_drop. rewrite Hperm.
    apply NoDup_list_difference, NoDup_remove_dups. }
  pose proof (meta_current_lookup _ Hcur)
    as (_ & _ & _ & _ & _ & Hf & _ & n & Hn & _).
  destruct (drop_columns_run _ n (PyList to_drop) self Hf Hn Hnd)
    as (s' & Hrun & Hft & Ht & _ & Hcur'); [auto |].
  exists s'. split; [| split; [| done]].
  - unfold keep_columns. erewrite bind_run; [| reflexivity].
    fold to_drop. erewrite bind_run; [| exact Hrun]. reflexivity.
  - rewrite Hft. f_equal. apply filter_ext_elem. intros c Hc. simpl.
    unfold to_drop. rewrite Hperm, list_elem_of_difference, elem_of_remove_dups.
    assert (s_name c ∈ columns (features_of self)) by (by apply list_elem_of_fmap_2).
    split.
    + intros Hdrop. destruct (decide (s_name c ∈ listify to_keep)); [done |].
      exfalso. by apply Hdrop.
    + by intros Hk [[_ Hdrop] _].
Qed.

Lemma keep_columns_keeps_witness :
  ∃ s', keep_columns Sample.in_order (PyStr "A") Sample.scenario = (Ok RetSelf, s')
        ∧ columns (features_of s') = ["A"].
Proof.
  destruct (keep_columns_keeps Sample.in_order Sample.scenario (PyStr "A"))
    as (s' & Hrun & Hft & _).
  - intros l. reflexivity.
  - vm_compute. reflexivity.
  - exists s'. split; [assumption |]. rewrite Hft. vm_compute. reflexivity.
Defined.


(** ** [aggregate] *)


Lemma aggregate_checks_Ok col_list s :
  (∀ x, x ∈ col_list → x ∈ columns (features_of s)) →
  aggregate_checks col_list s = (Ok tt, s).
Proof.
  induction col_list as [|x l IH]; [done |]. intros Hl.
  unfold aggregate_checks. cbn [for_each]. fold (aggregate_checks l).
  unfold bind at 1. unfold bind at 1, read at 1. simpl.
  rewrite bool_decide_true by apply Hl, list_elem_of_here. simpl.
  apply IH. intros y Hy. by apply Hl, list_elem_of_further.
Qed.

Lemma aggregate_checks_Raise col_list s :
  (∃ x, x ∈ col_list ∧ x ∉ columns (features_of s)) →
  aggregate_checks col_list s = (Raise AssertionError, s).
Proof.
  induction col_list as [|x l IH]; intros (y & Hy & Hny).
  { by apply elem_of_nil in Hy. }
  unfold aggregate_checks. cbn [for_each]. fold (aggregate_checks l).
  unfold bind at 1. unfold bind at 1, read at 1. simpl.
  destruct (decide (x ∈ columns (features_of s))) as [Hx|Hx].
  - rewrite bool_decide_true by done. simpl. apply IH.
    apply elem_of_cons in Hy as [->|Hy]; [done | eauto].
  - by rewrite bool_decide_false by done.
Qed.

Lemma setitem_col_Ok f label dt vals :
  length vals = frame_len f →
  ∃ f', setitem_col f label dt vals = Ok f'
        ∧ df_index f' = df_index f
        ∧ (∀ x, x ∈ columns f → x ∈ columns f')
        ∧ (∀ c, c ∈ df_cols f' →
                c = Series label dt vals ∨ (c ∈ df_cols f ∧ s_name c ≠ label))
        ∧ Series label dt vals ∈ df_cols f'
        ∧ (∀ c, c ∈ df_cols f → s_name c ≠ label → c ∈ df_cols f').
Proof.
  intros Hlen. unfold setitem_col. rewrite decide_True by done.
  destruct (decide (label ∈ columns f)) as [Hin|Hin]; eexists; (split; [done |]);
    simpl; (split; [done |]).
  - split; [| split; [| split]].
    + intros x (c & -> & Hc)%list_elem_of_fmap. unfold columns. simpl.
      rewrite <- list_fmap_compose. apply list_elem_of_fmap. exists c.
      split; [| done]. simpl. by destruct (decide (s_name c = label)).
    + intros c (c0 & -> & Hc0)%list_elem_of_fmap.
      destruct (decide (s_name c0 = label)); [by left | by right].
    + apply list_elem_of_fmap in Hin as (c & -> & Hc).
      apply list_elem_of_fmap. exists c. by rewrite decide_True.
    + intros c Hc Hne. apply list_elem_of_fmap. exists c. by rewrite decide_False.
  - split; [| split; [| split]].
    + intros x (c & -> & Hc)%list_elem_of_fmap. unfold columns. simpl.
      rewrite fmap_app. apply elem_of_app. left. by apply list_elem_of_fmap_2.
    + intros c [Hc|Hc]%elem_of_app;
        [| apply list_elem_of_singleton in Hc as ->; by left].
      right. split; [done |]. intros <-. apply Hin. by apply list_elem_of_fmap_2.
    + apply elem_of_app. right. apply list_elem_of_here.
    + intros c Hc _. apply elem_of_app. by left.
Qed.

Section Aggregate.

Variable dataframe_dir : list string.
Variable frame_method : string → frame → result (dtype * list cell).

(** A run of [aggregate] that gets as far as the assignment. *)
Lemma aggregate_run self col_list new_column operation dt vals flag :
  meta_current self →
  operation ∈ dataframe_dir →
  (∀ x, x ∈ col_list → x ∈ columns (features_of self)) →
  NoDup col_list →
  frame_method operation
    (DataFrame (df_index (features_of self))
       (concat (labelled (features_of self) <$> col_list)))
  = Ok (dt, vals) →
  length vals = frame_len (features_of self) →
  ∃ s' ft1,
    setitem_col (features_of self) new_column dt vals = Ok ft1
    ∧ aggregate dataframe_dir frame_method col_list new_column operation flag self
      = (Ok RetSelf, s')
    ∧ features_of s'
      = (if flag
         then DataFrame (df_index (features_of self))
                (filter (λ c, s_name c ∉ col_list) (df_cols ft1))
         else ft1)
    ∧ target s' = target self
    ∧ meta_current s'.
Proof.
  intros Hcur Hop Hcols Hnd Hfm Hlen.
  pose proof (meta_current_lookup _ Hcur) as (_ & _ & _ & _ & _ & Hf & _ & n & Hn & _).
  destruct (setitem_col_Ok (features_of self) new_column dt vals Hlen)
    as (ft1 & Hset & Hidx & Hkeep & Hfrom & _).
  set (s1 := MkDataset (heap_update (heap self) (features self) ft1) (fresh self)
               (data self) (features self) (target self) (meta self)).
  assert (Hpre : ∀ k : M retval,
            aggregate dataframe_dir frame_method col_list new_column operation flag self
            = (if flag then drop_columns (PyList col_list)
               else (let! _ := metainfo in ret RetSelf)) s1).
  { intros _. unfold aggregate.
    erewrite bind_run; [| by unfold assert; rewrite bool_decide_true].
    erewrite bind_run; [| by apply aggregate_checks_Ok].
    erewrite bind_run; [| reflexivity].
    erewrite bind_run; [| unfold lift; rewrite loc_list_Ok by done; reflexivity].
    erewrite bind_run; [| unfold lift; rewrite Hfm; reflexivity].
    simpl.
    erewrite bind_run; [| unfold lift; rewrite Hset; reflexivity].
    erewrite bind_run; [| reflexivity]. reflexivity. }
  rewrite (Hpre (ret RetSelf)). clear Hpre.
  destruct flag.
  - destruct (drop_columns_run (columns (features_of self)) n (PyList col_list) s1)
      as (s' & Hrun & Hft & Ht & _ & Hcur'); [done | done | done | |].
    { intros x Hx _. unfold s1. rewrite features_of_mutate. by apply Hkeep, Hcols. }
    exists s', ft1. split; [done |]. split; [done |].
    split; [| by split].
    rewrite Hft. unfold s1. rewrite features_of_mutate, Hidx. f_equal.
    apply filter_ext_elem. intros c Hc. simpl. split.
    + intros Hn' Hl. apply Hn'. split; [done |]. by apply Hcols.
    + by intros Hn' [Hl _].
  - destruct (metainfo_Ok s1 n Hn) as (s' & Hm & Hh & _ & _ & Hfe & Ht & Hcur').
    exists s', ft1. split; [done |]. split.
    { erewrite bind_run; [| exact Hm]. reflexivity. }
    split; [| by split].
    unfold features_of. rewrite Hh, Hfe. simpl. unfold heap_update.
    by rewrite decide_True.
Qed.

(** X8.  [aggregate] checks before it computes.  An operation that is not
    an attribute of a frame, or a column of the list that is not a label
    of the working table, raises an assertion error, and nothing has been
    changed. *)
Theorem aggregate_rejects (self : Dataset) (col_list : list string)
    (new_column operation : string) (flag : bool) :
  (operation ∉ dataframe_dir →
   aggregate dataframe_dir frame_method col_list new_column operation flag self
   = (Raise AssertionError, self))
  ∧ ((∃ x, x ∈ col_list ∧ x ∉ columns (features_of self)) →
     aggregate dataframe_dir frame_method col_list new_column operation flag self
     = (Raise AssertionError, self)).
Proof.
  split.
  - intros Hop. unfold aggregate, bind, assert. by rewrite bool_decide_false.
  - intros Hbad.
    unfold aggregate.
    destruct (decide (operation ∈ dataframe_dir)) as [Hop|Hop].
    + erewrite bind_run; [| by unfold assert; rewrite bool_decide_true].
      fold (aggregate_checks col_list). unfold bind at 1.
      by rewrite (aggregate_checks_Raise col_list self Hbad).
    + unfold bind, assert. by rewrite bool_decide_false.
Qed.

(** X9.  [aggregate] with the default [drop_columns=True], a list of
    features without repetition and a new label that is not in the list:
    the call returns; the working table holds the column computed by the
    operation under the new label, has lost the columns of the list, and
    has kept every other column as it was; [meta] is current.  With
    [drop_columns=False] the columns of the list stay. *)
Theorem aggregate_replaces_columns (self : Dataset) (col_list : list string)
    (new_column operation : string) (dt : dtype) (vals : list cell)
    (flag : bool) :
  meta_current self →
  operation ∈ dataframe_dir →
  (∀ x, x ∈ col_list → x ∈ columns (features_of self)) →
  NoDup col_list →
  frame_method operation
    (DataFrame (df_index (features_of self))
       (concat (labelled (features_of self) <$> col_list)))
  = Ok (dt, vals) →
  length vals = frame_len (features_of self) →
  new_column ∉ col_list →
  ∃ s',
    aggregate dataframe_dir frame_method col_list new_column operation flag self
    = (Ok RetSelf, s')
    ∧ Series new_column dt vals ∈ df_cols (features_of s')
    ∧ (∀ c, c ∈ df_cols (features_of self) → s_name c ≠ new_column →
            c ∈ df_cols (features_of s')
            ↔ ¬ (flag = true ∧ s_name c ∈ col_list))
    ∧ (∀ c, c ∈ df_cols (features_of s') →
            c = Series new_column dt vals ∨ c ∈ df_cols (features_of self))
    ∧ meta_current s'.
Proof.
  intros Hcur Hop Hcols Hnd Hfm Hlen Hnew.
  destruct (aggregate_run self col_list new_column operation dt vals flag)
    as (s' & ft1 & Hset & Hrun & Hft & _ & Hcur'); try done.
  destruct (setitem_col_Ok (features_of self) new_column dt vals Hlen)
    as (ft1' & Hset' & Hidx & Hkeep & Hfrom & Hin & Hold).
  rewrite Hset in Hset'. injection Hset' as <-.
  exists s'. split; [done |]. rewrite Hft.
  destruct flag; simpl.
  - split; [by apply list_elem_of_filter |]. split; [| split; [| done]].
    + intros c Hc Hne. rewrite list_elem_of_filter. split.
      * by intros [? _] [_ ?].
      * intros Hl. split; [by intros ?; apply Hl | by apply Hold].
    + intros c [_ Hc]%list_elem_of_filter.
      destruct (Hfrom c Hc) as [->|[? _]]; auto.
  - split; [done |]. split; [| split; [| done]].
    + intros c Hc Hne. split; [by intros _ [? _] |]. intros _. by apply Hold.
    + intros c Hc. destruct (Hfrom c Hc) as [->|[? _]]; auto.
Qed.

(** X10.  [aggregate] with a new label that is one of the columns of the
    list and the default [drop_columns=True]: the result is written over
    that column, and then dropped with the list.  The call returns, and
    the working table has neither the columns of the list nor the result.
    *)
Theorem aggregate_drops_its_result (self : Dataset) (col_list : list string)
    (new_column operation : string) (dt : dtype) (vals : list cell) :
  meta_current self →
  operation ∈ dataframe_dir →
  (∀ x, x ∈ col_list → x ∈ columns (features_of self)) →
  NoDup col_list →
  frame_method operation
    (DataFrame (df_index (features_of self))
       (concat (labelled (features_of self) <$> col_list)))
  = Ok (dt, vals) →
  length vals = frame_len (features_of self) →
  new_column ∈ col_list →
  ∃ s',
    aggregate dataframe_dir frame_method col_list new_column operation true self
    = (Ok RetSelf, s')
    ∧ (new_column ∉ columns (features_of s'))
    ∧ features_of s'
      = DataFrame (df_index (features_of self))
          (filter (λ c, s_name c ∉ col_list) (df_cols (features_of self))).
Proof.
  intros Hcur Hop Hcols Hnd Hfm Hlen Hnew.
  destruct (aggregate_run self col_list new_column operation dt vals true)
    as (s' & ft1 & Hset & Hrun & Hft & _ & Hcur'); try done.
  exists s'. split; [done |]. rewrite Hft.
  unfold setitem_col in Hset. rewrite decide_True in Hset by done.
  rewrite decide_True in Hset by (by apply Hcols). injection Hset as <-. simpl.
  split.
  - unfold columns. simpl.
    intros (c & Hname & [Hn _]%list_elem_of_filter)%list_elem_of_fmap.
    apply Hn. by rewrite <- Hname.
  - f_equal. generalize (df_cols (features_of self)). intros cols.
    induction cols as [|c cols IH]; [done |].
    rewrite fmap_cons, !filter_cons.
    destruct (decide (s_name c = new_column)) as [Heq|Hne]; simpl.
    + rewrite decide_False by (by intros Hn; apply Hn).
      rewrite decide_False by (by intros Hn; apply Hn; rewrite Heq). done.
    + destruct (decide (s_name c ∉ col_list)); by rewrite IH.
Qed.

End Aggregate.

Lemma aggregate_replaces_columns_witness :
  ∃ s', aggregate Sample.reductions Sample.zero_rows ["a"; "b"] "s" "sum" true
          Sample.numeric = (Ok RetSelf, s')
        ∧ Series "s" dt_float64 [Num 0; Num 0; Num 0] ∈ df_cols (features_of s').
Proof.
  destruct (aggregate_replaces_columns Sample.reductions Sample.zero_rows
              Sample.numeric ["a"; "b"] "s" "sum" dt_float64
              [Num 0; Num 0; Num 0] true)
    as (s' & Hrun & Hin & _).
  - vm_compute. reflexivity.
  - apply (bool_decide_unpack _). vm_compute. exact I.
  - apply Forall_forall. apply (bool_decide_unpack _). vm_compute. exact I.
  - apply (bool_decide_unpack _). vm_compute. exact I.
  - vm_compute. reflexivity.
  - vm_compute. reflexivity.
  - apply (bool_decide_unpack _). vm_compute. exact I.
  - exists s'. split; assumption.
Defined.

Lemma aggregate_drops_its_result_witness :
  ∃ s', aggregate Sample.reductions Sample.zero_rows ["a"; "b"] "a" "sum" true
          Sample.numeric = (Ok RetSelf, s')
        ∧ columns (features_of s') = ["y"].
Proof.
  destruct (aggregate_drops_its_result Sample.reductions Sample.zero_rows
              Sample.numeric ["a"; "b"] "a" "sum" dt_float64
              [Num 0; Num 0; Num 0])
    as (s' & Hrun & _ & Hft).
  - vm_compute. reflexivity.
  - apply (bool_decide_unpack _). vm_compute. exact I.
  - apply Forall_forall. apply (bool_decide_unpack _). vm_compute. exact I.
  - apply (bool_decide_unpack _). vm_compute. exact I.
  - vm_compute. reflexivity.
  - vm_compute. reflexivity.
  - apply (bool_decide_unpack _). vm_compute. exact I.
  - exists s'. split; [assumption |]. rewrite Hft. vm_compute. reflexivity.
Defined.


(** ** Views of [meta] *)

Lemma filter_split3 {A} (P1 P2 P3 : A → Prop) `{∀ x, Decision (P1 x)}
    `{∀ x, Decision (P2 x)} `{∀ x, Decision (P3 x)} (l : list A) :
  (∀ x, (P1 x ∧ ¬ P2 x ∧ ¬ P3 x) ∨ (¬ P1 x ∧ P2 x ∧ ¬ P3 x)
        ∨ (¬ P1 x ∧ ¬ P2 x ∧ P3 x)) →
  filter P1 l ++ filter P2 l ++ filter P3 l ≡ₚ l.
Proof.
  intros Hx. induction l as [|x l IH]; [done |].
  rewrite !filter_cons.
  destruct (Hx x) as [(Ha & Hb & Hc)|[(Ha & Hb & Hc)|(Ha & Hb & Hc)]];
    destruct (decide (P1 x)), (decide (P2 x)), (decide (P3 x)); try done.
  - simpl. by rewrite IH.
  - simpl. rewrite <- Permutation_middle. by rewrite IH.
  - rewrite app_assoc, <- Permutation_middle, <- app_assoc. by rewrite IH.
Qed.

(** X11.  The views by missing values.  On a [Dataset] whose [meta] is
    current, the lists [complete], [numerical_na] and [categorical_na]
    split the columns of the working table: together they list every
    column once. With pairwise distinct labels, a column is listed in
    [complete] iff it has no missing value, in [numerical_na] iff it has
    one and is not of type [object], in [categorical_na] iff it has one
    and is. *)
Theorem meta_missing_views (self : Dataset) :
  meta_current self →
  ∃ complete numerical_na categorical_na,
    meta self !! "complete" = Some (MList complete)
    ∧ meta self !! "numerical_na" = Some (MList numerical_na)
    ∧ meta self !! "categorical_na" = Some (MList categorical_na)
    ∧ complete ++ numerical_na ++ categorical_na ≡ₚ columns (features_of self)
    ∧ (NoDup (columns (features_of self)) →
       ∀ c, c ∈ df_cols (features_of self) →
         (s_name c ∈ complete ↔ count_na c = 0)
         ∧ (s_name c ∈ numerical_na ↔ s_dtype c ≠ dt_object ∧ 0 < count_na c)
         ∧ (s_name c ∈ categorical_na ↔ s_dtype c = dt_object ∧ 0 < count_na c)).
Proof.
  intros (_ & _ & Hcna & Hnna & Hco & _)%meta_current_lookup.
  eexists _, _, _. split; [exact Hco |]. split; [exact Hnna |]. split; [exact Hcna |].
  split.
  - unfold columns. rewrite <- !fmap_app. apply fmap_Permutation.
    apply filter_split3. intros c.
    destruct (decide (count_na c = 0)) as [H0|H0];
      destruct (decide (s_dtype c = dt_object)) as [Ho|Ho]; [left|left|right;right|right;left];
      repeat split; try done; try lia; try (intros [? ?]; done || lia).
  - intros Hnd c Hc.
    assert (Hin : ∀ (P : series → Prop) `{∀ x, Decision (P x)},
              s_name c ∈ s_name <$> filter P (df_cols (features_of self)) ↔ P c).
    { intros P ?. rewrite list_elem_of_fmap. split.
      - intros (c' & Hname & [HP Hc']%list_elem_of_filter).
        by rewrite (NoDup_fmap_inj s_name _ c c' Hnd Hc Hc' Hname).
      - intros HP. exists c. split; [done |]. by apply list_elem_of_filter. }
    split; [apply (Hin (λ c, count_na c = 0)) |].
    split; [apply (Hin (λ c, s_dtype c ≠ dt_object ∧ 0 < count_na c)) |].
    apply (Hin (λ c, s_dtype c = dt_object ∧ 0 < count_na c)).
Qed.

Lemma meta_missing_views_witness :
  ∃ complete numerical_na categorical_na,
    meta Sample.scenario !! "complete" = Some (MList complete)
    ∧ meta Sample.scenario !! "numerical_na" = Some (MList numerical_na)
    ∧ meta Sample.scenario !! "categorical_na" = Some (MList categorical_na)
    ∧ complete ++ numerical_na ++ categorical_na
      ≡ₚ columns (features_of Sample.scenario).
Proof.
  destruct (meta_missing_views Sample.scenario)
    as (co & nna & cna & H1 & H2 & H3 & H4 & _).
  - vm_compute. reflexivity.
  - exists co, nna, cna. exact (conj H1 (conj H2 (conj H3 H4))).
Defined.

Lemma concat_labelled_sub f (cs : list series) :
  NoDup (columns f) →
  (∀ c, c ∈ cs → c ∈ df_cols f) →
  concat (labelled f <$> (s_name <$> cs)) = cs.
Proof.
  intros Hnd. induction cs as [|c cs IH]; [done |]. intros Hcs.
  rewrite !fmap_cons. simpl.
  rewrite NoDup_labelled by (done || apply Hcs, list_elem_of_here).
  simpl. f_equal. apply IH. intros c' Hc'. by apply Hcs, list_elem_of_further.
Qed.

Lemma select_tag_list tag l self :
  tag ∈ meta_tags → meta self !! tag = Some (MList l) →
  select (PyStr tag) self = (rmap PFrame (loc_list (features_of self) l), self).
Proof.
  intros Htag Hl.
  unfold select, meta_getitem, bind, assert, read, ret, lift. simpl.
  rewrite bool_decide_true by done. simpl. by rewrite Hl.
Qed.


Lemma select_tag_columns (self : Dataset) (tag : string) (P : series → Prop)
    `{∀ c, Decision (P c)} :
  tag ∈ meta_tags →
  NoDup (columns (features_of self)) →
  meta self !! tag
    = Some (MList (s_name <$> filter P (df_cols (features_of self)))) →
  select (PyStr tag) self
  = (Ok (PFrame (columns_where P (features_of self))), self).
Proof.
  intros Htag Hnd Hl. rewrite (select_tag_list tag _ self Htag Hl).
  f_equal. rewrite loc_list_Ok.
  - unfold rmap, columns_where. simpl. do 3 f_equal.
    apply concat_labelled_sub; [done |].
    by intros c [_ ?]%list_elem_of_filter.
  - intros l (c & -> & [_ ?]%list_elem_of_filter)%list_elem_of_fmap.
    by apply list_elem_of_fmap_2.
Qed.

(** X12.  [select] on a view.  On a [Dataset] whose [meta] is current and
    whose working table has pairwise distinct labels, [select] on each of
    the six views computed from the working table returns, and returns
    exactly the columns of that view, in the order of the table:
    ['features'] gives the whole working table, ['numerical'] the columns
    that are not of type [object], ['categorical'] those that are,
    ['complete'] those without missing values, and the two [_na] views
    those with missing values of either kind. *)
Theorem select_view (self : Dataset) :
  meta_current self →
  NoDup (columns (features_of self)) →
  let ft := features_of self in
  select (PyStr "features") self = (Ok (PFrame ft), self)
  ∧ select (PyStr "numerical") self
    = (Ok (PFrame (columns_where (λ c, s_dtype c ≠ dt_object) ft)), self)
  ∧ select (PyStr "categorical") self
    = (Ok (PFrame (columns_where (λ c, s_dtype c = dt_object) ft)), self)
  ∧ select (PyStr "complete") self
    = (Ok (PFrame (columns_where (λ c, count_na c = 0) ft)), self)
  ∧ select (PyStr "numerical_na") self
    = (Ok (PFrame (columns_where
                     (λ c, s_dtype c ≠ dt_object ∧ 0 < count_na c) ft)), self)
  ∧ select (PyStr "categorical_na") self
    = (Ok (PFrame (columns_where
                     (λ c, s_dtype c = dt_object ∧ 0 < count_na c) ft)), self).
Proof.
  intros Hcur Hnd ft.
  pose proof (meta_current_lookup _ Hcur) as (Hc & Hn & Hcna & Hnna & Hco & Hf & _).
  split; [| repeat split; apply select_tag_columns; (compute_done || assumption)].
  rewrite (select_tag_list "features" _ self ltac:(compute_done) Hf).
  f_equal. fold ft. rewrite loc_list_Ok by done. unfold rmap. simpl. do 2 f_equal.
  unfold columns. rewrite (concat_labelled_sub ft (df_cols ft)) by done.
  apply frame_eta.
Qed.

Lemma select_view_witness :
  select (PyStr "features") Sample.scenario
  = (Ok (PFrame (features_of Sample.scenario)), Sample.scenario).
Proof.
  apply (select_view Sample.scenario).
  - vm_compute. reflexivity.
  - apply (bool_decide_unpack _). vm_compute. exact I.
Defined.


(** ** [onehot_encode] on a table without categorical columns *)

(** X13.  On a [Dataset] whose [meta] is current and whose two tables are
    distinct allocated objects: when the working table has pairwise
    distinct labels and no column of type [object], [onehot_encode()]
    returns and changes no content: the new working table, a new object,
    has the same rows and the same columns in the same order, and [meta],
    the raw table and the target are the same.  So a second
    [onehot_encode()] after a first one that left pairwise distinct labels
    changes nothing. *)
Theorem onehot_encode_without_categorical (self : Dataset) :
  meta_current self →
  separate self →
  NoDup (columns (features_of self)) →
  (∀ c, c ∈ df_cols (features_of self) → s_dtype c ≠ dt_object) →
  ∃ self',
    onehot_encode self = (Ok RetSelf, self')
    ∧ features_of self' = features_of self
    ∧ features self' = fresh self
    ∧ data self' = data self
    ∧ (∀ ref, ref ≠ fresh self → heap self' ref = heap self ref)
    ∧ target self' = target self
    ∧ meta self' = meta self.
Proof.
  intros Hcur (Hlt & _ & _) Hnd Hobj.
  pose proof (meta_current_lookup _ Hcur) as (Hc & Hn & _).
  set (ft := features_of self) in *.
  rewrite (filter_none (λ c, s_dtype c = dt_object)) in Hc
    by (intros c Hin; by apply Hobj).
  rewrite (filter_all (λ c, s_dtype c ≠ dt_object)) in Hn by done.
  assert (Hloc : loc_list ft (s_name <$> df_cols ft) = Ok ft).
  { rewrite loc_list_Ok by done. f_equal.
    rewrite (concat_labelled_sub ft (df_cols ft)) by done. apply frame_eta. }
  set (s1 := MkDataset (heap_update (heap self) (fresh self) ft)
               (S (fresh self)) (data self) (fresh self) (target self) (meta self)).
  destruct (metainfo_succeeds s1 self Hcur eq_refl) as [self' Em].
  pose proof (metainfo_inv _ _ _ Em) as (Hh & _ & Hd & Hf & Ht & _).
  assert (Hft' : features_of self' = ft).
  { unfold features_of. rewrite Hh, Hf. simpl. unfold heap_update.
    by rewrite decide_True. }
  exists self'. split; [| repeat split; try done].
  - unfold onehot_encode.
    erewrite bind_run; [| by apply names_tag; [compute_done | exact Hn]].
    erewrite bind_run; [| reflexivity].
    erewrite bind_run; [| unfold lift; simpl; fold ft; rewrite Hloc; reflexivity].
    erewrite bind_run; [| by apply names_tag; [compute_done | exact Hc]].
    erewrite bind_run; [| reflexivity].
    erewrite bind_run; [| reflexivity].
    erewrite bind_run; [| reflexivity].
    erewrite bind_run; [| reflexivity].
    erewrite bind_run; [| exact Em].
    reflexivity.
  - intros ref Href. rewrite Hh. simpl. unfold heap_update.
    by rewrite decide_False.
  - apply meta_current_eq; [exact (metainfo_current _ _ Em) | done | done | | done].
    unfold data_of. rewrite Hh, Hd. simpl. unfold heap_update.
    rewrite decide_False by lia. done.
Qed.

Lemma onehot_encode_without_categorical_witness :
  ∃ self', onehot_encode Sample.numeric = (Ok RetSelf, self')
           ∧ features_of self' = features_of Sample.numeric.
Proof.
  destruct (onehot_encode_without_categorical Sample.numeric)
    as (s' & Hrun & Hft & _).
  - vm_compute. reflexivity.
  - vm_compute. lia.
  - apply (bool_decide_unpack _). vm_compute. exact I.
  - apply Forall_forall. apply (bool_decide_unpack _). vm_compute. exact I.
  - exists s'. split; assumption.
Defined.


(** ** [replace_na] on a list of labels *)


Lemma fillna_idem value c : fillna value (fillna value c) = fillna value c.
Proof.
  unfold fillna. simpl. f_equal.
  - destruct value as [| |s]; try done.
    destruct (decide (NA ∈ s_values c)) as [Hna|Hna]; [by destruct (decide _) |].
    rewrite decide_False; [done |].
    intros (y & Hy & Hin)%list_elem_of_fmap.
    by destruct (decide (y = NA)) as [->|]; [| congruence].
  - rewrite <- list_fmap_compose.
    apply list_fmap_ext. intros i x _. simpl.
    destruct (decide (x = NA)) as [->|]; [| by rewrite decide_False].
    by destruct (decide (value = NA)).
Qed.

Lemma fill_all_nil value f : fill_all [] value f = f.
Proof.
  unfold fill_all. rewrite <- (frame_eta f) at 3. f_equal.
  rewrite <- (list_fmap_id (df_cols f)) at 2.
  apply list_fmap_ext. intros i c _. rewrite decide_False; [done |].
  apply not_elem_of_nil.
Qed.

Lemma fill_all_columns l value f : columns (fill_all l value f) = columns f.
Proof.
  unfold columns, fill_all. simpl. rewrite <- list_fmap_compose.
  apply list_fmap_ext. intros i c _. simpl. by destruct (decide _).
Qed.

Lemma fill_all_cons x l value f :
  fill_all l value (fill_all [x] value f) = fill_all (x :: l) value f.
Proof.
  unfold fill_all. simpl. f_equal. rewrite <- list_fmap_compose.
  apply list_fmap_ext. intros i c _. simpl.
  destruct (decide (s_name c ∈ [x])) as [Hx|Hx].
  - apply list_elem_of_singleton in Hx.
    rewrite (decide_True (P := s_name c ∈ x :: l))
      by (rewrite Hx; apply list_elem_of_here).
    simpl. destruct (decide (s_name c ∈ l)); [apply fillna_idem | done].
  - destruct (decide (s_name c ∈ l)) as [Hl|Hl].
    + by rewrite decide_True by (by apply list_elem_of_further).
    + rewrite decide_False; [done |].
      intros [Heq|?]%elem_of_cons; [| done].
      apply Hx. rewrite Heq. apply list_elem_of_here.
Qed.

Lemma replace_na_fill_cons x l value s :
  replace_na_fill (PyList (x :: l)) value s
  = match replace_na_fill (PyStr x) value s with
    | (Ok _, s1) => replace_na_fill (PyList l) value s1
    | (Raise e, s1) => (Raise e, s1)
    end.
Proof. reflexivity. Qed.

Lemma labelled_fill_all l value f y :
  length (labelled (fill_all l value f) y) = length (labelled f y).
Proof.
  unfold labelled, fill_all. simpl.
  induction (df_cols f) as [|c cs IH]; [done |].
  rewrite fmap_cons, !filter_cons.
  assert (Hn : s_name (if decide (s_name c ∈ l) then fillna value c else c)
               = s_name c) by (by destruct (decide _)).
  rewrite Hn. destruct (decide (s_name c = y)); simpl; by rewrite IH.
Qed.

Lemma fill_all_filled l value f :
  Forall2 (λ c c', if decide (s_name c ∈ l)
                   then filled_with value c c' else c' = c)
    (df_cols f) (df_cols (fill_all l value f)).
Proof.
  unfold fill_all. simpl.
  apply Forall2_fmap_r, Forall_Forall2_diag, Forall_forall.
  intros x _. simpl. destruct (decide (s_name x ∈ l)); [| done].
  apply fillna_filled.
Qed.

Lemma replace_na_fill_str x value s :
  length (labelled (data_of s) x) = 1 →
  replace_na_fill (PyStr x) value s
  = mutate_data (fill_all [x] value (data_of s)) s.
Proof.
  intros Hone. rewrite replace_na_fill_name. unfold fillna_label.
  destruct (labelled (data_of s) x) as [|c [|c' cs]]; [done | | done].
  unfold fill_all. do 2 f_equal.
  apply list_fmap_ext. intros i c0 _.
  destruct (decide (s_name c0 = x)) as [<-|Hne].
  - by rewrite decide_True by apply list_elem_of_here.
  - rewrite decide_False; [done |]. by intros ?%list_elem_of_singleton.
Qed.

Lemma replace_na_fill_absent x value s :
  x ∉ columns (data_of s) →
  replace_na_fill (PyStr x) value s = (Raise KeyError, s).
Proof.
  intros Hx. rewrite replace_na_fill_name. unfold fillna_label.
  by rewrite labelled_nil.
Qed.

Lemma replace_na_fill_list_Ok l value s :
  (∀ x, x ∈ l → length (labelled (data_of s) x) = 1) →
  ∃ s', replace_na_fill (PyList l) value s = (Ok tt, s')
        ∧ data_of s' = fill_all l value (data_of s).
Proof.
  revert s. induction l as [|x l IH]; intros s Hl.
  - exists s. split; [done |]. by rewrite fill_all_nil.
  - rewrite replace_na_fill_cons, replace_na_fill_str
      by apply Hl, list_elem_of_here.
    set (s1 := (mutate_data (fill_all [x] value (data_of s)) s).2).
    change (mutate_data (fill_all [x] value (data_of s)) s) with (Ok tt, s1).
    assert (Hd1 : data_of s1 = fill_all [x] value (data_of s))
      by apply data_of_mutate_data.
    destruct (IH s1) as (s' & Hrun & Hd).
    { intros y Hy. rewrite Hd1, labelled_fill_all.
      by apply Hl, list_elem_of_further. }
    exists s'. split; [done |]. by rewrite Hd, Hd1, fill_all_cons.
Qed.

Lemma replace_na_fill_list_Raise l1 b l2 value s :
  (∀ x, x ∈ l1 → length (labelled (data_of s) x) = 1) →
  b ∉ columns (data_of s) →
  ∃ s', replace_na_fill (PyList (l1 ++ b :: l2)) value s = (Raise KeyError, s')
        ∧ data_of s' = fill_all l1 value (data_of s).
Proof.
  revert s. induction l1 as [|x l IH]; intros s Hl Hb.
  - exists s. rewrite app_nil_l, replace_na_fill_cons, replace_na_fill_absent
      by done.
    split; [done |]. by rewrite fill_all_nil.
  - rewrite <- app_comm_cons, replace_na_fill_cons, replace_na_fill_str
      by apply Hl, list_elem_of_here.
    set (s1 := (mutate_data (fill_all [x] value (data_of s)) s).2).
    change (mutate_data (fill_all [x] value (data_of s)) s) with (Ok tt, s1).
    assert (Hd1 : data_of s1 = fill_all [x] value (data_of s))
      by apply data_of_mutate_data.
    destruct (IH s1) as (s' & Hrun & Hd).
    { intros y Hy. rewrite Hd1, labelled_fill_all.
      by apply Hl, list_elem_of_further. }
    { by rewrite Hd1, fill_all_columns. }
    exists s'. split; [done |]. by rewrite Hd, Hd1, fill_all_cons.
Qed.

Lemma count_na_fillna value c : value ≠ NA → count_na (fillna value c) = 0.
Proof.
  intros Hv. unfold count_na, fillna. simpl.
  rewrite filter_none; [done |].
  intros x (y & -> & _)%list_elem_of_fmap.
  by destruct (decide (y = NA)).
Qed.

(** X14.  [replace_na] on a list of labels, each carried by exactly one
    column of the raw table: the call returns.  Every column of the raw
    table named in the list has its missing cells replaced by the value,
    cell by cell, and becomes an [object] column when a string has been
    written into it; the other columns are as before; a replacement
    value that is not itself missing leaves no missing value in the
    named columns.  [meta] is current again and, when the working table
    is another object than the raw table, the working table and [meta]
    are as before. *)
Theorem replace_na_fills_list (self : Dataset) (l : list string) (value : cell) :
  meta_current self →
  (∀ x, x ∈ l → length (labelled (data_of self) x) = 1) →
  ∃ self',
    replace_na (PyList l) value self = (Ok RetSelf, self')
    ∧ data_of self' = fill_all l value (data_of self)
    ∧ df_index (data_of self') = df_index (data_of self)
    ∧ Forall2 (λ c c', if decide (s_name c ∈ l)
                       then filled_with value c c' else c' = c)
        (df_cols (data_of self)) (df_cols (data_of self'))
    ∧ (value ≠ NA →
       ∀ c, c ∈ df_cols (data_of self') → s_name c ∈ l → count_na c = 0)
    ∧ meta_current self'
    ∧ (data self ≠ features self →
       features_of self' = features_of self ∧ meta self' = meta self).
Proof.
  intros Hcur Hl.
  destruct (replace_na_fill_list_Ok l value self Hl) as (s1 & Hrun & Hd1).
  pose proof (writes_data_only_replace_na_fill _ _ _ _ _ Hrun)
    as (Hd & Hf & Ht & Hm & Hh).
  destruct (metainfo_succeeds s1 self Hcur Ht) as [s2 Em].
  pose proof (metainfo_current _ _ Em) as Hcur2.
  pose proof (metainfo_inv _ _ _ Em) as (Hh2 & _ & Hd2 & Hf2 & Ht2 & _).
  assert (Hdata : data_of s2 = fill_all l value (data_of self)).
  { rewrite <- Hd1. unfold data_of. by rewrite Hh2, Hd2. }
  exists s2. rewrite replace_na_unfold, Hrun, Em.
  split; [done |]. split; [done |].
  split; [by rewrite Hdata |].
  split; [rewrite Hdata; apply fill_all_filled |].
  split; [| split; [done |]].
  - intros Hv c. rewrite Hdata. unfold fill_all. simpl.
    intros (c' & -> & Hc')%list_elem_of_fmap.
    destruct (decide (s_name c' ∈ l)); [| done].
    intros _. by apply count_na_fillna.
  - intros Hne.
    assert (Hfeat : features_of s2 = features_of self).
    { unfold features_of. rewrite Hh2, Hf2, Hf. apply Hh. congruence. }
    split; [done |].
    apply meta_current_eq; [done | done | done | | congruence].
    by rewrite Hdata, fill_all_columns.
Qed.

Lemma replace_na_fills_list_witness :
  ∃ self', replace_na (PyList ["B"; "A"]) (Str "none") Sample.scenario
           = (Ok RetSelf, self')
           ∧ data_of self'
             = fill_all ["B"; "A"] (Str "none") (data_of Sample.scenario).
Proof.
  destruct (replace_na_fills_list Sample.scenario ["B"; "A"] (Str "none"))
    as (s' & Hrun & Hd & _).
  - vm_compute. reflexivity.
  - apply Forall_forall. apply (bool_decide_unpack _). vm_compute. exact I.
  - exists s'. split; assumption.
Defined.

(** X15.  [replace_na] on a list with a label that the raw table does not
    have, the labels before it each carried by exactly one column: the
    call raises [KeyError] when it reaches that label.  The columns named
    before it in the list have been filled by then, cell by cell, and
    stay filled; every other column is as before, those named only after
    it included; [meta] is not recomputed. *)
Theorem replace_na_stops_at_missing_label (self : Dataset)
    (l1 : list string) (b : string) (l2 : list string) (value : cell) :
  (∀ x, x ∈ l1 → length (labelled (data_of self) x) = 1) →
  b ∉ columns (data_of self) →
  ∃ self',
    replace_na (PyList (l1 ++ b :: l2)) value self = (Raise KeyError, self')
    ∧ data_of self' = fill_all l1 value (data_of self)
    ∧ df_index (data_of self') = df_index (data_of self)
    ∧ Forall2 (λ c c', if decide (s_name c ∈ l1)
                       then filled_with value c c' else c' = c)
        (df_cols (data_of self)) (df_cols (data_of self'))
    ∧ (value ≠ NA →
       ∀ c, c ∈ df_cols (data_of self') → s_name c ∈ l1 → count_na c = 0)
    ∧ meta self' = meta self
    ∧ target self' = target self
    ∧ data self' = data self ∧ features self' = features self.
Proof.
  intros Hl Hb.
  destruct (replace_na_fill_list_Raise l1 b l2 value self Hl Hb) as (s1 & Hrun & Hd1).
  pose proof (writes_data_only_replace_na_fill _ _ _ _ _ Hrun)
    as (Hd & Hf & Ht & Hm & Hh).
  exists s1. rewrite replace_na_unfold, Hrun.
  split; [done |]. split; [done |].
  split; [by rewrite Hd1 |].
  split; [rewrite Hd1; apply fill_all_filled |].
  split; [| done].
  intros Hv c. rewrite Hd1. unfold fill_all. simpl.
  intros (c' & -> & Hc')%list_elem_of_fmap.
  destruct (decide (s_name c' ∈ l1)); [| done].
  intros _. by apply count_na_fillna.
Qed.

Lemma replace_na_stops_at_missing_label_witness :
  ∃ self', replace_na (PyList ["B"; "none"; "A"]) (Num 0) Sample.scenario
           = (Raise KeyError, self')
           ∧ data_of self' = fill_all ["B"] (Num 0) (data_of Sample.scenario).
Proof.
  destruct (replace_na_stops_at_missing_label Sample.scenario
              ["B"] "none" ["A"] (Num 0))
    as (s' & Hrun & Hd & _).
  - apply Forall_forall. apply (bool_decide_unpack _). vm_compute. exact I.
  - apply (bool_decide_unpack _). vm_compute. exact I.
  - exists s'. split; assumption.
Defined.


(** ** [under_represented_features] on a column without values *)

Lemma categories_all_missing c :
  Forall (λ v, v = NA) (s_values c) → categories c = [].
Proof.
  intros Hall. unfold categories. rewrite filter_none; [done |].
  intros v Hv. rewrite Forall_forall in Hall. by rewrite (Hall v Hv); intros ?.
Qed.

Lemma under_rep_loop_empty_column f threshold (cs : list series) c acc :
  NoDup (columns f) →
  (∀ x, x ∈ cs → x ∈ df_cols f) →
  c ∈ cs → categories c = [] →
  under_rep_loop f threshold (s_name <$> cs) acc = Raise IndexError.
Proof.
  intros Hnd. revert acc. induction cs as [|x cs IH]; intros acc Hcs Hc Hempty.
  - by apply elem_of_nil in Hc.
  - rewrite fmap_cons. cbn [under_rep_loop]. unfold loc_label.
    rewrite NoDup_labelled by (done || apply Hcs, list_elem_of_here).
    cbn [rbind].
    destruct (categories x) as [|v vs] eqn:Ex.
    { unfold value_counts. by rewrite Ex. }
    rewrite iloc0_value_counts by (by rewrite Ex). cbn [rbind].
    apply elem_of_cons in Hc as [->|Hc]; [congruence |].
    destruct (ratio_above _ _ _); apply IH; try done;
      intros y Hy; by apply Hcs, list_elem_of_further.
Qed.

(** X16.  On a [Dataset] whose [meta] is current and whose working table
    has pairwise distinct labels: when a column of type [object] holds
    nothing but missing values (in particular when the table has no row
    and a categorical column), [under_represented_features] raises
    [IndexError] for every threshold, and changes nothing. *)
Theorem under_represented_features_empty_column (self : Dataset)
    (threshold : float) (c : series) :
  meta_current self →
  NoDup (columns (features_of self)) →
  c ∈ df_cols (features_of self) →
  s_dtype c = dt_object →
  Forall (λ v, v = NA) (s_values c) →
  under_represented_features threshold self = (Raise IndexError, self).
Proof.
  intros Hcur Hnd Hc Hobj Hall.
  pose proof (meta_current_lookup _ Hcur) as (Hcat & _).
  unfold under_represented_features, meta_getitem, bind, read, lift, ret. simpl.
  rewrite Hcat. simpl. f_equal.
  apply (under_rep_loop_empty_column _ _ _ c); [done | | | ].
  - by intros x [_ ?]%list_elem_of_filter.
  - by apply list_elem_of_filter.
  - by apply categories_all_missing.
Qed.

Lemma under_represented_features_empty_column_witness :
  under_represented_features threshold_098 Sample.hollow
  = (Raise IndexError, Sample.hollow).
Proof.
  apply (under_represented_features_empty_column Sample.hollow threshold_098
           (Series "k" dt_object [NA; NA])).
  - vm_compute. reflexivity.
  - apply (bool_decide_unpack _). vm_compute. exact I.
  - apply (bool_decide_unpack _). vm_compute. exact I.
  - reflexivity.
  - apply (bool_decide_unpack _). vm_compute. exact I.
Defined.

(** ** [scale] and [ensure_normality] *)

Lemma setitem_cols_columns f l value :
  columns (setitem_cols f l value) = columns f.
Proof.
  unfold columns, setitem_cols. simpl. rewrite <- list_fmap_compose.
  apply list_fmap_ext. intros i c _. simpl.
  destruct (decide (s_name c ∈ l)); [| done].
  destruct (labelled value (s_name c)) as [|v vs] eqn:E; [done |].
  assert (Hv : v ∈ labelled value (s_name c)) by (rewrite E; apply list_elem_of_here).
  by apply list_elem_of_filter in Hv as [? _].
Qed.

Lemma setitem_cols_lookup f l value i c :
  df_cols f !! i = Some c → s_name c ∉ l →
  df_cols (setitem_cols f l value) !! i = Some c.
Proof.
  intros Hi Hc. unfold setitem_cols. simpl.
  rewrite list_lookup_fmap, Hi. simpl. by rewrite decide_False.
Qed.


Section Transformers.

Variable transformer : frame → result ndarray.

Lemma transform_features_inv t s u s' :
  transform_features transformer t s = (Ok u, s') →
  ∃ l, names t s = (Ok (MList l), s) ∧ view_rewritten l s s'.
Proof.
  unfold transform_features. intros H.
  apply bind_Ok in H as ([] & s1 & [-> _]%assert_inv & H).
  apply bind_Ok in H as (subset & s2 & Hsel & H).
  pose proof (read_only_select _ _ _ _ Hsel) as ->.
  destruct subset as [|sub]; [discriminate |].
  apply bind_Ok in H as (arr & s3 & [_ ->]%lift_inv & H).
  apply bind_Ok in H as (value & s4 & [_ ->]%lift_inv & H).
  apply bind_Ok in H as (key & s5 & Hkey & H).
  pose proof (read_only_names _ _ _ _ Hkey) as ->.
  destruct key as [l| |]; try discriminate.
  exists l. split; [done |].
  apply bind_Ok in H as (ft & s6 & [[= ->] ->]%read_inv & H).
  apply bind_Ok in H as ([] & s7 & [= <-] & H).
  pose proof (metainfo_current _ _ ltac:(destruct u; exact H)) as Hcur.
  apply metainfo_inv in H as (Hh & _ & Hd & Hf & Ht & _).
  simpl in *.
  assert (Hft : features_of s' = setitem_cols (features_of s) l value).
  { unfold features_of at 1. rewrite Hh, Hf. unfold heap_update.
    by rewrite decide_True. }
  unfold view_rewritten. rewrite Hft, setitem_cols_columns.
  repeat split; try done.
  - intros i c. apply setitem_cols_lookup.
  - intros ref Href. rewrite Hh. unfold heap_update. by rewrite decide_False.
Qed.

End Transformers.

(** X17.  Every call of [scale] or [ensure_normality] that returns has
    been made on a tag under which [meta] holds a list of labels, and has
    rewritten the working table in place: the table has the same row
    labels and the same column labels in the same order, every column
    whose label is not in that list is unchanged at its position, the raw
    table and the target are untouched, and [meta] is current. *)
Theorem scale_rewrites_only_the_view
    (standard_scaler power_transformer : frame → result ndarray)
    (features_of_type : pyval) (return_series : bool)
    (self : Dataset) (v : retval) (self' : Dataset) :
  scale standard_scaler features_of_type return_series self = (Ok v, self')
  ∨ ensure_normality power_transformer features_of_type return_series self
    = (Ok v, self') →
  ∃ l, names features_of_type self = (Ok (MList l), self)
       ∧ view_rewritten l self self'.
Proof.
  unfold scale, ensure_normality. intros [H|H].
  all: inv_bind H; apply transform_features_inv in H0 as (l & Hl & Hv);
    exists l; split; [done |];
    destruct return_series;
    [ inv_bind H; pose proof (read_only_features_named _ _ _ _ H0) as ->;
      by apply ret_inv in H as [_ ->]
    | by apply ret_inv in H as [_ ->] ].
Qed.

Lemma scale_rewrites_only_the_view_witness :
  ∃ l, names (PyStr "numerical") Sample.numeric = (Ok (MList l), Sample.numeric)
       ∧ view_rewritten l Sample.numeric
           (scale Sample.same_values (PyStr "numerical") false Sample.numeric).2.
Proof.
  apply (scale_rewrites_only_the_view Sample.same_values Sample.same_values
           (PyStr "numerical") false Sample.numeric RetSelf).
  left. apply run_returns. vm_compute. reflexivity.
Defined.


(** ** What [stepwise_selection] returns, and when it does not *)

Lemma rmapM_elem_of {A B} (f : A → result B) (l : list A) ys y :
  rmapM f l = Ok ys → y ∈ ys → ∃ x, x ∈ l ∧ f x = Ok y.
Proof.
  revert ys. induction l as [|x l IH]; intros ys.
  - intros [= <-] Hy. by apply elem_of_nil in Hy.
  - intros (y' & ys' & Hx & Hl & ->)%rmapM_cons_Ok [->|Hy]%elem_of_cons.
    + exists x. split; [apply list_elem_of_here | done].
    + destruct (IH _ Hl Hy) as (x' & Hin & Hx').
      exists x'. split; [by apply list_elem_of_further | done].
Qed.

Section Selection.

Variable set_iteration : list string → list string.
Variable ols_pvalues : option pdobj → frame → result (list (string * pval)).
Variable self : Dataset.
Variables threshold_in threshold_out : Qc.

Hypothesis set_iteration_members : ∀ l x, x ∈ set_iteration l → x ∈ l.

Lemma forward_pvalues_excluded included new_pval f p :
  forward_pvalues set_iteration ols_pvalues self included = Ok new_pval →
  (f, p) ∈ new_pval →
  f ∈ columns (features_of self) ∧ f ∉ included.
Proof.
  unfold forward_pvalues. intros Hrun Hin.
  destruct (rmapM_elem_of _ _ _ _ Hrun Hin) as (x & Hx & Hfx).
  apply set_iteration_members, list_elem_of_difference in Hx as [Hcol Hinc].
  rewrite elem_of_remove_dups in Hcol.
  destruct (loc_list _ _); simpl in Hfx; [| done].
  destruct (ols_pvalues _ _); simpl in Hfx; [| done].
  destruct (series_getitem _ _); simpl in Hfx; [| done].
  injection Hfx as <- _. done.
Qed.

Lemma stepwise_iteration_NoDup included included' changed :
  NoDup included →
  stepwise_iteration set_iteration ols_pvalues self included
    threshold_in threshold_out = Ok (included', changed) →
  NoDup included'.
Proof.
  intros Hnd. unfold stepwise_iteration.
  destruct (forward_step _ _ _ _ _) as [[inc1 added]|] eqn:Ef; simpl; [| done].
  destruct (backward_step _ _ inc1 _) as [[inc2 dropped]|] eqn:Eb; simpl; [| done].
  intros [= <- _].
  assert (NoDup inc1) as Hnd1.
  { apply forward_step_inv in Ef as (new_pval & Hnew & Hstep).
    destruct added.
    - destruct Hstep as (f & p & -> & Hin & _).
      apply NoDup_app. split; [done |]. split; [| apply NoDup_singleton].
      intros x Hx ->%list_elem_of_singleton.
      by destruct (forward_pvalues_excluded _ _ _ _ Hnew Hin).
    - by destruct Hstep as [-> _]. }
  by apply backward_step_inv in Eb as (-> & _).
Qed.

Lemma stepwise_loop_NoDup fuel included L :
  NoDup included →
  stepwise_loop set_iteration ols_pvalues fuel self included
    threshold_in threshold_out = Some (Ok L) →
  NoDup L.
Proof.
  revert included. induction fuel as [|fuel IH]; intros included Hnd; [done |].
  simpl.
  destruct (stepwise_iteration _ _ _ included _ _) as [[inc' changed]|] eqn:E;
    [| done].
  pose proof (stepwise_iteration_NoDup _ _ _ Hnd E) as Hnd'.
  destruct changed; [by apply IH |]. by intros [= <-].
Qed.

End Selection.

(** X18.  The list [stepwise_selection] returns.  Whatever the initial
    list, every label of a returned list is a label of the working table,
    and the categorical view was empty.  When the labels iterated in the
    forward step are labels of the set they come from and the initial list
    has no repetition, the returned list has none. *)
Theorem stepwise_selection_returns_features
    (set_iteration : list string → list string)
    (ols_pvalues : option pdobj → frame → result (list (string * pval)))
    (fuel : nat) (self : Dataset) (initial_list : option (list string))
    (threshold_in threshold_out : Qc) (L : list string) :
  stepwise_selection set_iteration ols_pvalues fuel self initial_list
    threshold_in threshold_out = Some (Ok L) →
  (∀ x, x ∈ L → x ∈ columns (features_of self))
  ∧ (∃ v, meta self !! "categorical" = Some v ∧ py_len v = Ok 0)
  ∧ ((∀ l x, x ∈ set_iteration l → x ∈ l) →
     NoDup (default [] initial_list) → NoDup L).
Proof.
  unfold stepwise_selection. intros Hrun.
  destruct (names (PyStr "categorical") self) as [[categorical|] s0] eqn:En;
    [| done].
  destruct (py_len categorical) as [n|] eqn:El; [| done].
  destruct (decide (n = 0)) as [->|]; [| done].
  split; [| split].
  - apply stepwise_loop_stable, stepwise_iteration_unchanged in Hrun
      as (_ & _ & Hb).
    apply backward_step_inv in Hb as (_ & _ & pvalues & Hp & _).
    unfold backward_pvalues in Hp.
    destruct (loc_list (features_of self) L) as [X|] eqn:EX; [| done].
    by eapply loc_list_labels.
  - exists categorical. split; [| done].
    revert En. unfold names, meta_getitem, bind, assert, read, ret, raise. simpl.
    destruct (meta self !! "categorical"); [| done]. by intros [= -> _].
  - intros Hset Hnd. by eapply stepwise_loop_NoDup.
Qed.

Lemma stepwise_selection_returns_features_witness :
  "b" ∈ columns (features_of Sample.numeric_with_target)
  ∧ NoDup ["b"].
Proof.
  destruct (stepwise_selection_returns_features Sample.in_order Sample.strict_fit 5
              Sample.numeric_with_target None Sample.threshold_in
              Sample.threshold_out ["b"])
    as (Hin & _ & Hnd).
  - vm_compute. reflexivity.
  - split.
    + apply Hin, list_elem_of_here.
    + apply Hnd; [intros l x Hx; exact Hx | apply NoDup_nil_2].
Defined.




(** ** [stepwise_selection] ends *)




Section Ends.

Variable set_iteration : list string → list string.
Variable ols_pvalues : option pdobj → frame → result (list (string * pval)).
Variable self : Dataset.
Variables threshold_in threshold_out : Qc.

Hypothesis set_iteration_members : ∀ l x, x ∈ set_iteration l → x ∈ l.



End Ends.





(** ** [select('all')] *)

Lemma loc_list_missing f labels l :
  l ∈ labels → l ∉ columns f → loc_list f labels = Raise KeyError.
Proof.
  intros Hl Hf. destruct (loc_list f labels) as [X|e] eqn:E.
  - by apply (loc_list_labels _ _ _ E) in Hl.
  - by apply loc_list_Raise in E as ->.
Qed.

(** X20.  The view ['all'] lists the labels of the raw table, and [select]
    looks them up in the working table.  On a [Dataset] whose [meta] is
    current, [select('all')] returns the columns of the working table
    under the labels of the raw table, in the order of the raw table, when
    the working table has them all; it raises [KeyError] as soon as one is
    missing there, as after [set_target] or [drop_columns]. *)
Theorem select_all_needs_every_raw_column (self : Dataset) :
  meta_current self →
  ((∀ l, l ∈ columns (data_of self) → l ∈ columns (features_of self)) →
   select (PyStr "all") self
   = (Ok (PFrame (DataFrame (df_index (features_of self))
                    (concat (labelled (features_of self)
                               <$> columns (data_of self))))), self))
  ∧ (∀ l, l ∈ columns (data_of self) → l ∉ columns (features_of self) →
     select (PyStr "all") self = (Raise KeyError, self)).
Proof.
  intros (_ & _ & _ & _ & _ & _ & Hall & _)%meta_current_lookup.
  rewrite (select_tag_list "all" _ self ltac:(compute_done) Hall).
  split.
  - intros Hl. by rewrite loc_list_Ok.
  - intros l Hd Hf. by rewrite (loc_list_missing _ _ l).
Qed.

Lemma select_all_needs_every_raw_column_witness :
  select (PyStr "all") Sample.scenario_with_target
  = (Raise KeyError, Sample.scenario_with_target).
Proof.
  apply (select_all_needs_every_raw_column Sample.scenario_with_target)
    with (l := "target").
  - vm_compute. reflexivity.
  - apply (bool_decide_unpack _). vm_compute. exact I.
  - apply (bool_decide_unpack _). vm_compute. exact I.
Defined.

(** ** What [scale] and [ensure_normality] write *)

Lemma labelled_zip_with (dt : dtype) (labels : list string)
    (cols : list (list cell)) j l col :
  NoDup labels →
  labels !! j = Some l → cols !! j = Some col →
  filter (λ c, s_name c = l) (zip_with (λ l col, Series l dt col) labels cols)
  = [Series l dt col].
Proof.
  revert cols j. induction labels as [|l' labels IH]; intros cols j Hnd Hl Hcol.
  - by rewrite lookup_nil in Hl.
  - apply NoDup_cons in Hnd as [Hl' Hnd].
    destruct cols as [|col' cols]; [by rewrite lookup_nil in Hcol |].
    simpl. destruct j as [|j]; simpl in *.
    + injection Hl as ->. injection Hcol as ->.
      rewrite filter_cons_True by done. f_equal.
      apply filter_none. intros c Hc Hname. apply Hl'. rewrite <- Hname.
      clear -Hc. revert cols Hc. induction labels as [|a labels IH]; intros cols Hc.
      * by apply elem_of_nil in Hc.
      * destruct cols as [|b cols]; [by apply elem_of_nil in Hc |].
        simpl in Hc. apply elem_of_cons in Hc as [->|Hc].
        -- apply list_elem_of_here.
        -- apply list_elem_of_further. by eapply IH.
    + rewrite filter_cons_False; [by eapply IH |].
      simpl. intros ->. apply Hl'. by eapply list_elem_of_lookup_2.
Qed.

Section Written.

Variable transformer : frame → result ndarray.

Lemma transform_features_numerical self arr :
  meta_current self →
  NoDup (columns (features_of self)) →
  transformer (columns_where (λ c, s_dtype c ≠ dt_object) (features_of self))
    = Ok arr →
  length (nd_columns arr)
    = length (filter (λ c, s_dtype c ≠ dt_object) (df_cols (features_of self))) →
  Forall (λ col, length col = frame_len (features_of self)) (nd_columns arr) →
  ∃ s',
    transform_features transformer (PyStr "numerical") self = (Ok tt, s')
    ∧ view_rewritten
        (s_name <$> filter (λ c, s_dtype c ≠ dt_object) (df_cols (features_of self)))
        self s'
    ∧ (∀ c, c ∈ df_cols (features_of self) → s_dtype c = dt_object →
            c ∈ df_cols (features_of s'))
    ∧ (∀ j c col,
         filter (λ c, s_dtype c ≠ dt_object) (df_cols (features_of self)) !! j
           = Some c →
         nd_columns arr !! j = Some col →
         Series (s_name c) (nd_dtype arr) col ∈ df_cols (features_of s')
         ∧ ∀ c', c' ∈ df_cols (features_of s') → s_name c' = s_name c →
                 c' = Series (s_name c) (nd_dtype arr) col).
Proof.
  intros Hcur Hnd Harr Hlen Hrows.
  set (ft := features_of self) in *.
  set (nums := filter (λ c, s_dtype c ≠ dt_object) (df_cols ft)) in *.
  pose proof (meta_current_lookup _ Hcur) as (_ & Hn & _).
  pose proof (select_tag_columns self "numerical" (λ c, s_dtype c ≠ dt_object)
                ltac:(compute_done) Hnd Hn) as Hsel.
  fold ft in Hsel, Hn. fold nums in Hn.
  set (value := DataFrame (df_index ft)
                  (zip_with (λ l col, Series l (nd_dtype arr) col)
                     (s_name <$> nums) (nd_columns arr))).
  assert (Hvalue : frame_of_array arr (df_index ft) (s_name <$> nums) = Ok value).
  { unfold frame_of_array. rewrite decide_True; [done |].
    split; [by rewrite length_fmap |]. exact Hrows. }
  set (s1 := (mutate_features (setitem_cols ft (s_name <$> nums) value) self).2).
  destruct (metainfo_succeeds s1 self Hcur eq_refl) as [s' Em].
  exists s'.
  assert (Hrun : transform_features transformer (PyStr "numerical") self = (Ok tt, s')).
  { unfold transform_features.
    erewrite bind_run; [| reflexivity].
    erewrite bind_run; [| exact Hsel].
    cbv iota.
    erewrite bind_run; [| unfold lift; rewrite Harr; reflexivity].
    erewrite bind_run; [| unfold lift, columns_where, columns; simpl;
                          fold nums; rewrite Hvalue; reflexivity].
    erewrite bind_run; [| by apply names_tag; [compute_done | exact Hn]].
    cbv iota.
    erewrite bind_run; [| reflexivity].
    erewrite bind_run; [| reflexivity].
    exact Em. }
  split; [done |].
  destruct (transform_features_inv _ _ _ _ _ Hrun) as (l & Hl & Hview).
  rewrite (names_tag "numerical" self _ ltac:(compute_done) Hn) in Hl.
  injection Hl as <-.
  split; [done |].
  assert (Hft' : features_of s' = setitem_cols ft (s_name <$> nums) value).
  { apply metainfo_inv in Em as (Hh & _ & _ & Hf & _).
    unfold features_of at 1. rewrite Hh, Hf. simpl. unfold heap_update.
    by rewrite decide_True. }
  assert (Hndn : NoDup (s_name <$> nums)).
  { assert (Hsub : s_name <$> nums `sublist_of` columns ft)
      by apply fmap_sublist, sublist_filter.
    by eapply sublist_NoDup. }
  assert (Hnum : ∀ c, c ∈ df_cols ft → s_name c ∈ s_name <$> nums →
                       s_dtype c ≠ dt_object).
  { intros c Hc (c' & Hname & [Hobj Hc']%list_elem_of_filter)%list_elem_of_fmap.
    by rewrite (NoDup_fmap_inj s_name _ c c' Hnd Hc Hc' Hname). }
  split.
  - intros c Hc Hobj. rewrite Hft'. unfold setitem_cols. simpl.
    apply list_elem_of_fmap. exists c. split; [| done].
    rewrite decide_False; [done |]. intros Hin. by apply (Hnum c Hc Hin).
  - intros j c col Hj Hcol.
    assert (Hc : c ∈ nums) by (by eapply list_elem_of_lookup_2).
    pose proof Hc as [Hobj Hcft]%list_elem_of_filter.
    assert (Hlab : labelled value (s_name c) = [Series (s_name c) (nd_dtype arr) col]).
    { unfold labelled, value. simpl. apply (labelled_zip_with _ _ _ j); [done | | done].
      by rewrite list_lookup_fmap, Hj. }
    rewrite Hft'. unfold setitem_cols. simpl. split.
    + apply list_elem_of_fmap. exists c. split; [| done].
      rewrite decide_True by (by apply list_elem_of_fmap_2).
      by rewrite Hlab.
    + intros c' (c0 & -> & Hc0)%list_elem_of_fmap Hname.
      destruct (decide (s_name c0 ∈ s_name <$> nums)) as [Hin|Hout].
      * assert (s_name c0 = s_name c) as Heq.
        { destruct (labelled value (s_name c0)) as [|v vs] eqn:Ev; [done |].
          assert (Hv : v ∈ labelled value (s_name c0))
            by (rewrite Ev; apply list_elem_of_here).
          apply list_elem_of_filter in Hv as [Hv _]. congruence. }
        by rewrite Heq, Hlab.
      * exfalso. apply Hout. rewrite Hname. by apply list_elem_of_fmap_2.
Qed.

End Written.

Lemma features_named_select tag self :
  features_named (PyStr tag) self = select (PyStr tag) self.
Proof.
  unfold features_named, select, names, meta_getitem, bind, assert, read, lift,
    ret, raise. simpl.
  destruct (bool_decide (tag ∈ meta_tags)); [| done]. simpl.
  by destruct (meta self !! tag).
Qed.

(** X21.  [scale()] and [ensure_normality()] on the numerical view.  On a
    [Dataset] whose [meta] is current and whose working table has pairwise
    distinct labels, when the transformer returns an array with one column
    per numerical column and one row per row of the table, both methods
    return, [scale] handing back [self] and [ensure_normality] nothing, or
    with [return_series] both the numerical view of the new table.  The
    working table is rewritten in place: the column at position [j] of the
    numerical view now holds column [j] of the array, under its label and
    with the type of the array; the columns of type [object] are as
    before; labels and rows are as before. *)
Theorem scale_writes_the_array (transformer : frame → result ndarray)
    (self : Dataset) (arr : ndarray) (return_series : bool) :
  meta_current self →
  NoDup (columns (features_of self)) →
  transformer (columns_where (λ c, s_dtype c ≠ dt_object) (features_of self))
    = Ok arr →
  length (nd_columns arr)
    = length (filter (λ c, s_dtype c ≠ dt_object) (df_cols (features_of self))) →
  Forall (λ col, length col = frame_len (features_of self)) (nd_columns arr) →
  ∃ s' v v',
    scale transformer (PyStr "numerical") return_series self = (Ok v, s')
    ∧ ensure_normality transformer (PyStr "numerical") return_series self
      = (Ok v', s')
    ∧ (if return_series
       then ∃ o, v = RetObj o ∧ v' = RetObj o
                 ∧ select (PyStr "numerical") s' = (Ok o, s')
       else v = RetSelf ∧ v' = RetNone)
    ∧ view_rewritten
        (s_name <$> filter (λ c, s_dtype c ≠ dt_object) (df_cols (features_of self)))
        self s'
    ∧ (∀ c, c ∈ df_cols (features_of self) → s_dtype c = dt_object →
            c ∈ df_cols (features_of s'))
    ∧ (∀ j c col,
         filter (λ c, s_dtype c ≠ dt_object) (df_cols (features_of self)) !! j
           = Some c →
         nd_columns arr !! j = Some col →
         Series (s_name c) (nd_dtype arr) col ∈ df_cols (features_of s')
         ∧ ∀ c', c' ∈ df_cols (features_of s') → s_name c' = s_name c →
                 c' = Series (s_name c) (nd_dtype arr) col).
Proof.
  intros Hcur Hnd Harr Hlen Hrows.
  destruct (transform_features_numerical transformer self arr Hcur Hnd Harr Hlen Hrows)
    as (s' & Hrun & Hview & Hobj & Hnum).
  pose proof Hview as (Hcols & _ & _ & _ & _ & _ & _ & Hcur').
  assert (Hnd' : NoDup (columns (features_of s'))) by (by rewrite Hcols).
  pose proof (meta_current_lookup _ Hcur') as (_ & Hn' & _).
  pose proof (select_tag_columns s' "numerical" (λ c, s_dtype c ≠ dt_object)
                ltac:(compute_done) Hnd' Hn') as Hsel.
  unfold scale, ensure_normality.
  destruct return_series.
  - eexists s', _, _. split; [| split; [| split; [| done]]].
    + erewrite bind_run; [| exact Hrun].
      erewrite bind_run; [| rewrite features_named_select; exact Hsel]. reflexivity.
    + erewrite bind_run; [| exact Hrun].
      erewrite bind_run; [| rewrite features_named_select; exact Hsel]. reflexivity.
    + eexists. split; [done |]. split; [done |]. exact Hsel.
  - exists s', RetSelf, RetNone. split; [| split; [| done]].
    + by erewrite bind_run; [| exact Hrun].
    + by erewrite bind_run; [| exact Hrun].
Qed.

Lemma scale_writes_the_array_witness :
  ∃ s' v v',
    scale Sample.same_values (PyStr "numerical") true Sample.scenario = (Ok v, s')
    ∧ ensure_normality Sample.same_values (PyStr "numerical") true Sample.scenario
      = (Ok v', s')
    ∧ ∃ o, v = RetObj o ∧ v' = RetObj o
           ∧ select (PyStr "numerical") s' = (Ok o, s').
Proof.
  destruct (scale_writes_the_array Sample.same_values Sample.scenario
              (NdArray dt_float64 [[Num 1; Num 2; Num 3; Num 4];
                                   [Num 1; Num 0; Num 1; Num 1]]) true)
    as (s' & v & v' & Hs & He & Hv & _).
  - vm_compute. reflexivity.
  - apply (bool_decide_unpack _). vm_compute. exact I.
  - vm_compute. reflexivity.
  - vm_compute. reflexivity.
  - apply (bool_decide_unpack _). vm_compute. exact I.
  - exists s', v, v'. exact (conj Hs (conj He Hv)).
Defined.


(** ** [table] *)


Lemma length_append (a b : string) :
  String.length (a +:+ b) = String.length a + String.length b.
Proof. induction a as [|c a IH]; simpl; [done | by rewrite IH]. Qed.

Lemma length_times s n : String.length (times s n) = n * String.length s.
Proof. induction n as [|n IH]; simpl; [done |]. by rewrite length_append, IH. Qed.

Lemma length_ljust w s :
  (String.length s ≤ w)%nat → String.length (ljust w s) = w.
Proof.
  intros Hs. unfold ljust. rewrite length_append, length_times. simpl. lia.
Qed.

Lemma length_format_row w args :
  Forall (λ a, (String.length a ≤ w)%nat) args →
  String.length (format_row w args) = length args * w.
Proof.
  induction 1 as [|a args Ha _ IH]; [done |].
  simpl. rewrite length_append, length_ljust, IH by done. lia.
Qed.

Lemma take_take_drop {A} (l : list A) p a b :
  take a (drop p l) ++ take b (drop (p + a) l) = take (a + b) (drop p l).
Proof.
  rewrite <- drop_drop. generalize (drop p l). clear l p. intros l.
  revert l. induction a as [|a IH]; intros l; [by rewrite drop_0 |].
  destruct l as [|x l]; [by rewrite drop_nil, !take_nil |].
  simpl. f_equal. apply IH.
Qed.

Lemma concat_chunks l mf k t :
  concat (chunk l mf <$> seq k t)
  = take (min (length l) ((k + t) * mf) - k * mf) (drop (k * mf) l).
Proof.
  revert k. induction t as [|t IH]; intros k.
  - simpl. replace (_ - _) with 0 by lia. done.
  - simpl. rewrite IH. unfold chunk.
    destruct (decide (length l < k * mf + mf)%nat) as [Hlt|Hge].
    + replace (min (length l) ((S k + t) * mf) - S k * mf) with 0 by lia.
      rewrite take_0, app_nil_r. f_equal. lia.
    + replace (S k * mf) with (k * mf + (min (length l) (k * mf + mf) - k * mf))
        by lia.
      rewrite take_take_drop. f_equal. lia.
Qed.

Lemma table_rows_items v mf w turns :
  (∀ d, v ≠ MDescr d) →
  table_rows v (length (py_items v)) mf w turns
  = (format_row w <$> (chunk (py_items v) mf <$> turns), None).
Proof.
  intros Hv. set (l := py_items v).
  assert (Hslice : ∀ i j, slice_args v i j = take (j - i) (drop i l))
    by (by destruct v as [| |d]; [| | destruct (Hv d)]).
  induction turns as [|i turns IH]; [done |].
  cbn [table_rows]. rewrite IH. unfold format_fields. rewrite Hslice.
  set (to_idx := if decide (length l < i * mf + mf)%nat then length l else i * mf + mf).
  assert (to_idx = min (length l) (i * mf + mf)) as ->
    by (unfold to_idx; destruct (decide _); lia).
  rewrite decide_True by (rewrite length_take, length_drop; lia).
  rewrite take_take, Nat.min_id. done.
Qed.

Lemma ceil_div_turns (n mf : nat) :
  (0 < n)%nat → (0 < mf)%nat →
  ∃ t, Z.to_nat (ceil_div (Z.of_nat n) (Z.of_nat mf)) = S t
       ∧ (t * mf < n)%nat ∧ (n ≤ S t * mf)%nat.
Proof.
  intros Hn Hmf. unfold ceil_div.
  exists (Z.to_nat (- (- Z.of_nat n) `div` Z.of_nat mf)%Z - 1).
  assert (∃ q : Z, ((- Z.of_nat n) `div` Z.of_nat mf)%Z = q
                   ∧ (Z.of_nat mf * q ≤ - Z.of_nat n < Z.of_nat mf * q + Z.of_nat mf)%Z)
    as (q & -> & Hq).
  { eexists. split; [done |].
    pose proof (Z.div_mod (- Z.of_nat n)%Z (Z.of_nat mf) ltac:(lia)).
    pose proof (Z.mod_pos_bound (- Z.of_nat n)%Z (Z.of_nat mf) ltac:(lia)). lia. }
  assert (q < 0)%Z by nia.
  split; [lia |]. split; nia.
Qed.

Lemma table_names tag self v :
  tag ∈ meta_tags → meta self !! tag = Some v →
  (let! _ := assert (in_meta_tags (PyStr tag)) in names (PyStr tag)) self
  = (Ok v, self).
Proof.
  intros Htag Hv. erewrite bind_run; [by apply names_tag |].
  unfold assert, in_meta_tags. by rewrite bool_decide_true.
Qed.

Lemma table_prints_items self tag v max_width :
  tag ∈ meta_tags →
  meta self !! tag = Some v →
  (∀ d, v ≠ MDescr d) →
  py_len v = Ok (length (py_items v)) →
  py_items v ≠ [] →
  (Z.of_nat (max_list (String.length <$> py_items v)) < max_width)%Z →
  let col_width := S (max_list (String.length <$> py_items v)) in
  ∃ rule chunks,
    table (PyStr tag) max_width self
    = (rule :: (format_row col_width <$> chunks) ++ [rule], None)
    ∧ concat chunks = py_items v
    ∧ (Z.of_nat (String.length rule) < max_width)%Z
    ∧ Forall (λ names,
                names ≠ []
                ∧ String.length (format_row col_width names)
                  = length names * col_width
                ∧ (Z.of_nat (length names * col_width) ≤ max_width)%Z) chunks.
Proof.
  intros Htag Hl Hv Hlen Hne Hwide col_width.
  set (l := py_items v) in *.
  set (ml := max_list (String.length <$> l)) in *.
  set (mf := (max_width `div` (Z.of_nat ml + 1))%Z).
  assert (Hmf : (0 < mf ∧ mf * (Z.of_nat ml + 1) ≤ max_width)%Z).
  { unfold mf.
    pose proof (Z.div_mod max_width (Z.of_nat ml + 1) ltac:(lia)).
    pose proof (Z.mod_pos_bound max_width (Z.of_nat ml + 1) ltac:(lia)).
    split; [| lia]. apply Z.div_str_pos. lia. }
  destruct Hmf as [Hpos Hfit].
  assert (Hn : (0 < length l)%nat) by (destruct l; [done | simpl; lia]).
  assert (Hmax : py_max (String.length <$> l) = Ok ml) by (by destruct l).
  destruct (ceil_div_turns (length l) (Z.to_nat mf) Hn ltac:(lia))
    as (t & Ht & Hlow & Hhigh).
  rewrite Z2Nat.id in Ht by lia.
  eexists _, (chunk l (Z.to_nat mf) <$> seq 0 (S t)).
  split; [| split; [| split]].
  - unfold table.
    rewrite (table_names tag self _ Htag Hl), Hlen. fold l.
    rewrite decide_False by lia.
    rewrite Hmax. cbv zeta. fold mf.
    rewrite decide_False by lia.
    rewrite Ht. unfold l at 1. rewrite table_rows_items by done. fold l.
    replace (ml + 1) with col_width by (unfold col_width; lia).
    reflexivity.
  - rewrite concat_chunks. simpl. rewrite drop_0, take_ge; [done | lia].
  - rewrite length_times. simpl. nia.
  - apply Forall_fmap, Forall_forall. intros i Hi%elem_of_seq. simpl.
    assert (Hcl : length (chunk l (Z.to_nat mf) i)
                  = min (length l) (i * Z.to_nat mf + Z.to_nat mf) - i * Z.to_nat mf).
    { unfold chunk. rewrite length_take, length_drop. lia. }
    assert (i * Z.to_nat mf < length l)%nat by nia.
    split; [| split].
    + intros Hnil. rewrite Hnil in Hcl. simpl in Hcl. lia.
    + apply length_format_row, Forall_forall. intros a Ha.
      assert (a ∈ l) as Hal.
      { unfold chunk in Ha.
        eapply elem_of_sublist; [exact Ha |].
        etrans; [apply sublist_take | apply sublist_drop]. }
      unfold col_width.
      pose proof (max_list_elem_of_le (String.length a) (String.length <$> l)
                    ltac:(by apply list_elem_of_fmap_2)) as Hle.
      fold ml in Hle. lia.
    + rewrite Hcl. unfold col_width. nia.
Qed.

(** X22.  [table] on a view that holds names, wide enough for the longest
    of them.  The call returns after printing a rule, the names and the
    same rule again.  The names come in the order of the view, each once,
    split over the lines; on a line every name stands in a field one wider
    than the longest name, and no line is wider than [max_width]; the rule
    is shorter than [max_width]. *)
Theorem table_prints_every_name (self : Dataset) (tag : string)
    (l : list string) (max_width : Z) :
  tag ∈ meta_tags →
  meta self !! tag = Some (MList l) →
  l ≠ [] →
  (Z.of_nat (max_list (String.length <$> l)) < max_width)%Z →
  let col_width := S (max_list (String.length <$> l)) in
  ∃ rule chunks,
    table (PyStr tag) max_width self
    = (rule :: (format_row col_width <$> chunks) ++ [rule], None)
    ∧ concat chunks = l
    ∧ (Z.of_nat (String.length rule) < max_width)%Z
    ∧ Forall (λ names,
                names ≠ []
                ∧ String.length (format_row col_width names)
                  = length names * col_width
                ∧ (Z.of_nat (length names * col_width) ≤ max_width)%Z) chunks.
Proof.
  intros Htag Hl Hne Hwide.
  by apply (table_prints_items self tag (MList l) max_width).
Qed.

Lemma table_prints_every_name_witness :
  ∃ rule chunks,
    table (PyStr "features") 15 Sample.scenario
    = (rule :: (format_row 7 <$> chunks) ++ [rule], None)
    ∧ concat chunks = ["A"; "B"; "target"].
Proof.
  destruct (table_prints_every_name Sample.scenario "features"
              ["A"; "B"; "target"] 15)
    as (rule & chunks & Hrun & Hconcat & _).
  - apply (bool_decide_unpack _). vm_compute. exact I.
  - vm_compute. reflexivity.
  - discriminate.
  - vm_compute. reflexivity.
  - exists rule, chunks. exact (conj Hrun Hconcat).
Defined.

(** X23.  [table] on a view that holds names, too narrow for the longest
    of them.  With a width from zero up to the length of the longest name
    the call prints an empty line and fails on a division by zero; with a
    negative width it prints two empty lines and returns. *)
Theorem table_too_narrow (self : Dataset) (tag : string)
    (l : list string) (max_width : Z) :
  tag ∈ meta_tags →
  meta self !! tag = Some (MList l) →
  l ≠ [] →
  (max_width ≤ Z.of_nat (max_list (String.length <$> l)))%Z →
  table (PyStr tag) max_width self
  = if decide (0 ≤ max_width)%Z
    then ([""], Some ZeroDivisionError)
    else ([""; ""], None).
Proof.
  intros Htag Hl Hne Hnarrow.
  set (ml := max_list (String.length <$> l)) in *.
  assert (Hmax : py_max (String.length <$> l) = Ok ml) by (by destruct l).
  assert (Hn : (0 < length l)%nat) by (destruct l; [done | simpl; lia]).
  unfold table.
  rewrite (table_names tag self _ Htag Hl). cbn [py_len py_items].
  rewrite decide_False by lia. rewrite Hmax. cbv zeta.
  set (mf := (max_width `div` (Z.of_nat ml + 1))%Z).
  pose proof (Z.div_mod max_width (Z.of_nat ml + 1) ltac:(lia)) as Hdm.
  pose proof (Z.mod_pos_bound max_width (Z.of_nat ml + 1) ltac:(lia)) as Hmb.
  fold mf in Hdm.
  destruct (decide (0 ≤ max_width)%Z) as [Hpos|Hneg].
  - assert (mf = 0%Z) as -> by nia.
    by rewrite decide_True.
  - assert (mf < 0)%Z by nia.
    rewrite decide_False by lia.
    assert (Z.to_nat (mf * Z.of_nat ml + (mf - 1)) = 0) as -> by nia.
    assert (Z.to_nat (ceil_div (Z.of_nat (length l)) mf) = 0) as ->.
    { unfold ceil_div.
      pose proof (Z.div_mod (- Z.of_nat (length l))%Z mf ltac:(lia)).
      pose proof (Z.mod_neg_bound (- Z.of_nat (length l))%Z mf ltac:(lia)). nia. }
    done.
Qed.

Lemma table_too_narrow_witness :
  table (PyStr "features") 6 Sample.scenario = ([""], Some ZeroDivisionError).
Proof.
  apply (table_too_narrow Sample.scenario "features" ["A"; "B"; "target"] 6).
  - apply (bool_decide_unpack _). vm_compute. exact I.
  - vm_compute. reflexivity.
  - discriminate.
  - vm_compute. discriminate.
Defined.

Lemma max_list_chars (l : list Ascii.ascii) :
  (max_list (String.length <$> ((λ a, String a EmptyString) <$> l)) ≤ 1)%nat.
Proof. induction l as [|b l IH]; [simpl; lia |]. apply Nat.max_lub; [done | exact IH]. Qed.

Lemma length_list_ascii_of_string s :
  length (String.list_ascii_of_string s) = String.length s.
Proof. induction s as [|a s IH]; simpl; [done | by rewrite IH]. Qed.

(** X24.  [table('target')].  On a [Dataset] whose [meta] is current:
    while no target is set the call fails with [TypeError], having printed
    nothing; once a target with a name of at least one character is set
    and [max_width] is at least two, it prints between two rules the
    characters of that name one by one, each in a field of width two. *)
Theorem table_of_target (self : Dataset) (max_width : Z) :
  meta_current self →
  (target self = None →
   table (PyStr "target") max_width self = ([], Some (TableError TypeError)))
  ∧ (∀ c, target self = Some (PSeries c) → s_name c ≠ "" →
       (2 ≤ max_width)%Z →
       ∃ rule chunks,
         table (PyStr "target") max_width self
         = (rule :: (format_row 2 <$> chunks) ++ [rule], None)
         ∧ concat chunks
           = (λ a, String a EmptyString) <$> String.list_ascii_of_string (s_name c)).
Proof.
  intros (_ & _ & _ & _ & _ & _ & _ & n & Hn & Ht)%meta_current_lookup.
  split.
  - intros Hnone. rewrite Hnone in Hn. injection Hn as <-.
    unfold table. by rewrite (table_names "target" self _ ltac:(compute_done) Ht).
  - intros c Hc Hname Hwide. rewrite Hc in Hn. injection Hn as <-.
    assert (Hml : max_list (String.length
                              <$> py_items (MName (Some (s_name c)))) = 1).
    { simpl. pose proof (max_list_chars (String.list_ascii_of_string (s_name c))).
      destruct (s_name c) as [|a s]; [done |]. simpl in *. lia. }
    destruct (table_prints_items self "target" (MName (Some (s_name c))) max_width)
      as (rule & chunks & Hrun & Hconcat & _); try done.
    + compute_done.
    + simpl. by rewrite length_fmap, length_list_ascii_of_string.
    + simpl. by destruct (s_name c).
    + rewrite Hml. lia.
    + rewrite Hml in Hrun. by exists rule, chunks.
Qed.

Lemma table_of_target_witness :
  table (PyStr "target") 80 Sample.scenario = ([], Some (TableError TypeError)).
Proof.
  apply (table_of_target Sample.scenario 80).
  - vm_compute. reflexivity.
  - reflexivity.
Defined.


(** ** The rows *)


Lemma rows_kept_refl s : rows_kept s s.
Proof. by split. Qed.

Lemma rows_kept_trans s1 s2 s3 :
  rows_kept s1 s2 → rows_kept s2 s3 → rows_kept s1 s3.
Proof. intros [H1 H2] [H3 H4]. split; congruence. Qed.

Lemma rows_kept_metainfo s r s' : metainfo s = (r, s') → rows_kept s s'.
Proof.
  intros (Hh & _ & Hd & Hf & _)%metainfo_inv.
  unfold rows_kept, features_of, data_of. by rewrite Hh, Hd, Hf.
Qed.

Lemma rows_kept_mutate_features f s :
  df_index f = df_index (features_of s) →
  rows_kept s (MkDataset (heap_update (heap s) (features s) f) (fresh s) (data s)
                 (features s) (target s) (meta s)).
Proof.
  intros Hf. unfold rows_kept, features_of, data_of, heap_update in *. simpl.
  rewrite decide_True by done. split; [done |].
  destruct (decide (data s = features s)) as [->|]; done.
Qed.

Lemma rows_kept_mutate_data f s :
  df_index f = df_index (data_of s) →
  rows_kept s (MkDataset (heap_update (heap s) (data s) f) (fresh s) (data s)
                 (features s) (target s) (meta s)).
Proof.
  intros Hf. unfold rows_kept, features_of, data_of, heap_update in *. simpl.
  split; [| by rewrite decide_True].
  destruct (decide (features s = data s)) as [Heq|]; [| done].
  by rewrite Heq.
Qed.

Lemma drop_label_index f x f' : drop_label f x = Ok f' → df_index f' = df_index f.
Proof. unfold drop_label. destruct (decide _); [| done]. by intros [= <-]. Qed.

Lemma setitem_col_index f l dt vals f' :
  setitem_col f l dt vals = Ok f' → df_index f' = df_index f.
Proof.
  unfold setitem_col. destruct (decide _); [| done].
  destruct (decide _); by intros [= <-].
Qed.

Lemma fillna_label_index f l value f' :
  fillna_label f l value = Ok f' → df_index f' = df_index f.
Proof. by intros [_ ?]%fillna_label_labels. Qed.

Lemma loc_list_index f l X : loc_list f l = Ok X → df_index X = df_index f.
Proof.
  unfold loc_list. destruct (rmapM _ l); simpl; [| done]. by intros [= <-].
Qed.

Lemma onehot_loop_index f cats new_df r :
  onehot_loop f cats new_df = Ok r → df_index r = df_index new_df.
Proof.
  revert new_df. induction cats as [|c cats IH]; intros new_df.
  - by intros [= <-].
  - cbn [onehot_loop]. destruct (loc_label f (Some c)) as [o|]; simpl; [| done].
    intros H. by apply IH in H.
Qed.

Lemma rows_kept_set_target target_name s v s' :
  set_target target_name s = (Ok v, s') → rows_kept s s'.
Proof.
  unfold set_target. intros H.
  apply bind_Ok in H as (ft & s1 & [[= ->] ->]%read_inv & H).
  apply bind_Ok in H as ([] & s2 & Hbody & H).
  apply bind_Ok in H as ([] & s3 & Hm%rows_kept_metainfo & [_ ->]%ret_inv).
  eapply rows_kept_trans; [| exact Hm].
  destruct (decide (target_name ∈ columns (features_of s))).
  - apply bind_Ok in Hbody as (t & s4 & [_ ->]%lift_inv & Hbody).
    apply bind_Ok in Hbody as ([] & s5 & [= <-] & Hbody).
    apply bind_Ok in Hbody as (ft' & s6 & [Hft' ->]%lift_inv & [= <-]).
    apply (rows_kept_mutate_features ft'
             (MkDataset (heap s) (fresh s) (data s) (features s) (Some t) (meta s))).
    symmetry in Hft'. by apply drop_label_index in Hft'.
  - apply bind_Ok in Hbody as (dt & s4 & [_ ->]%read_inv & Hbody).
    apply bind_Ok in Hbody as (t & s5 & [_ ->]%lift_inv & [= <-]).
    by split.
Qed.

Lemma rows_kept_add_column serie s v s' :
  add_column serie s = (Ok v, s') → rows_kept s s'.
Proof.
  unfold add_column. intros H.
  apply bind_Ok in H as (feats & s1 & ->%read_only_names & H).
  apply bind_Ok in H as (l & s2 & [_ ->]%lift_inv & H).
  apply bind_Ok in H as ([] & s3 & Hbody & [_ ->]%ret_inv).
  destruct (decide (s_name serie ∉ l)).
  - apply bind_Ok in Hbody as (ft & s4 & [[= ->] ->]%read_inv & Hbody).
    apply bind_Ok in Hbody as (ft' & s5 & [Hft' ->]%lift_inv & Hbody).
    apply bind_Ok in Hbody as ([] & s6 & [= <-] & Hm%rows_kept_metainfo).
    eapply rows_kept_trans; [| exact Hm].
    apply rows_kept_mutate_features. symmetry in Hft'. by apply setitem_col_index in Hft'.
  - apply ret_inv in Hbody as [_ ->]. apply rows_kept_refl.
Qed.

Lemma rows_kept_drop_columns_loop l s r s' :
  drop_columns_loop l s = (r, s') → rows_kept s s'.
Proof.
  revert s. induction l as [|x l IH]; intros s.
  - intros [= _ <-]. apply rows_kept_refl.
  - unfold drop_columns_loop. cbn [for_each]. fold (drop_columns_loop l).
    unfold bind at 1.
    destruct ((let! feats := names (PyStr "features") in _) s) as [[[]|e] s1] eqn:E.
    + intros H%IH. eapply rows_kept_trans; [| exact H].
      apply bind_Ok in E as (feats & s2 & ->%read_only_names & E).
      apply bind_Ok in E as (L & s3 & [_ ->]%lift_inv & E).
      destruct (decide (x ∈ L)).
      * apply bind_Ok in E as (ft & s4 & [[= ->] ->]%read_inv & E).
        apply bind_Ok in E as (ft' & s5 & [Hft' ->]%lift_inv & [= <-]).
        apply rows_kept_mutate_features. symmetry in Hft'. by apply drop_label_index in Hft'.
      * apply ret_inv in E as [_ ->]. apply rows_kept_refl.
    + intros [= _ <-].
      assert (s1 = s) as ->; [| apply rows_kept_refl].
      apply bind_Raise in E as [E|(feats & s2 & ->%read_only_names & E)];
        [by apply read_only_names in E |].
      apply bind_Raise in E as [E|(L & s3 & [_ ->]%lift_inv & E)];
        [by apply lift_inv in E as [_ ->] |].
      destruct (decide (x ∈ L)); [| by apply ret_inv in E as [? _]].
      apply bind_Raise in E as [E|(ft & s4 & [[= ->] ->]%read_inv & E)];
        [by apply read_inv in E as [? _] |].
      apply bind_Raise in E as [E|(ft' & s5 & [_ ->]%lift_inv & E)];
        [by apply lift_inv in E as [_ ->] | done].
Qed.

Lemma rows_kept_drop_columns columns_list s v s' :
  drop_columns columns_list s = (Ok v, s') → rows_kept s s'.
Proof.
  rewrite drop_columns_unfold.
  destruct (drop_columns_loop _ s) as [[[]|e] s1] eqn:E; [| done].
  apply rows_kept_drop_columns_loop in E.
  destruct (metainfo s1) as [[[]|e] s2] eqn:Em; [| done].
  intros [= _ <-]. apply rows_kept_metainfo in Em.
  by eapply rows_kept_trans.
Qed.

Lemma rows_kept_replace_na_fill column value s r s' :
  replace_na_fill column value s = (r, s') → rows_kept s s'.
Proof.
  assert (Hstr : ∀ x s r s', replace_na_fill (PyStr x) value s = (r, s') →
                             rows_kept s s').
  { clear. intros x s r s'. unfold replace_na_fill, bind, read, lift. simpl.
    destruct (fillna_label (data_of s) x value) as [dt'|] eqn:E.
    - intros [= _ <-]. apply rows_kept_mutate_data. by apply fillna_label_index in E.
    - intros [= _ <-]. apply rows_kept_refl. }
  destruct column as [| x | | l].
  - intros [= _ <-]. apply rows_kept_refl.
  - apply Hstr.
  - intros [= _ <-]. apply rows_kept_refl.
  - revert s. induction l as [|x l IH]; intros s.
    + intros [= _ <-]. apply rows_kept_refl.
    + rewrite replace_na_fill_cons.
      destruct (replace_na_fill (PyStr x) value s) as [[[]|e] s1] eqn:E.
      * intros H%IH. apply Hstr in E. by eapply rows_kept_trans.
      * intros [= _ <-]. by apply Hstr in E.
Qed.

Lemma rows_kept_replace_na column value s v s' :
  replace_na column value s = (Ok v, s') → rows_kept s s'.
Proof.
  rewrite replace_na_unfold.
  destruct (replace_na_fill column value s) as [[[]|e] s1] eqn:E; [| done].
  apply rows_kept_replace_na_fill in E.
  destruct (metainfo s1) as [[[]|e] s2] eqn:Em; [| done].
  intros [= _ <-]. apply rows_kept_metainfo in Em.
  by eapply rows_kept_trans.
Qed.

Lemma rows_kept_drop_samples index_list s v s' :
  drop_samples index_list s = (Ok v, s') → rows_kept s s'.
Proof.
  unfold drop_samples. intros H.
  apply bind_Ok in H as (dt & s1 & [_ ->]%read_inv & H).
  apply bind_Ok in H as (labels & s2 & [_ ->]%lift_inv & H).
  apply bind_Ok in H as ([] & s3 & Hm%rows_kept_metainfo & [_ ->]%ret_inv).
  done.
Qed.

Lemma rows_kept_onehot_encode s v s' :
  separate s → onehot_encode s = (Ok v, s') → rows_kept s s'.
Proof.
  intros (Hd & Hf & _). unfold onehot_encode. intros H.
  apply bind_Ok in H as (numerical & s1 & ->%read_only_names & H).
  apply bind_Ok in H as (ft & s2 & [[= ->] ->]%read_inv & H).
  apply bind_Ok in H as (new_df & s3 & [Hnew ->]%lift_inv & H).
  apply bind_Ok in H as (categorical & s4 & ->%read_only_names & H).
  apply bind_Ok in H as (cats & s5 & [_ ->]%lift_inv & H).
  apply bind_Ok in H as (encoded & s6 & [Henc ->]%lift_inv & H).
  apply bind_Ok in H as (r & s7 & [= <- <-] & H).
  apply bind_Ok in H as ([] & s8 & [= <-] & H).
  apply bind_Ok in H as ([] & s9 & Hm%rows_kept_metainfo & [_ ->]%ret_inv).
  eapply rows_kept_trans; [| exact Hm].
  unfold rows_kept, features_of, data_of, heap_update. simpl.
  rewrite decide_True by done. rewrite decide_False by lia.
  split; [| done].
  symmetry in Henc, Hnew.
  apply onehot_loop_index in Henc. rewrite Henc.
  destruct (as_names numerical) as [l|]; simpl in Hnew; [| done].
  by apply loc_list_index in Hnew.
Qed.

Lemma read_only_for_each {A} (l : list A) (body : A → M unit) :
  (∀ x, read_only (body x)) → read_only (for_each l body).
Proof.
  intros Hb. induction l as [|x l IH]; simpl.
  - apply read_only_ret.
  - by apply read_only_bind.
Qed.

Section Rows.

Variable read_csv : string → result frame.
Variables standard_scaler power_transformer : frame → result ndarray.
Variable dataframe_dir : list string.
Variable frame_method : string → frame → result (dtype * list cell).
Variable set_iteration : list string → list string.

Lemma rows_kept_view l s s' :
  separate s → view_rewritten l s s' → rows_kept s s'.
Proof.
  intros (_ & _ & Hne) (_ & Hidx & _ & Hd & _ & _ & Hh & _).
  split; [done |]. unfold data_of. rewrite Hd, Hh by done. done.
Qed.

Lemma rows_kept_scale t r s v s' :
  separate s → scale standard_scaler t r s = (Ok v, s') → rows_kept s s'.
Proof.
  intros Hsep H. unfold scale in H.
  apply bind_Ok in H as ([] & s1 & (l & _ & Hv)%transform_features_inv & H).
  apply (rows_kept_view l) in Hv; [| done].
  assert (s' = s1) as ->; [| done].
  destruct r; [| by apply ret_inv in H as [_ ->]].
  apply bind_Ok in H as (o & s2 & ->%read_only_features_named & H).
  by apply ret_inv in H as [_ ->].
Qed.

Lemma rows_kept_ensure_normality t r s v s' :
  separate s → ensure_normality power_transformer t r s = (Ok v, s') →
  rows_kept s s'.
Proof.
  intros Hsep H. unfold ensure_normality in H.
  apply bind_Ok in H as ([] & s1 & (l & _ & Hv)%transform_features_inv & H).
  apply (rows_kept_view l) in Hv; [| done].
  assert (s' = s1) as ->; [| done].
  destruct r; [| by apply ret_inv in H as [_ ->]].
  apply bind_Ok in H as (o & s2 & ->%read_only_features_named & H).
  by apply ret_inv in H as [_ ->].
Qed.

Lemma rows_kept_keep_columns to_keep s v s' :
  keep_columns set_iteration to_keep s = (Ok v, s') → rows_kept s s'.
Proof.
  unfold keep_columns. intros H.
  apply bind_Ok in H as (ft & s1 & [_ ->]%read_inv & H).
  apply bind_Ok in H as (u & s2 & Hd%rows_kept_drop_columns & [_ ->]%ret_inv).
  done.
Qed.

Lemma rows_kept_aggregate col_list new_column operation flag s v s' :
  aggregate dataframe_dir frame_method col_list new_column operation flag s
    = (Ok v, s') →
  rows_kept s s'.
Proof.
  unfold aggregate. intros H.
  apply bind_Ok in H as ([] & s1 & [-> _]%assert_inv & H).
  apply bind_Ok in H as ([] & s2 & Hchecks & H).
  assert (s2 = s) as ->.
  { eapply (read_only_for_each col_list); [| exact Hchecks].
    intros x. solve_read_only. }
  apply bind_Ok in H as (ft & s3 & [[= ->] ->]%read_inv & H).
  apply bind_Ok in H as (sub & s4 & [_ ->]%lift_inv & H).
  apply bind_Ok in H as ([dt vals] & s5 & [_ ->]%lift_inv & H).
  apply bind_Ok in H as (ft' & s6 & [Hft' ->]%lift_inv & H).
  apply bind_Ok in H as ([] & s7 & [= <-] & H).
  eapply rows_kept_trans;
    [apply rows_kept_mutate_features; symmetry in Hft'; by apply setitem_col_index in Hft' |].
  destruct flag.
  - by apply rows_kept_drop_columns in H.
  - apply bind_Ok in H as ([] & s8 & Hm%rows_kept_metainfo & [_ ->]%ret_inv).
    done.
Qed.

Lemma rows_kept_invoke c s v s' :
  separate s →
  invoke standard_scaler power_transformer dataframe_dir frame_method
    set_iteration c s = (Ok v, s') →
  rows_kept s s'.
Proof.
  intros Hsep. destruct c; simpl; intros H.
  - by eapply rows_kept_set_target.
  - by eapply rows_kept_scale.
  - by eapply rows_kept_ensure_normality.
  - by eapply rows_kept_onehot_encode.
  - by eapply rows_kept_add_column.
  - by eapply rows_kept_drop_columns.
  - by eapply rows_kept_keep_columns.
  - by eapply rows_kept_aggregate.
  - by eapply rows_kept_drop_samples.
  - by eapply rows_kept_replace_na.
Qed.

Lemma init_same_table h n data_location data_frame s :
  (∀ r, data_frame = Some r → r < n)%nat →
  init read_csv data_location data_frame (new_self h n) = (Ok tt, s) →
  features_of s = data_of s.
Proof.
  intros Hr. unfold init. intros H.
  apply bind_Ok in H as (r & s1 & Hr1 & H).
  apply bind_Ok in H as ([] & s2 & [= <-] & H).
  apply bind_Ok in H as (dt & s3 & [[= ->] ->]%read_inv & H).
  apply bind_Ok in H as (r' & s4 & [= <- <-] & H).
  apply bind_Ok in H as ([] & s5 & [= <-] & H).
  apply metainfo_inv in H as (Hh & _ & Hd & Hf & _).
  unfold features_of, data_of. rewrite Hh, Hd, Hf. simpl.
  unfold heap_update. rewrite decide_True by done.
  destruct (decide (r = fresh s1)) as [Heq|]; [| done].
  exfalso. destruct data_location as [path|].
  - apply bind_Ok in Hr1 as (f & s6 & [_ ->]%lift_inv & [= <- <-]).
    simpl in Heq. lia.
  - destruct data_frame as [r0|]; [| done].
    apply ret_inv in Hr1 as [[= <-] ->]. simpl in Heq.
    specialize (Hr r eq_refl). lia.
Qed.

End Rows.

(** X25.  No method changes the rows.  In every state of a [Dataset] the
    working table has the row labels of the raw table, and every call of a
    mutating method that returns, [drop_samples] included, leaves the row
    labels of both tables as they were. *)
Theorem rows_never_change
    (read_csv : string → result frame)
    (standard_scaler power_transformer : frame → result ndarray)
    (dataframe_dir : list string)
    (frame_method : string → frame → result (dtype * list cell))
    (set_iteration : list string → list string)
    (self : Dataset) :
  reachable read_csv standard_scaler power_transformer dataframe_dir
    frame_method set_iteration self →
  df_index (features_of self) = df_index (data_of self)
  ∧ ∀ c v self',
      invoke standard_scaler power_transformer dataframe_dir frame_method
        set_iteration c self = (Ok v, self') →
      df_index (features_of self') = df_index (features_of self)
      ∧ df_index (data_of self') = df_index (data_of self).
Proof.
  intros Hreach. split.
  - induction Hreach as [h n data_location data_frame self Hr H
                        | self c v self' Hreach IH H].
    + by erewrite init_same_table.
    + apply reachable_separate in Hreach.
      apply rows_kept_invoke in H as [Hf Hd]; [| done]. congruence.
  - intros c v self' H. apply reachable_separate in Hreach.
    by apply rows_kept_invoke in H.
Qed.

Lemma rows_never_change_witness :
  df_index (features_of Sample.scenario) = df_index (data_of Sample.scenario).
Proof.
  apply (rows_never_change Sample.no_csv Sample.same_values Sample.same_values
           Sample.reductions Sample.zero_rows Sample.in_order Sample.scenario).
  apply (Sample.dataset_of_reachable Sample.scenario_table).
Defined.


(** ** Adding a column and dropping it again *)

(** X26.  [drop_columns] undoes [add_column].  On a [Dataset] whose [meta]
    is current, adding a Series under a new name, with as many values as
    the table has rows, and then dropping that name returns twice and
    gives back the working table, the target and [meta] as they were. *)
Theorem add_column_then_drop (self : Dataset) (serie : series) :
  meta_current self →
  s_name serie ∉ columns (features_of self) →
  length (s_values serie) = frame_len (features_of self) →
  ∃ s1 s2,
    add_column serie self = (Ok RetSelf, s1)
    ∧ drop_columns (PyStr (s_name serie)) s1 = (Ok RetSelf, s2)
    ∧ features_of s2 = features_of self
    ∧ target s2 = target self
    ∧ meta s2 = meta self.
Proof.
  intros Hcur Hnin Hlen.
  destruct (add_column_appends self serie Hcur Hnin Hlen)
    as (s1 & Hadd & Hft1 & Ht1 & Hcur1 & Hdata1).
  pose proof (meta_current_lookup _ Hcur1)
    as (_ & _ & _ & _ & _ & Hf1 & _ & n & Hn & _).
  destruct (drop_columns_run _ n (PyStr (s_name serie)) s1 Hf1 Hn)
    as (s2 & Hdrop & Hft2 & Ht2 & Hdata2 & Hcur2); [apply NoDup_singleton | auto |].
  assert (Hback : features_of s2 = features_of self).
  { rewrite Hft2, Hft1. simpl. rewrite <- (frame_eta (features_of self)) at 3.
    f_equal. rewrite filter_app, filter_all.
    - rewrite filter_none; [apply app_nil_r |].
      intros c ->%list_elem_of_singleton Hc. apply Hc. split.
      + apply list_elem_of_here.
      + unfold columns. simpl. rewrite fmap_app. apply elem_of_app. right.
        apply list_elem_of_here.
    - intros c Hc [Hname%list_elem_of_singleton _]. apply Hnin.
      rewrite <- Hname. by apply list_elem_of_fmap_2. }
  exists s1, s2. split; [done |]. split; [done |]. split; [done |].
  split; [congruence |].
  apply meta_current_eq; [done | done | done | | congruence].
  pose proof (keeps_refs_add_column serie _ _ _ Hadd) as (Hd1 & Hfe1 & _).
  pose proof (keeps_refs_drop_columns _ _ _ _ Hdrop) as (Hd2 & Hfe2 & _).
  destruct (decide (data self = features self)) as [Halias|Hne].
  - assert (data_of s2 = features_of s2) as ->
      by (unfold data_of, features_of; congruence).
    assert (data_of self = features_of self) as ->
      by (unfold data_of, features_of; congruence).
    by rewrite Hback.
  - rewrite Hdata2, Hdata1 by congruence. done.
Qed.

Lemma add_column_then_drop_witness :
  ∃ s1 s2,
    add_column (Series "C" dt_int64 [Num 0; Num 0; Num 0; Num 0]) Sample.scenario
    = (Ok RetSelf, s1)
    ∧ drop_columns (PyStr "C") s1 = (Ok RetSelf, s2)
    ∧ features_of s2 = features_of Sample.scenario.
Proof.
  destruct (add_column_then_drop Sample.scenario
              (Series "C" dt_int64 [Num 0; Num 0; Num 0; Num 0]))
    as (s1 & s2 & Hadd & Hdrop & Hft & _).
  - vm_compute. reflexivity.
  - apply (bool_decide_unpack _). vm_compute. exact I.
  - vm_compute. reflexivity.
  - exists s1, s2. exact (conj Hadd (conj Hdrop Hft)).
Defined.
